(** * WenPlayer front end: playback-state mirror and frame presentation

    A shallow embedding of [src/main.ts] (the Tauri front end of WenPlayer)
    and the properties of its playback-state synchronisation and frame
    presentation code.

    Conventions of the embedding.
    - A JavaScript [number] that holds seconds, a volume level or a
      percentage is an IEEE 754 binary64 value: Rocq's primitive [float],
      with [PrimFloat.eqb] for [===] and [PrimFloat.ltb] for [<].
    - Pixel dimensions and pixel bytes are natural numbers ([N]); the
      engine serialises them as non-negative JSON integers.  Where the
      platform takes a dimension as an [unsigned long] (the canvas
      attributes and the [ImageData] constructor) it is converted as Web IDL
      and the HTML Standard say, modulo 2^32.
    - A string is its sequence of UTF-8 bytes; the separators looked for
      ([.], [/] and [\]) are single bytes that occur in no longer
      sequence.
    - The document is a finite map from element ids to elements, so that
      [document.getElementById] is a map lookup and a missing element is
      [None].  A module-level variable holding an element holds its id:
      two references to the same element alias.  [main.ts] removes no
      element from the page, so a variable that names an element names one
      the document has ([canvas_on_page]); a state in which it does not
      stands for no state of the program.
    - An [async] function is a resumption: it runs to its first [await],
      hands the request out together with the state it leaves behind, and is
      resumed later with the reply and the state of that later moment. *)

From Stdlib Require Import ZArith Floats Ascii String.
From stdpp Require Import base option list strings gmap.

Set Warnings "-inexact-float".
Local Open Scope Z_scope.

(** ** JavaScript values *)

Module JS.

(** [number] literals and conversions. *)
Definition number := float.

(** The number denoted by an integer, as [parseInt] yields it: the nearest
    binary64 value, ties to even; exact up to 2^53, infinite from 2^1024. *)
Definition of_Z (z : Z) : number :=
  SF2Prim (binary_normalize prec emax z 0 false).

(** [a === b], [a < b], [a > b] and [a <= b] on numbers. *)
Definition strict_eq (a b : number) : bool := PrimFloat.eqb a b.
Definition lt (a b : number) : bool := PrimFloat.ltb a b.
Definition gt (a b : number) : bool := PrimFloat.ltb b a.
Definition le (a b : number) : bool := PrimFloat.leb a b.

(** Truthiness of a number: [0], [-0] and [NaN] are falsy. *)
Definition truthy (a : number) : bool :=
  negb (PrimFloat.eqb a 0%float) && PrimFloat.eqb a a.

(** [s.split(sep)] for a separator given as a set of characters: the
    result is never empty, and a string without separator is its own
    only piece. *)
Fixpoint split (sep : ascii → bool) (s : string) : list string :=
  match s with
  | EmptyString => [EmptyString]
  | String c r =>
      if sep c then EmptyString :: split sep r
      else match split sep r with
           | h :: t => String c h :: t
           | [] => [String c EmptyString]
           end
  end.

(** [arr.pop()] as a value: the last element, [undefined] on []. *)
Definition pop (l : list string) : option string := last l.

Definition is_dot (c : ascii) : bool := bool_decide (c = "."%char).
Definition is_slash (c : ascii) : bool :=
  bool_decide (c = "/"%char) || bool_decide (c = "\"%char).

(** [s.toLowerCase()] on a string held as UTF-8 bytes.  The ASCII capitals
are lowered, and so are the two letters outside ASCII whose lower case
contains an ASCII letter: U+212A (Kelvin sign, to [k]) and U+0130 (to [i]
followed by U+0307).  Every other letter outside ASCII is kept as it is:
its lower case is outside ASCII too, and no entry of the extension tables
below contains such a letter. *)
Definition lower_char (c : ascii) : ascii :=
  let n := N_of_ascii c in
  if ((65 <=? n) && (n <=? 90))%N then ascii_of_N (n + 32) else c.

Definition is_byte (n : N) (c : ascii) : bool := (N_of_ascii c =? n)%N.

Fixpoint toLowerCase (s : string) : string :=
  match s with
  | EmptyString => EmptyString
  | String c r =>
      let kept := String (lower_char c) (toLowerCase r) in
      match r with
      | String c2 r2 =>
          if is_byte 196 c && is_byte 176 c2 then
            String "i" (String "204" (String "135" (toLowerCase r2)))
          else
            match r2 with
            | String c3 r3 =>
                if is_byte 226 c && is_byte 132 c2 && is_byte 170 c3
                then String "k" (toLowerCase r3)
                else kept
            | EmptyString => kept
            end
      | EmptyString => kept
      end
  end.

(** [a || b] on strings: the empty string is falsy. *)
Definition or_else (a b : string) : string :=
  if bool_decide (a = EmptyString) then b else a.

(** [arr.includes(x)]. *)
Definition includes (l : list string) (x : string) : bool :=
  bool_decide (x ∈ l).

End JS.

(** ** Integer attributes of the platform *)

(** An integer-valued number converted to an [unsigned long] (Web IDL): its
    value modulo 2^32. *)
Definition unsigned_long (v : N) : N := (v mod 4294967296)%N.

(** What an [unsigned long] attribute that reflects a content attribute
    holds once it is assigned [v] (HTML Standard, reflecting [unsigned
    long]): the converted value when that is at most 2^31 - 1, and the
    default of the attribute otherwise. *)
Definition reflected (default v : N) : N :=
  if (unsigned_long v <=? 2147483647)%N then unsigned_long v else default.

(** ** The page: elements, console, and the module-level variables *)

(** Text put into an element.  [formatTime(t)] is kept symbolic: the
    element shows the clock reading of [t]. *)
Inductive Text :=
| TStr (s : string)
| TClock (seconds : JS.number).

(** A successfully constructed [ImageData]. *)
Record ImageData := {
  idata : list N;   (* the Uint8ClampedArray *)
  iwidth : N;
  iheight : N
}.

(** The properties of an element that [main.ts] reads or writes.  The
    canvas properties are those of the element with id [video-canvas]. *)
Record Element := {
  display : string;                (* style.display *)
  styleWidth : option JS.number;   (* style.width = `${p}%` *)
  ariaLabel : option string;
  textContent : option Text;
  classList : list string;
  value : option JS.number;        (* the slider's value *)
  width : N;                       (* canvas backing store, as the *)
  height : N;                      (* width and height attributes read *)
  clientWidth : N;                 (* layout box *)
  clientHeight : N;
  context2d : bool;                (* getContext('2d') yields a context *)
  painted : option ImageData       (* last putImageData at (0,0) *)
}.

Definition set_display (v : string) (e : Element) : Element :=
  {| display := v; styleWidth := styleWidth e; ariaLabel := ariaLabel e;
     textContent := textContent e; classList := classList e;
     value := value e; width := width e; height := height e;
     clientWidth := clientWidth e; clientHeight := clientHeight e;
     context2d := context2d e; painted := painted e |}.

Definition set_styleWidth (v : JS.number) (e : Element) : Element :=
  {| display := display e; styleWidth := Some v; ariaLabel := ariaLabel e;
     textContent := textContent e; classList := classList e;
     value := value e; width := width e; height := height e;
     clientWidth := clientWidth e; clientHeight := clientHeight e;
     context2d := context2d e; painted := painted e |}.

Definition set_ariaLabel (v : string) (e : Element) : Element :=
  {| display := display e; styleWidth := styleWidth e; ariaLabel := Some v;
     textContent := textContent e; classList := classList e;
     value := value e; width := width e; height := height e;
     clientWidth := clientWidth e; clientHeight := clientHeight e;
     context2d := context2d e; painted := painted e |}.

Definition set_textContent (v : Text) (e : Element) : Element :=
  {| display := display e; styleWidth := styleWidth e; ariaLabel := ariaLabel e;
     textContent := Some v; classList := classList e;
     value := value e; width := width e; height := height e;
     clientWidth := clientWidth e; clientHeight := clientHeight e;
     context2d := context2d e; painted := painted e |}.

Definition set_classList (v : list string) (e : Element) : Element :=
  {| display := display e; styleWidth := styleWidth e; ariaLabel := ariaLabel e;
     textContent := textContent e; classList := v;
     value := value e; width := width e; height := height e;
     clientWidth := clientWidth e; clientHeight := clientHeight e;
     context2d := context2d e; painted := painted e |}.

Definition set_value (v : JS.number) (e : Element) : Element :=
  {| display := display e; styleWidth := styleWidth e; ariaLabel := ariaLabel e;
     textContent := textContent e; classList := classList e;
     value := Some v; width := width e; height := height e;
     clientWidth := clientWidth e; clientHeight := clientHeight e;
     context2d := context2d e; painted := painted e |}.

Definition set_width (v : N) (e : Element) : Element :=
  {| display := display e; styleWidth := styleWidth e; ariaLabel := ariaLabel e;
     textContent := textContent e; classList := classList e;
     value := value e; width := v; height := height e;
     clientWidth := clientWidth e; clientHeight := clientHeight e;
     context2d := context2d e; painted := painted e |}.

Definition set_height (v : N) (e : Element) : Element :=
  {| display := display e; styleWidth := styleWidth e; ariaLabel := ariaLabel e;
     textContent := textContent e; classList := classList e;
     value := value e; width := width e; height := v;
     clientWidth := clientWidth e; clientHeight := clientHeight e;
     context2d := context2d e; painted := painted e |}.

Definition set_painted (v : ImageData) (e : Element) : Element :=
  {| display := display e; styleWidth := styleWidth e; ariaLabel := ariaLabel e;
     textContent := textContent e; classList := classList e;
     value := value e; width := width e; height := height e;
     clientWidth := clientWidth e; clientHeight := clientHeight e;
     context2d := context2d e; painted := Some v |}.

Definition clear_painted (e : Element) : Element :=
  {| display := display e; styleWidth := styleWidth e; ariaLabel := ariaLabel e;
     textContent := textContent e; classList := classList e;
     value := value e; width := width e; height := height e;
     clientWidth := clientWidth e; clientHeight := clientHeight e;
     context2d := context2d e; painted := None |}.

(** [classList.add(c)] and [classList.remove(c)]. *)
Definition classList_add (c : string) (e : Element) : Element :=
  if bool_decide (c ∈ classList e) then e
  else set_classList (classList e ++ [c]) e.

Definition classList_remove (c : string) (e : Element) : Element :=
  set_classList (filter (λ x, x ≠ c) (classList e)) e.

(** The mirrored playback state, lines 224-227. *)
Record PlaybackState := {
  isPlaying : bool;
  currentTime : JS.number;
  duration : JS.number;
  volume : JS.number
}.

Inductive LogEntry :=
| ConsoleLog (msg : string)
| ConsoleError (msg : string).

(** Calls that reallocate or repaint a canvas backing store. *)
Inductive CanvasCall :=
| SetWidth (id : string) (v : N)
| SetHeight (id : string) (v : N)
| PutImageData (id : string) (img : ImageData).

Record World := {
  videoCanvas : option string;     (* let videoCanvas, line 12 *)
  videoContext : option string;    (* let videoContext, line 13 *)
  player : PlaybackState;
  lastVolume : option JS.number;   (* (window as any).lastVolume *)
  document : gmap string Element;
  bodyClassList : list string;
  console : list LogEntry;         (* oldest first *)
  alerts : list string;
  canvasCalls : list CanvasCall    (* oldest first *)
}.

Definition with_videoCanvas (v : option string) (w : World) : World :=
  {| videoCanvas := v; videoContext := videoContext w; player := player w;
     lastVolume := lastVolume w; document := document w;
     bodyClassList := bodyClassList w; console := console w;
     alerts := alerts w; canvasCalls := canvasCalls w |}.

Definition with_videoContext (v : option string) (w : World) : World :=
  {| videoCanvas := videoCanvas w; videoContext := v; player := player w;
     lastVolume := lastVolume w; document := document w;
     bodyClassList := bodyClassList w; console := console w;
     alerts := alerts w; canvasCalls := canvasCalls w |}.

Definition with_player (p : PlaybackState) (w : World) : World :=
  {| videoCanvas := videoCanvas w; videoContext := videoContext w; player := p;
     lastVolume := lastVolume w; document := document w;
     bodyClassList := bodyClassList w; console := console w;
     alerts := alerts w; canvasCalls := canvasCalls w |}.

Definition with_lastVolume (v : JS.number) (w : World) : World :=
  {| videoCanvas := videoCanvas w; videoContext := videoContext w;
     player := player w; lastVolume := Some v; document := document w;
     bodyClassList := bodyClassList w; console := console w;
     alerts := alerts w; canvasCalls := canvasCalls w |}.

Definition with_document (d : gmap string Element) (w : World) : World :=
  {| videoCanvas := videoCanvas w; videoContext := videoContext w;
     player := player w; lastVolume := lastVolume w; document := d;
     bodyClassList := bodyClassList w; console := console w;
     alerts := alerts w; canvasCalls := canvasCalls w |}.

Definition with_bodyClassList (l : list string) (w : World) : World :=
  {| videoCanvas := videoCanvas w; videoContext := videoContext w;
     player := player w; lastVolume := lastVolume w; document := document w;
     bodyClassList := l; console := console w;
     alerts := alerts w; canvasCalls := canvasCalls w |}.

Definition with_console (l : list LogEntry) (w : World) : World :=
  {| videoCanvas := videoCanvas w; videoContext := videoContext w;
     player := player w; lastVolume := lastVolume w; document := document w;
     bodyClassList := bodyClassList w; console := l;
     alerts := alerts w; canvasCalls := canvasCalls w |}.

Definition with_alerts (l : list string) (w : World) : World :=
  {| videoCanvas := videoCanvas w; videoContext := videoContext w;
     player := player w; lastVolume := lastVolume w; document := document w;
     bodyClassList := bodyClassList w; console := console w;
     alerts := l; canvasCalls := canvasCalls w |}.

Definition with_canvasCalls (l : list CanvasCall) (w : World) : World :=
  {| videoCanvas := videoCanvas w; videoContext := videoContext w;
     player := player w; lastVolume := lastVolume w; document := document w;
     bodyClassList := bodyClassList w; console := console w;
     alerts := alerts w; canvasCalls := l |}.

(** [console.log], [console.error], [alert]. *)
Definition console_log (msg : string) (w : World) : World :=
  with_console (console w ++ [ConsoleLog msg]) w.
Definition console_error (msg : string) (w : World) : World :=
  with_console (console w ++ [ConsoleError msg]) w.
Definition alert (msg : string) (w : World) : World :=
  with_alerts (alerts w ++ [msg]) w.

(** [document.getElementById(id)]. *)
Definition getElementById (id : string) (w : World) : option Element :=
  document w !! id.

(** [if (el) el.prop = v] for the element with the given id: nothing
    happens when the element is missing. *)
Definition update (id : string) (f : Element → Element) (w : World) : World :=
  with_document (alter f id (document w)) w.

(** Assignments to the playback variables. *)
Definition set_isPlaying (b : bool) (w : World) : World :=
  with_player {| isPlaying := b; currentTime := currentTime (player w);
                 duration := duration (player w);
                 volume := volume (player w) |} w.
Definition set_currentTime (t : JS.number) (w : World) : World :=
  with_player {| isPlaying := isPlaying (player w); currentTime := t;
                 duration := duration (player w);
                 volume := volume (player w) |} w.
Definition set_duration (t : JS.number) (w : World) : World :=
  with_player {| isPlaying := isPlaying (player w);
                 currentTime := currentTime (player w); duration := t;
                 volume := volume (player w) |} w.
Definition set_volume (v : JS.number) (w : World) : World :=
  with_player {| isPlaying := isPlaying (player w);
                 currentTime := currentTime (player w);
                 duration := duration (player w); volume := v |} w.

(** ** Requests to the outside and resumptions *)

(** What an [await] waits for, indexed by the type of the value it
    resolves to: the file picker, the window, and the engine commands. *)
Inductive Request : Type → Type :=
| DialogOpen : Request (option string)       (* open({multiple: false, ...}) *)
| ToggleMaximize : Request unit              (* currentWindow.toggleMaximize() *)
| Invoke_load_file (path : string) : Request unit
| Invoke_toggle_playback : Request bool
| Invoke_seek_to (position : JS.number) : Request JS.number
| Invoke_set_volume (volume : JS.number) : Request JS.number.

(** How a promise settles. *)
Inductive Reply (A : Type) :=
| Resolved (a : A)
| Rejected (error : string).
Arguments Resolved {A} a.
Arguments Rejected {A} error.

(** An [async] function body.  [Await w req k] is suspended at an [await]:
    [w] is the state it leaves behind, [k] is what runs when the reply is
    there, on the state of that moment. *)
Inductive Async :=
| Done (w : World)
| Await {A : Type} (w : World) (req : Request A) (k : Reply A → World → Async).

(** The state a resumption leaves behind at its next suspension or at its
    end. *)
Definition visible (t : Async) : World :=
  match t with
  | Done w => w
  | Await w _ _ => w
  end.

(** An engine command sent by a request, if it is one. *)
Inductive Command :=
| load_file (path : string)
| toggle_playback
| seek_to (position : JS.number)
| set_volume_cmd (volume : JS.number).

Definition command_of {A} (req : Request A) : option Command :=
  match req with
  | DialogOpen => None
  | ToggleMaximize => None
  | Invoke_load_file p => Some (load_file p)
  | Invoke_toggle_playback => Some toggle_playback
  | Invoke_seek_to t => Some (seek_to t)
  | Invoke_set_volume v => Some (set_volume_cmd v)
  end.

(** An environment answers every request. *)
Definition Env := ∀ A, Request A → Reply A.

(** Run a handler to its end with no other handler in between. *)
Fixpoint run (env : Env) (t : Async) : World :=
  match t with
  | Done w => w
  | Await w req k => run env (k (env _ req) w)
  end.

(** The engine commands a handler sends on such a run, in order. *)
Fixpoint commands (env : Env) (t : Async) : list Command :=
  match t with
  | Done _ => []
  | Await w req k =>
      option_list (command_of req) ++ commands env (k (env _ req) w)
  end.

(** How a synchronous call ends. *)
Inductive Completion :=
| Returned
| Thrown (exception : string).

(** ** Frame presentation, lines 15-51 *)

(** The payload of a [video-frame] event.  The dimensions and the bytes
    are the integers that the numbers of the payload hold. *)
Module VideoFrameData.
Record t := {
  width : N;
  height : N;
  data : list N;   (* RGBA bytes *)
  timestamp : JS.number
}.
End VideoFrameData.

(** [new Uint8ClampedArray(arr)]: every entry clamped to a byte. *)
Definition Uint8ClampedArray (arr : list N) : list N := N.min 255 <$> arr.

(** [new ImageData(data, sw, sh)] as the HTML Standard defines it: [sw]
    and [sh] are [unsigned long] parameters; the byte length must be a
    nonzero multiple of 4, the pixel count a multiple of [sw], and the
    resulting height equal to [sh]. *)
Definition new_ImageData (data : list N) (sw sh : N) : string + ImageData :=
  let sw := unsigned_long sw in
  let sh := unsigned_long sh in
  let len := N.of_nat (length data) in
  if (len =? 0)%N || negb (len mod 4 =? 0)%N then inl "InvalidStateError"
  else
    let len := (len / 4)%N in
    if (sw =? 0)%N || negb (len mod sw =? 0)%N then inl "IndexSizeError"
    else if negb (len / sw =? sh)%N then inl "IndexSizeError"
    else inr {| idata := data; iwidth := sw; iheight := sh |}.

(** Assigning [canvas.width] or [canvas.height] reallocates the backing
    store, which clears it.  Both are reflecting [unsigned long]
    attributes, with defaults 300 and 150; the call is recorded with the
    value assigned. *)
Definition canvas_set_width (id : string) (v : N) (w : World) : World :=
  with_canvasCalls (canvasCalls w ++ [SetWidth id v])
    (update id (λ e, set_width (reflected 300 v) (clear_painted e)) w).

Definition canvas_set_height (id : string) (v : N) (w : World) : World :=
  with_canvasCalls (canvasCalls w ++ [SetHeight id v])
    (update id (λ e, set_height (reflected 150 v) (clear_painted e)) w).

(** [ctx.putImageData(img, 0, 0)] on the context of canvas [id]. *)
Definition putImageData (id : string) (img : ImageData) (w : World) : World :=
  with_canvasCalls (canvasCalls w ++ [PutImageData id img])
    (update id (set_painted img) w).

(** Lines 25-30: bind the canvas and its context when either is missing. *)
Definition bindSurface (w : World) : World :=
  if bool_decide (videoCanvas w = None) || bool_decide (videoContext w = None)
  then
    match getElementById "video-canvas" w with
    | Some el =>
        with_videoContext
          (if context2d el then Some "video-canvas" else None)
          (with_videoCanvas (Some "video-canvas") w)
    | None => with_videoCanvas None w
    end
  else w.

(** The bound canvas, when both module variables are set. *)
Definition surface (w : World) : option (string * Element) :=
  match videoCanvas w, videoContext w with
  | Some c, Some _ => el ← document w !! c; Some (c, el)
  | _, _ => None
  end.

Definition renderVideoFrame (frameData : VideoFrameData.t) (w : World)
  : World * Completion :=
  let w := bindSurface w in
  match videoCanvas w, videoContext w with
  | Some c, Some ctx =>
      match document w !! c with
      | Some el =>
          (* lines 38-41 *)
          let w :=
            if negb (width el =? VideoFrameData.width frameData)%N
               || negb (height el =? VideoFrameData.height frameData)%N
            then canvas_set_height c (VideoFrameData.height frameData)
                   (canvas_set_width c (VideoFrameData.width frameData) w)
            else w in
          (* lines 44-50 *)
          match new_ImageData (Uint8ClampedArray (VideoFrameData.data frameData))
                  (VideoFrameData.width frameData)
                  (VideoFrameData.height frameData) with
          | inl exn => (w, Thrown exn)
          | inr imageData => (putImageData ctx imageData w, Returned)
          end
      | None => (w, Returned)   (* excluded by [canvas_on_page] *)
      end
  | _, _ => (console_error "视频画布未找到" w, Returned)
  end.

(** ** Media type routing, lines 168-221 *)

Definition audioExtensions : list string :=
  ["mp3"; "flac"; "wav"; "aac"; "ogg"; "m4a"; "wma"].
Definition videoExtensions : list string :=
  ["mp4"; "mkv"; "avi"; "mov"; "wmv"; "flv"; "webm"; "m4v"].

(** Line 170: [filePath.split('.').pop()?.toLowerCase() || '']. *)
Definition extension (filePath : string) : string :=
  JS.or_else
    (from_option JS.toLowerCase EmptyString
       (JS.pop (JS.split JS.is_dot filePath)))
    EmptyString.

Definition showMediaIcon (filePath : string) (w : World) : World :=
  let extension := extension filePath in
  (* lines 183-186 *)
  let w := update "audio-icon" (set_display "none") w in
  let w := update "video-icon" (set_display "none") w in
  let w := update "video-canvas" (set_display "none") w in
  let w := update "player-controls" (set_display "none") w in
  (* lines 189-212 *)
  let w :=
    if JS.includes audioExtensions extension then
      let w := update "audio-icon" (set_display "block") w in
      let w := console_log "显示音频图标" w in
      update "player-controls" (set_display "flex") w
    else if JS.includes videoExtensions extension then
      let w := update "video-icon" (set_display "block") w in
      let w := console_log "显示视频图标" w in
      let w :=
        match getElementById "video-canvas" w with
        | Some videoCanvas =>
            let w := update "video-canvas" (set_display "block") w in
            let w := canvas_set_width "video-canvas"
                       (clientWidth videoCanvas) w in
            canvas_set_height "video-canvas" (clientHeight videoCanvas) w
        | None => w
        end in
      update "player-controls" (set_display "flex") w
    else
      let w := update "audio-icon" (set_display "block") w in
      let w := console_log "显示默认图标" w in
      update "player-controls" (set_display "flex") w in
  (* lines 215-220 *)
  let w := update "media-player" (classList_add "active") w in
  with_bodyClassList
    (if bool_decide ("player-mode" ∈ bodyClassList w) then bodyClassList w
     else bodyClassList w ++ ["player-mode"]) w.

(** ** Opening a file, lines 54-122 *)

Definition openFileDialog (w : World) : Async :=
  let w := console_log "打开文件对话框被调用..." w in
  (* the outer [catch], lines 118-121 *)
  let failed (error : string) (w : World) : Async :=
    Done (alert ("打开文件失败: " +:+ error)
            (console_error "打开文件时出错:" w)) in
  Await w DialogOpen (λ r w,
    match r with
    | Rejected error => failed error w
    | Resolved selected =>
        let w := console_log "文件对话框返回:" w in
        match selected with
        | Some (String c s as selected) =>
            let fileName :=
              JS.or_else
                (default EmptyString (JS.pop (JS.split JS.is_slash selected)))
                selected in
            let w :=
              match getElementById "file-info" w,
                    getElementById "file-name" w with
              | Some _, Some _ =>
                  update "file-info" (classList_remove "hidden")
                    (update "file-name"
                       (set_textContent (TStr ("已打开: " +:+ fileName))) w)
              | _, _ => w
              end in
            let w := console_log "打开文件:" w in
            (* await maximizeWindow() *)
            Await w ToggleMaximize (λ r w,
              match r with
              | Rejected error => failed error w
              | Resolved _ =>
                  (* lines 105-111 *)
                  Await w (Invoke_load_file selected) (λ r w,
                    let w :=
                      match r with
                      | Resolved _ => console_log "文件加载到播放器成功" w
                      | Rejected _ => console_error "加载文件到播放器失败:" w
                      end in
                    Done (showMediaIcon selected w))
              end)
        | _ => Done (console_log "用户取消了文件选择或返回了无效值" w)
        end
    end).

(** ** Playback controls, lines 223-437 *)

(** Lines 240-252 and 267-277: swap the play and pause icons. *)
Definition showPlayPause (playPauseBtn playIcon pauseIcon : option string)
    (w : World) : World :=
  match playPauseBtn, playIcon, pauseIcon with
  | Some btn, Some play, Some pause =>
      if isPlaying (player w) then
        update btn (set_ariaLabel "暂停")
          (update pause (set_display "block")
             (update play (set_display "none") w))
      else
        update btn (set_ariaLabel "播放")
          (update pause (set_display "none")
             (update play (set_display "block") w))
  | _, _, _ => w
  end.

(** A reference to the element with the given id, [null] when missing. *)
Definition getRef (id : string) (w : World) : option string :=
  match getElementById id w with
  | Some _ => Some id
  | None => None
  end.

Definition updatePlayPauseUI (w : World) : World :=
  showPlayPause (getRef "play-pause-btn" w) (getRef "play-icon" w)
    (getRef "pause-icon" w) w.

Definition togglePlayPause (w : World) : Async :=
  let playPauseBtn := getRef "play-pause-btn" w in
  let playIcon := getRef "play-icon" w in
  let pauseIcon := getRef "pause-icon" w in
  Await w Invoke_toggle_playback (λ r w,
    match r with
    | Resolved playing =>
        let w := set_isPlaying playing w in
        let w := showPlayPause playPauseBtn playIcon pauseIcon w in
        Done (match playPauseBtn, playIcon, pauseIcon with
              | Some _, Some _, Some _ =>
                  console_log
                    (if isPlaying (player w) then "开始播放" else "暂停播放") w
              | _, _, _ => w
              end)
    | Rejected _ =>
        let w := console_error "切换播放状态失败:" w in
        (* 前端回退 *)
        let w := set_isPlaying (negb (isPlaying (player w))) w in
        Done (updatePlayPauseUI w)
    end).

Definition updateProgress (percent : JS.number) (w : World) : World :=
  update "progress-fill" (set_styleWidth percent) w.

Definition updateTimeDisplay (current total : JS.number) (w : World) : World :=
  update "duration" (set_textContent (TClock total))
    (update "current-time" (set_textContent (TClock current)) w).

(** A click on the progress bar: the pointer's [clientX] and the bar's
    bounding rectangle. *)
Record ProgressClick := {
  clientX : JS.number;
  rect_left : JS.number;
  rect_width : JS.number
}.

(** Lines 313-319: the time a click asks for. *)
Definition clickPercent (e : ProgressClick) : JS.number :=
  let x := (clientX e - rect_left e)%float in
  ((x / rect_width e) * 100)%float.

Definition clickTime (e : ProgressClick) (w : World) : JS.number :=
  ((clickPercent e / 100) * duration (player w))%float.

(** The click listener of [setupProgressBar], lines 312-332. *)
Definition progressBar_click (e : ProgressClick) (w : World) : Async :=
  let percent := clickPercent e in
  let w := updateProgress percent w in
  let newTime := clickTime e w in
  Await w (Invoke_seek_to newTime) (λ r w,
    let w :=
      match r with
      | Resolved seekedTime =>
          console_log "跳转到:" (set_currentTime seekedTime w)
      | Rejected _ =>
          set_currentTime newTime (console_error "跳转失败:" w)
      end in
    Done (updateTimeDisplay (currentTime (player w)) (duration (player w)) w)).

(** Lines 361-373 and 401-413: pick the volume icon. *)
Definition showVolumeIcon (w : World) : World :=
  let show high low mute :=
    update "volume-mute-icon" (set_display mute)
      (update "volume-low-icon" (set_display low)
         (update "volume-high-icon" (set_display high) w)) in
  if JS.strict_eq (volume (player w)) 0%float then show "none" "none" "block"
  else if JS.lt (volume (player w)) 0.5%float then show "none" "block" "none"
  else show "block" "none" "none".

(** The input listener of the volume slider, lines 346-374; [value] is
    [parseInt(target.value)]. *)
Definition volumeSlider_input (value : Z) (w : World) : Async :=
  let newVolume := (JS.of_Z value / 100)%float in
  Await w (Invoke_set_volume newVolume) (λ r w,
    let w :=
      match r with
      | Resolved actualVolume => console_log "音量设置:" (set_volume actualVolume w)
      | Rejected _ => set_volume newVolume (console_error "设置音量失败:" w)
      end in
    Done (showVolumeIcon w)).

(** The click listener of the volume button, lines 377-414. *)
Definition volumeBtn_click (w : World) : Async :=
  let (w, newVolume) :=
    if JS.gt (volume (player w)) 0%float then
      (with_lastVolume (volume (player w)) w, 0%float)
    else
      (w, match lastVolume w with
          | Some v => if JS.truthy v then v else 0.8%float
          | None => 0.8%float
          end) in
  Await w (Invoke_set_volume newVolume) (λ r w,
    let w :=
      match r with
      | Resolved actualVolume => console_log "音量:" (set_volume actualVolume w)
      | Rejected _ => set_volume newVolume (console_error "设置音量失败:" w)
      end in
    let w := update "volume-slider"
               (set_value (volume (player w) * 100)%float) w in
    Done (showVolumeIcon w)).

(** The timer callback of [initPlayerControls], lines 429-436, which runs
    every second. *)
Definition tick (w : World) : World :=
  if isPlaying (player w)
     && JS.lt (currentTime (player w)) (duration (player w))
  then
    let w := set_currentTime (currentTime (player w) + 1)%float w in
    let percent :=
      ((currentTime (player w) / duration (player w)) * 100)%float in
    let w := updateProgress percent w in
    updateTimeDisplay (currentTime (player w)) (duration (player w)) w
  else w.

(** [initPlayerControls], lines 418-437, up to the registration of the
    listeners and of the timer: those are the four definitions above. *)
Definition initPlayerControls (w : World) : World :=
  let w := set_duration 180%float w in
  let w := updateTimeDisplay (currentTime (player w)) (duration (player w)) w in
  updateProgress 0%float w.

(** The module-level initial values, lines 12-13 and 224-227, over a given
    document. *)
Definition initial (doc : gmap string Element) : World :=
  {| videoCanvas := None; videoContext := None;
     player := {| isPlaying := false; currentTime := 0%float;
                  duration := 0%float; volume := 0.8%float |};
     lastVolume := None; document := doc; bodyClassList := [];
     console := []; alerts := []; canvasCalls := [] |}.

(** ** Menu, folder picker and menu items, lines 124-166 and 446-477 *)

(** [classList.toggle(c)]. *)
Definition classList_toggle (c : string) (e : Element) : Element :=
  if bool_decide (c ∈ classList e) then classList_remove c e
  else set_classList (classList e ++ [c]) e.

Definition toggleMenu (w : World) : World :=
  update "file-dropdown" (classList_toggle "show") w.

Definition closeMenu (w : World) : World :=
  update "file-dropdown" (classList_remove "show") w.

(** Lines 124-151.  The picker is the same plug-in call as for a file,
    with [directory: true]. *)
Definition openFolderDialog (w : World) : Async :=
  let w := console_log "打开文件夹对话框被调用..." w in
  Await w DialogOpen (λ r w,
    match r with
    | Rejected error =>
        Done (alert ("打开文件夹失败: " +:+ error)
                (console_error "打开文件夹时出错:" w))
    | Resolved selected =>
        let w := console_log "文件夹对话框返回:" w in
        match selected with
        | Some (String c s as selected) =>
            let folderName :=
              JS.or_else
                (default EmptyString (JS.pop (JS.split JS.is_slash selected)))
                selected in
            let w :=
              match getElementById "file-info" w,
                    getElementById "file-name" w with
              | Some _, Some _ =>
                  update "file-info" (classList_remove "hidden")
                    (update "file-name"
                       (set_textContent
                          (TStr ("已打开文件夹: " +:+ folderName))) w)
              | _, _ => w
              end in
            Done (console_log "打开文件夹:" w)
        | _ => Done (console_log "用户取消了文件夹选择或返回了无效值" w)
        end
    end).

(** A call of an [async] function that is not awaited, followed by
    synchronous code: the function runs to its first [await], and the code
    after the call runs on the state it leaves there. *)
Definition and_then (t : Async) (f : World → World) : Async :=
  match t with
  | Done w => Done (f w)
  | Await w req k => Await (f w) req k
  end.

(** Lines 512-517, the click listener of the document, which every click
    reaches that no listener has stopped: the menu is closed unless the
    click landed inside the element of class [menu-dropdown].
    [outsideMenu] is the test of line 514: the page has such an element and
    it does not contain the target of the click. *)
Definition document_click (outsideMenu : bool) (w : World) : World :=
  if outsideMenu then closeMenu w else w.

(** The click listeners of the menu button and of the two menu items that
    open something, lines 447-465, which stop the click, and of the main
    open button, lines 474-477, which does not: its click goes on to the
    listener of the document once [openFileDialog] is suspended. *)
Definition fileMenuBtn_click (w : World) : World := toggleMenu w.

Definition openFileBtn_click (w : World) : Async :=
  and_then (openFileDialog (console_log "点击了打开文件按钮" w)) closeMenu.

Definition openFolderBtn_click (w : World) : Async :=
  and_then (openFolderDialog (console_log "点击了打开文件夹按钮" w)) closeMenu.

Definition mainOpenBtn_click (outsideMenu : bool) (w : World) : Async :=
  and_then (openFileDialog (console_log "点击了主界面打开文件按钮" w))
    (document_click outsideMenu).

(** * Vocabulary of the properties *)

(** ** Environments and runs *)

(** The environment in which the picker, the window, [load_file],
    [toggle_playback], [seek_to] and [set_volume] settle as given. *)
Definition env_of (picked : Reply (option string)) (window loaded : Reply unit)
    (toggled : Reply bool) (seeked levelled : Reply JS.number) : Env :=
  λ A req,
    match req in Request A return Reply A with
    | DialogOpen => picked
    | ToggleMaximize => window
    | Invoke_load_file _ => loaded
    | Invoke_toggle_playback => toggled
    | Invoke_seek_to _ => seeked
    | Invoke_set_volume _ => levelled
    end.

(** The user picks [path] and every call succeeds; the engine answers the
    numeric commands with [answer]. *)
Definition env_ok (path : string) (playing : bool) (answer : JS.number) : Env :=
  env_of (Resolved (Some path)) (Resolved ()) (Resolved ())
    (Resolved playing) (Resolved answer) (Resolved answer).

(** The engine rejects every command; the picker and the window work. *)
Definition env_down (path : string) : Env :=
  env_of (Resolved (Some path)) (Resolved ()) (Rejected "engine")
    (Rejected "engine") (Rejected "engine") (Rejected "engine").

(** [t] suspends once, leaving [w] behind and asking [req]; whenever the
    reply [r] arrives, on whatever state [w'] is current then, it ends in
    a state [w''] that satisfies [post r w' w'']. *)
Definition settles_with {A} (t : Async) (w : World) (req : Request A)
    (post : Reply A → World → World → Prop) : Prop :=
  ∃ k : Reply A → World → Async,
    t = Await w req k ∧
    ∀ (r : Reply A) (w' : World), ∃ w'' : World,
      k r w' = Done w'' ∧ post r w' w''.

(** Every stretch of a handler, from the state it starts or is resumed on
    to the state it leaves behind at its next suspension or at its end,
    satisfies [P], whatever the replies are and whatever has run in
    between. *)
Fixpoint each_stretch (P : World → World → Prop) (w0 : World) (t : Async)
  : Prop :=
  match t with
  | Done w => P w0 w
  | Await w _ k => P w0 w ∧ ∀ r w', each_stretch P w' (k r w')
  end.

(** ** Playback state *)

(** The state [w] with the player playing at [position] of [total]. *)
Definition playing_at (position total : JS.number) (w : World) : World :=
  with_player {| isPlaying := true; currentTime := position;
                 duration := total; volume := volume (player w) |} w.

(** A level within [0.0, 1.0]. *)
Definition in_unit_range (x : JS.number) : bool :=
  JS.le 0%float x && JS.le x 1%float.

(** A level clamped into [0.0, 1.0]. *)
Definition clamp01 (x : JS.number) : JS.number :=
  if JS.lt x 0%float then 0%float
  else if JS.lt 1%float x then 1%float else x.


(** What [set_volume] settles with is within the range that the engine's
    interface gives: a level in [0.0, 1.0] when it answers. *)
Definition level_reply (r : Reply JS.number) : bool :=
  match r with
  | Resolved a => in_unit_range a
  | Rejected _ => true
  end.

(** The volume and the remembered volume are levels in [0.0, 1.0]. *)
Definition volume_ok (w : World) : bool :=
  in_unit_range (volume (player w))
  && match lastVolume w with
     | Some l => in_unit_range l
     | None => true
     end.

(** A click in the middle of a bar of width 300. *)
Definition click_middle : ProgressClick :=
  {| clientX := 150%float; rect_left := 0%float; rect_width := 300%float |}.


(** The invariant of the playback state: the position does not exceed the
    duration whenever the duration is positive. *)
Definition position_ok (p : PlaybackState) : bool :=
  implb (JS.gt (duration p) 0%float) (JS.le (currentTime p) (duration p)).

(** The operations on the playback state, each with the replies it gets. *)
Inductive Op :=
| OpTick
| OpTogglePlayPause (r : Reply bool)
| OpSetVolume (value : Z) (r : Reply JS.number)
| OpMute (r : Reply JS.number)
| OpSeek (e : ProgressClick) (r : Reply JS.number)
| OpOpen (picked : Reply (option string)) (window loaded : Reply unit)
| OpPresent (frameData : VideoFrameData.t).

Definition nobody : Reply JS.number := Rejected "unused".

(** One operation, run to its end before the next one starts. *)
Definition perform (w : World) (op : Op) : World :=
  match op with
  | OpTick => tick w
  | OpTogglePlayPause r =>
      run (env_of (Rejected "unused") (Rejected "unused") (Rejected "unused")
             r nobody nobody) (togglePlayPause w)
  | OpSetVolume value r =>
      run (env_of (Rejected "unused") (Rejected "unused") (Rejected "unused")
             (Rejected "unused") nobody r) (volumeSlider_input value w)
  | OpMute r =>
      run (env_of (Rejected "unused") (Rejected "unused") (Rejected "unused")
             (Rejected "unused") nobody r) (volumeBtn_click w)
  | OpSeek e r =>
      run (env_of (Rejected "unused") (Rejected "unused") (Rejected "unused")
             (Rejected "unused") r nobody) (progressBar_click e w)
  | OpOpen picked window loaded =>
      run (env_of picked window loaded (Rejected "unused") nobody nobody)
        (openFileDialog w)
  | OpPresent frameData => fst (renderVideoFrame frameData w)
  end.

(** An operation within the contract of the volume commands: the slider is
    at one of its positions 0..100 and the engine, when it answers
    [set_volume], answers with a level. *)
Definition in_contract (op : Op) : Prop :=
  match op with
  | OpSetVolume value r => 0 ≤ value ≤ 100 ∧ level_reply r = true
  | OpMute r => level_reply r = true
  | _ => True
  end.

(** The position is a whole number of seconds between 0 and 180, and the
    duration is the 180 seconds that [initPlayerControls] sets. *)
Definition whole_seconds (p : PlaybackState) : Prop :=
  duration p = 180%float ∧
  ∃ n : Z, 0 ≤ n ≤ 180 ∧ currentTime p = JS.of_Z n.

(** An operation that keeps the position on whole seconds: every operation
    but a seek, and a seek that the engine answers with a whole second of
    the track. *)
Definition on_whole_seconds (op : Op) : Prop :=
  match op with
  | OpSeek _ (Resolved a) => ∃ n : Z, 0 ≤ n ≤ 180 ∧ a = JS.of_Z n
  | OpSeek _ (Rejected _) => False
  | _ => True
  end.

(** ** Frames *)

Definition present (w : World) (frameData : VideoFrameData.t) : World :=
  fst (renderVideoFrame frameData w).

(** The frames presented one after the other. *)
Definition present_all (frames : list VideoFrameData.t) (w : World) : World :=
  foldl present w frames.

(** Everything but the console and the two surface variables. *)
Definition outside (w : World) :=
  (player w, lastVolume w, document w, bodyClassList w, alerts w,
   canvasCalls w).

(** How each of the calls ends. *)
Fixpoint outcomes (frames : list VideoFrameData.t) (w : World)
  : list Completion :=
  match frames with
  | [] => []
  | f :: frames => snd (renderVideoFrame f w) :: outcomes frames (present w f)
  end.

(** The backing-store dimensions of a canvas. *)
Definition dimensions (e : Element) : N * N := (width e, height e).

(** The message of line 33. *)
Definition canvas_not_found : LogEntry := ConsoleError "视频画布未找到".

Definition is_resize (c : CanvasCall) : bool :=
  match c with
  | SetWidth _ _ | SetHeight _ _ => true
  | PutImageData _ _ => false
  end.

(** The assignments to the backing-store dimensions made so far. *)
Definition resizes (w : World) : list CanvasCall :=
  List.filter is_resize (canvasCalls w).

(** Line 38 as a call on [w] evaluates it: the surface is bound and its
    dimensions differ from the frame's. *)
Definition dimensions_differ (frameData : VideoFrameData.t) (w : World) : bool :=
  match surface (bindSurface w) with
  | Some (_, el) =>
      negb (width el =? VideoFrameData.width frameData)%N
      || negb (height el =? VideoFrameData.height frameData)%N
  | None => false
  end.

Definition same_dimensions (f g : VideoFrameData.t) : Prop :=
  VideoFrameData.width f = VideoFrameData.width g ∧
  VideoFrameData.height f = VideoFrameData.height g.

(** Line 32 as a call on [w] evaluates it. *)
Definition unresolved (w : World) : bool :=
  match videoCanvas (bindSurface w), videoContext (bindSurface w) with
  | Some _, Some _ => false
  | _, _ => true
  end.

(** The pixel bytes are as many as the dimensions ask for. *)
Definition well_formed (frameData : VideoFrameData.t) : bool :=
  (N.of_nat (length (VideoFrameData.data frameData))
   =? VideoFrameData.width frameData * VideoFrameData.height frameData * 4)%N.

(** The dimensions are ones a canvas can have: at most 2^31 - 1 each. *)
Definition fits_canvas (frameData : VideoFrameData.t) : bool :=
  (VideoFrameData.width frameData <=? 2147483647)%N
  && (VideoFrameData.height frameData <=? 2147483647)%N.

(** The entries of a JavaScript array: fewer than 2^32. *)
Definition js_array (arr : list N) : bool :=
  (N.of_nat (length arr) <? 4294967296)%N.

(** The canvas variable, when set, names an element of the document. *)
Definition canvas_on_page (w : World) : Prop :=
  match videoCanvas w with
  | Some c => is_Some (document w !! c)
  | None => True
  end.

(** A canvas as the page has it before any frame, and a frame of one
    opaque red pixel. *)
Definition blank_canvas : Element :=
  {| display := "none"; styleWidth := None; ariaLabel := None;
     textContent := None; classList := []; value := None;
     width := 300; height := 150; clientWidth := 800; clientHeight := 450;
     context2d := true; painted := None |}.

Definition red_pixel : VideoFrameData.t :=
  {| VideoFrameData.width := 1; VideoFrameData.height := 1;
     VideoFrameData.data := [255; 0; 0; 255]%N;
     VideoFrameData.timestamp := 0%float |}.

(** The same frame with one byte missing. *)
Definition short_pixel : VideoFrameData.t :=
  {| VideoFrameData.width := 1; VideoFrameData.height := 1;
     VideoFrameData.data := [255; 0; 0]%N;
     VideoFrameData.timestamp := 0%float |}.

(** The red pixel again, declared 2^32 + 1 pixels wide. *)
Definition wrapped_pixel : VideoFrameData.t :=
  {| VideoFrameData.width := 4294967297; VideoFrameData.height := 1;
     VideoFrameData.data := [255; 0; 0; 255]%N;
     VideoFrameData.timestamp := 0%float |}.

(** ** Media kinds *)

Inductive MediaKind := Audio | Video.

(** The branch of [showMediaIcon] that an extension selects, lines 189,
    194 and 206. *)
Definition kind_of (extension : string) : MediaKind :=
  if JS.includes audioExtensions extension then Audio
  else if JS.includes videoExtensions extension then Video
  else Audio.

Definition classify (filePath : string) : MediaKind :=
  kind_of (extension filePath).

(** What [showMediaIcon] puts into [style.display] of the audio icon, the
    video icon and the raster surface for each kind; the control strip gets
    [flex] for both. *)
Definition audio_icon_display (k : MediaKind) : string :=
  match k with Audio => "block" | Video => "none" end.
Definition video_display (k : MediaKind) : string :=
  match k with Audio => "none" | Video => "block" end.

(** A string with a directory separator, as every absolute path has. *)
Fixpoint has_separator (s : string) : bool :=
  match s with
  | EmptyString => false
  | String c r => JS.is_slash c || has_separator r
  end.

(** A string without a dot. *)
Fixpoint dot_free (s : string) : bool :=
  match s with
  | EmptyString => true
  | String c r => negb (JS.is_dot c) && dot_free r
  end.

(** Two spellings of the same ASCII text: equal up to the case of the
    letters [a] to [z]. *)
Definition same_letter (c d : ascii) : bool :=
  bool_decide (c = d)
  || ((97 <=? N_of_ascii d) && (N_of_ascii d <=? 122)
      && (N_of_ascii c =? N_of_ascii d - 32))%N.

Fixpoint same_letters (s t : string) : bool :=
  match s, t with
  | EmptyString, EmptyString => true
  | String c s, String d t => same_letter c d && same_letters s t
  | _, _ => false
  end.

(** A text of small letters and digits, as every entry of the two
    extension tables is. *)
Definition small_char (c : ascii) : bool :=
  (((97 <=? N_of_ascii c) && (N_of_ascii c <=? 122))
   || ((48 <=? N_of_ascii c) && (N_of_ascii c <=? 57)))%N.

Fixpoint small (s : string) : bool :=
  match s with
  | EmptyString => true
  | String c r => small_char c && small r
  end.

(** A page with the audio icon and the canvas, at start-up. *)
Definition media_page : World :=
  initial (<["audio-icon" := blank_canvas]>
             {[ "video-canvas" := blank_canvas ]}).

(** ** Further vocabulary *)

(** What [style.display] of the element [id] holds, if the element is
    there. *)
Definition shown (id : string) (w : World) : option string :=
  display <$> document w !! id.

(** The element [id] carries the class [c]. *)
Definition has_class (c id : string) (w : World) : bool :=
  match document w !! id with
  | Some el => bool_decide (c ∈ classList el)
  | None => false
  end.

(** The host page gains the element [el] under [id]. *)
Definition attach (id : string) (el : Element) (w : World) : World :=
  with_document (<[id := el]> (document w)) w.

(** The two surface variables. *)
Definition surface_vars (w : World) : option string * option string :=
  (videoCanvas w, videoContext w).

(** Everything a frame presentation reads or writes: the two surface
    variables, the canvas calls made so far and the canvas element. *)
Definition surface_side (w : World) :=
  (videoCanvas w, videoContext w, canvasCalls w,
   document w !! "video-canvas").

(** The icon that lines 361-373 show for a level. *)
Definition volume_icon (level : JS.number) : string :=
  if JS.strict_eq level 0%float then "volume-mute-icon"
  else if JS.lt level 0.5%float then "volume-low-icon"
  else "volume-high-icon".

Definition volume_icons : list string :=
  ["volume-high-icon"; "volume-low-icon"; "volume-mute-icon"].

(** The icon for a slider position when the level is the position over
    100. *)
Definition slider_icon (value : Z) : string :=
  if (value =? 0)%Z then "volume-mute-icon"
  else if (value <? 50)%Z then "volume-low-icon"
  else "volume-high-icon".

(** The display of an icon that is, or is not, the one to show. *)
Definition block_iff (chosen id : string) : string :=
  if bool_decide (id = chosen) then "block" else "none".

(** A page with the play button and its two icons, at start-up. *)
Definition button_page : World :=
  initial (<["play-pause-btn" := blank_canvas]>
             (<["play-icon" := blank_canvas]>
                {[ "pause-icon" := blank_canvas ]})).

(** The elements that [showMediaIcon] assigns to. *)
Definition media_elements : list string :=
  ["audio-icon"; "video-icon"; "video-canvas"; "player-controls";
   "media-player"].

(** Everything but the console: what the user can see or the code reads
    back. *)
Definition beyond_console (w : World) :=
  (surface_vars w, outside w).

(** The alert of the outer [catch] of [openFileDialog], line 120. *)
Definition open_failed (error : string) : string :=
  "打开文件失败: " +:+ error.

(** Lines 88-99 of [openFileDialog]: the page once a path is picked, with
    the label set, before the window is maximised. *)
Definition file_labelled (selected : string) (w : World) : World :=
  let w := console_log "文件对话框返回:" w in
  let fileName :=
    JS.or_else
      (default EmptyString (JS.pop (JS.split JS.is_slash selected)))
      selected in
  let w :=
    match getElementById "file-info" w, getElementById "file-name" w with
    | Some _, Some _ =>
        update "file-info" (classList_remove "hidden")
          (update "file-name"
             (set_textContent (TStr ("已打开: " +:+ fileName))) w)
    | _, _ => w
    end in
  console_log "打开文件:" w.

(** The engine fails or answers with the level it was asked for. *)
Definition echoes (requested : JS.number) (r : Reply JS.number) : Prop :=
  match r with
  | Resolved a => a = requested
  | Rejected _ => True
  end.

(** The operations on the playback state alone. *)
Definition is_playback_op (op : Op) : bool :=
  match op with
  | OpTick | OpTogglePlayPause _ | OpSetVolume _ _ | OpMute _ | OpSeek _ _ =>
      true
  | OpOpen _ _ _ | OpPresent _ => false
  end.

(** A string without a directory separator. *)
Definition separator_free (s : string) : bool := negb (has_separator s).

(** ** Proof steps *)

(** Split on the element lookups the goal branches on. *)
Ltac case_lookups :=
  repeat match goal with
    | |- context [match getElementById ?id ?w with _ => _ end] =>
        destruct (getElementById id w)
    end.

(** Push a lookup through the updates of other and of the same element. *)
Ltac lookup_alters :=
  repeat first [ rewrite lookup_alter_eq | rewrite lookup_alter_ne by done ].

(** Split on the lookup in the document of [w] that the goal is stuck on. *)
Ltac case_document w :=
  match goal with
  | |- context [document w !! ?i] => destruct (document w !! i)
  end.

(** Split on the reply of the environment that the goal is stuck on. *)
Ltac case_reply env :=
  match goal with
  | |- context [env ?A ?req] => destruct (env A req)
  end.

(** * Properties *)

(** ** What the page updates leave alone *)

Section Frame.

Lemma player_update id f w : player (update id f w) = player w.
Proof. reflexivity. Qed.

Lemma player_console_log msg w : player (console_log msg w) = player w.
Proof. reflexivity. Qed.

Lemma player_console_error msg w : player (console_error msg w) = player w.
Proof. reflexivity. Qed.

Lemma player_showPlayPause a b c w :
  player (showPlayPause a b c w) = player w.
Proof.
  unfold showPlayPause.
  destruct a, b, c; try reflexivity.
  destruct (isPlaying (player w)); reflexivity.
Qed.

Lemma player_updatePlayPauseUI w : player (updatePlayPauseUI w) = player w.
Proof. apply player_showPlayPause. Qed.

Lemma player_showVolumeIcon w : player (showVolumeIcon w) = player w.
Proof.
  unfold showVolumeIcon.
  destruct (JS.strict_eq _ _); [reflexivity|].
  destruct (JS.lt _ _); reflexivity.
Qed.

Lemma player_updateTimeDisplay a b w :
  player (updateTimeDisplay a b w) = player w.
Proof. reflexivity. Qed.

Lemma player_showMediaIcon path w : player (showMediaIcon path w) = player w.
Proof.
  unfold showMediaIcon.
  destruct (JS.includes audioExtensions _); [reflexivity|].
  destruct (JS.includes videoExtensions _); [|reflexivity].
  cbn. destruct (alter _ _ _ !! "video-canvas"); reflexivity.
Qed.

Lemma player_bindSurface w : player (bindSurface w) = player w.
Proof.
  unfold bindSurface.
  destruct (_ || _); [|reflexivity]. case_lookups; reflexivity.
Qed.

Lemma player_renderVideoFrame frameData w :
  player (fst (renderVideoFrame frameData w)) = player w.
Proof.
  unfold renderVideoFrame.
  destruct (videoCanvas (bindSurface w)) as [c|],
    (videoContext (bindSurface w)) as [ctx|];
    cbn [fst]; rewrite ?player_console_error; try apply player_bindSurface.
  destruct (document (bindSurface w) !! c) as [el|];
    [|apply player_bindSurface].
  destruct (new_ImageData _ _ _); destruct (_ || _); cbn [fst];
    apply player_bindSurface.
Qed.

End Frame.

Create Rewrite HintDb frame.
#[local] Hint Rewrite player_update player_console_log player_console_error
  player_showPlayPause player_updatePlayPauseUI player_showVolumeIcon
  player_updateTimeDisplay player_showMediaIcon player_bindSurface
  player_renderVideoFrame : frame.

(** A handler with one request, run alone, ends in a state that satisfies
    its postcondition for the environment's reply and the state at the
    suspension. *)
Lemma settles_with_run {A} t w (req : Request A) post (env : Env) :
  settles_with t w req post → post (env _ req) w (run env t).
Proof.
  intros (k & -> & Hk). destruct (Hk (env _ req) w) as (w'' & Heq & Hpost).
  cbn [run]. rewrite Heq. exact Hpost.
Qed.

(** Such a handler sends the command of its one request, if that is a
    command, and nothing else. *)
Lemma settles_with_commands {A} t w (req : Request A) post (env : Env) :
  settles_with t w req post →
  commands env t = option_list (command_of req).
Proof.
  intros (k & -> & Hk). destruct (Hk (env _ req) w) as (w'' & Heq & _).
  cbn [commands]. rewrite Heq. cbn [commands]. apply app_nil_r.
Qed.

(** ** The handlers, one by one *)

Lemma togglePlayPause_settles (w : World) :
  settles_with (togglePlayPause w) w Invoke_toggle_playback
    (λ r w' w'',
       isPlaying (player w'') =
         match r with
         | Resolved b => b
         | Rejected _ => negb (isPlaying (player w'))
         end ∧
       currentTime (player w'') = currentTime (player w') ∧
       duration (player w'') = duration (player w') ∧
       volume (player w'') = volume (player w')).
Proof.
  eexists. split; [reflexivity|].
  intros [b|err] w'; eexists; (split; [reflexivity|]).
  - destruct (getRef "play-pause-btn" w), (getRef "play-icon" w),
      (getRef "pause-icon" w);
      cbn [player]; autorewrite with frame; repeat split; reflexivity.
  - autorewrite with frame. repeat split; reflexivity.
Qed.

Lemma volumeSlider_input_settles (v : Z) (w : World) :
  settles_with (volumeSlider_input v w) w
    (Invoke_set_volume (JS.of_Z v / 100)%float)
    (λ r w' w'',
       volume (player w'') =
         match r with
         | Resolved actualVolume => actualVolume
         | Rejected _ => (JS.of_Z v / 100)%float
         end ∧
       isPlaying (player w'') = isPlaying (player w') ∧
       currentTime (player w'') = currentTime (player w') ∧
       duration (player w'') = duration (player w')).
Proof.
  eexists. split; [reflexivity|].
  intros [a|err] w'; eexists; (split; [reflexivity|]);
    autorewrite with frame; repeat split; reflexivity.
Qed.

Lemma volumeBtn_click_settles (w : World) :
  ∃ (w0 : World) (newVolume : JS.number),
    player w0 = player w ∧
    settles_with (volumeBtn_click w) w0 (Invoke_set_volume newVolume)
      (λ r w' w'',
         volume (player w'') =
           match r with
           | Resolved actualVolume => actualVolume
           | Rejected _ => newVolume
           end ∧
         isPlaying (player w'') = isPlaying (player w') ∧
         currentTime (player w'') = currentTime (player w') ∧
         duration (player w'') = duration (player w')).
Proof.
  unfold volumeBtn_click.
  destruct (JS.gt (volume (player w)) 0%float);
    (do 2 eexists; split; [|eexists; split; [reflexivity|]]);
    try reflexivity;
    intros [a|err] w'; eexists; (split; [reflexivity|]);
    autorewrite with frame; repeat split; reflexivity.
Qed.

Lemma progressBar_click_settles (e : ProgressClick) (w : World) :
  settles_with (progressBar_click e w) (updateProgress (clickPercent e) w)
    (Invoke_seek_to (clickTime e w))
    (λ r w' w'',
       currentTime (player w'') =
         match r with
         | Resolved seekedTime => seekedTime
         | Rejected _ => clickTime e w
         end ∧
       document w'' !! "current-time" =
         set_textContent (TClock (currentTime (player w'')))
           <$> document w' !! "current-time" ∧
       isPlaying (player w'') = isPlaying (player w') ∧
       duration (player w'') = duration (player w') ∧
       volume (player w'') = volume (player w')).
Proof.
  eexists. split; [reflexivity|].
  intros [a|err] w'; eexists; (split; [reflexivity|]);
    (split; [reflexivity|]);
    (split; [|repeat split; reflexivity]);
    cbn [updateTimeDisplay update document with_document];
    rewrite lookup_alter_ne by done; rewrite lookup_alter_eq; reflexivity.
Qed.

Lemma openFileDialog_player (env : Env) (w : World) :
  player (run env (openFileDialog w)) = player w.
Proof.
  cbn [openFileDialog run].
  destruct (env _ DialogOpen) as [[[|c s]|]|err]; cbn [run]; try reflexivity.
  destruct (env _ ToggleMaximize) as [[]|err]; cbn [run].
  - destruct (env _ (Invoke_load_file _)); cbn [run];
      autorewrite with frame; case_lookups; reflexivity.
  - case_lookups; reflexivity.
Qed.

Lemma openFileDialog_commands (env : Env) (w : World) :
  commands env (openFileDialog w) =
    match env _ DialogOpen, env _ ToggleMaximize with
    | Resolved (Some (String c s)), Resolved _ => [load_file (String c s)]
    | _, _ => []
    end.
Proof.
  cbn [openFileDialog commands command_of option_list app].
  destruct (env _ DialogOpen) as [[[|c s]|]|err]; cbn [commands];
    try reflexivity.
  destruct (env _ ToggleMaximize) as [[]|err]; reflexivity.
Qed.

(** ** Play and pause *)

(** C1.  [togglePlayPause] sends [toggle_playback] and nothing else.  When
    the engine answers with [b], [isPlaying] becomes [b], whatever it was;
    when the call is rejected, and only then, [isPlaying] becomes the
    negation of the value it has when the rejection arrives.  Position,
    duration and volume are not touched. *)
Theorem togglePlayPause_engine_value_or_local_negation (w : World) :
  settles_with (togglePlayPause w) w Invoke_toggle_playback
    (λ r w' w'',
       isPlaying (player w'') =
         match r with
         | Resolved b => b
         | Rejected _ => negb (isPlaying (player w'))
         end ∧
       currentTime (player w'') = currentTime (player w') ∧
       duration (player w'') = duration (player w') ∧
       volume (player w'') = volume (player w')) ∧
  (∀ env : Env,
      isPlaying (player (run env (togglePlayPause w))) =
        match env _ Invoke_toggle_playback with
        | Resolved b => b
        | Rejected _ => negb (isPlaying (player w))
        end ∧
      commands env (togglePlayPause w) = [toggle_playback]).
Proof.
  split; [apply togglePlayPause_settles|].
  intros env. split.
  - apply (settles_with_run _ _ _ _ env (togglePlayPause_settles w)).
  - apply (settles_with_commands _ _ _ _ env (togglePlayPause_settles w)).
Qed.

(** ** The local clock *)

(** C5.  [tick] is a function of the local state alone: as a handler it
    ends without a request, so it sends no engine command.  It adds 1 to
    the position when [isPlaying] holds and the position is below the
    duration, and otherwise changes nothing; it never changes [isPlaying],
    the duration or the volume.  Five ticks from position 10 of 180 while
    playing reach 15, and a tick at position 180 of 180 stays at 180. *)
Theorem tick_local_advance_by_one :
  (∀ (env : Env) (w : World), commands env (Done (tick w)) = []) ∧
  (∀ w : World,
      currentTime (player (tick w)) =
        (if isPlaying (player w)
            && JS.lt (currentTime (player w)) (duration (player w))
         then (currentTime (player w) + 1)%float
         else currentTime (player w)) ∧
      (isPlaying (player w)
         && JS.lt (currentTime (player w)) (duration (player w)) = false →
       tick w = w) ∧
      isPlaying (player (tick w)) = isPlaying (player w) ∧
      duration (player (tick w)) = duration (player w) ∧
      volume (player (tick w)) = volume (player w)) ∧
  (∀ w : World,
      currentTime (player (Nat.iter 5 tick (playing_at 10%float 180%float w)))
        = 15%float) ∧
  (∀ w : World,
      tick (playing_at 180%float 180%float w)
        = playing_at 180%float 180%float w).
Proof.
  split; [reflexivity|]. split; [|split].
  - intros w. unfold tick.
    destruct (isPlaying (player w) && JS.lt _ _);
      repeat split; try reflexivity; discriminate.
  - intros w. reflexivity.
  - intros w. reflexivity.
Qed.

(** The second part on a paused player. *)
Lemma tick_local_advance_by_one_witness :
  tick (initial ∅) = initial ∅.
Proof.
  destruct tick_local_advance_by_one as (_ & H & _).
  destruct (H (initial ∅)) as (_ & Hid & _).
  apply Hid. reflexivity.
Defined.

(** ** What an operation does to the position and the duration *)

(** The position and the duration after an operation other than a seek
    and a tick are those before. *)
Lemma perform_keeps_position (w : World) (op : Op) :
  match op with OpTick | OpSeek _ _ => False | _ => True end →
  currentTime (player (perform w op)) = currentTime (player w) ∧
  duration (player (perform w op)) = duration (player w).
Proof.
  destruct op as [|r|v r|r|e r|picked window loaded|frameData];
    try contradiction; intros _; cbn [perform].
  - pose proof (settles_with_run _ _ _ _
      (env_of (Rejected "unused") (Rejected "unused") (Rejected "unused")
         r nobody nobody) (togglePlayPause_settles w)) as (_ & Hc & Hd & _).
    split; assumption.
  - pose proof (settles_with_run _ _ _ _
      (env_of (Rejected "unused") (Rejected "unused") (Rejected "unused")
         (Rejected "unused") nobody r) (volumeSlider_input_settles v w))
      as (_ & _ & Hc & Hd).
    split; assumption.
  - destruct (volumeBtn_click_settles w) as (w0 & newVolume & Hw0 & Hs).
    pose proof (settles_with_run _ _ _ _
      (env_of (Rejected "unused") (Rejected "unused") (Rejected "unused")
         (Rejected "unused") nobody r) Hs) as (_ & _ & Hc & Hd).
    rewrite Hc, Hd, Hw0. split; reflexivity.
  - rewrite openFileDialog_player. split; reflexivity.
  - rewrite player_renderVideoFrame. split; reflexivity.
Qed.

(** The position after a seek is the value adopted; the duration is kept. *)
Lemma perform_seek (w : World) (e : ProgressClick) (r : Reply JS.number) :
  currentTime (player (perform w (OpSeek e r))) =
    match r with
    | Resolved seekedTime => seekedTime
    | Rejected _ => clickTime e w
    end ∧
  duration (player (perform w (OpSeek e r))) = duration (player w).
Proof.
  cbn [perform].
  pose proof (settles_with_run _ _ _ _
    (env_of (Rejected "unused") (Rejected "unused") (Rejected "unused")
       (Rejected "unused") r nobody) (progressBar_click_settles e w))
    as (Hc & _ & _ & Hd & _).
  split; assumption.
Qed.

(** No operation assigns the duration. *)
Lemma duration_perform (w : World) (op : Op) :
  duration (player (perform w op)) = duration (player w).
Proof.
  destruct op as [|r|v r|r|e r|picked window loaded|frameData];
    try (apply perform_keeps_position; exact I).
  - cbn [perform]. unfold tick.
    destruct (isPlaying (player w) && JS.lt _ _); reflexivity.
  - apply perform_seek.
Qed.

(** ** Opening a file *)

Lemma openFileDialog_each_stretch (w : World) :
  each_stretch (λ w0 w1, player w1 = player w0) w (openFileDialog w).
Proof.
  cbn [openFileDialog each_stretch]. split; [reflexivity|].
  intros [[[|c s]|]|err] w1; cbn [each_stretch]; try reflexivity.
  split; [case_lookups; reflexivity|].
  intros [[]|err] w2; cbn [each_stretch]; [|reflexivity].
  split; [reflexivity|].
  intros [[]|err] w3; autorewrite with frame; reflexivity.
Qed.

(** C3, as the code has it.  [openFileDialog] never assigns a playback
    variable.  Every stretch of it, from the click to the picker, from the
    picker's reply to the window call, from the window's reply to
    [load_file] and from the engine's reply to the end, leaves [isPlaying],
    the position, the duration and the volume as that stretch found them,
    whatever the replies are and whatever ran while the handler was
    suspended; so does a run of it on its own.  It sends [load_file] with
    the selected path, and only that, exactly when a non-empty path was
    picked and the window call succeeded.  The duration is assigned by
    [initPlayerControls], to 180, and by nothing else: no operation changes
    it, and after start-up it is 180 throughout. *)
Theorem openFileDialog_keeps_playback_state :
  (∀ w : World,
      each_stretch (λ w0 w1, player w1 = player w0) w (openFileDialog w)) ∧
  (∀ (env : Env) (w : World),
      player (run env (openFileDialog w)) = player w ∧
      commands env (openFileDialog w) =
        match env _ DialogOpen, env _ ToggleMaximize with
        | Resolved (Some (String c s)), Resolved _ => [load_file (String c s)]
        | _, _ => []
        end) ∧
  (∀ w : World,
      duration (player (initPlayerControls w)) = 180%float ∧
      isPlaying (player (initPlayerControls w)) = isPlaying (player w) ∧
      currentTime (player (initPlayerControls w)) = currentTime (player w) ∧
      volume (player (initPlayerControls w)) = volume (player w)) ∧
  (∀ (w : World) (op : Op),
      duration (player (perform w op)) = duration (player w)) ∧
  (∀ (doc : gmap string Element) (ops : list Op),
      duration (player (foldl perform (initPlayerControls (initial doc)) ops))
        = 180%float).
Proof.
  split; [apply openFileDialog_each_stretch|].
  split; [intros env w; split;
          [apply openFileDialog_player | apply openFileDialog_commands]|].
  split; [intros w; repeat split|].
  split; [apply duration_perform|].
  intros doc ops.
  assert (Hkept : ∀ w, duration (player (foldl perform w ops))
                       = duration (player w)).
  { induction ops as [|op ops IH]; intros w; [reflexivity|].
    cbn [foldl]. rewrite IH. apply duration_perform. }
  rewrite Hkept. reflexivity.
Qed.

(** C3 does not hold as stated: a file is opened at position 50 of 180, the
    path reaches the engine, and the position is still 50 and the duration
    still 180 afterwards; a second open changes nothing either. *)
Lemma openFileDialog_reset_counterexample :
  let env := env_ok "/music/a.flac" true 0%float in
  let w := playing_at 50%float 180%float (initial ∅) in
  let w1 := run env (openFileDialog w) in
  let w2 := run env (openFileDialog w1) in
  commands env (openFileDialog w) = [load_file "/music/a.flac"] ∧
  currentTime (player w1) = 50%float ∧
  JS.strict_eq (currentTime (player w1)) 0%float = false ∧
  duration (player w1) = 180%float ∧
  commands env (openFileDialog w1) = [load_file "/music/a.flac"] ∧
  JS.strict_eq (currentTime (player w2)) 0%float = false ∧
  duration (player w2) = 180%float.
Proof. vm_compute. repeat split; reflexivity. Qed.

(** ** Volume *)

(** The slider positions 0, 1, ..., 100 divided by 100 are all within
    range: 101 cases, each evaluated. *)
Lemma slider_levels_in_range (v : Z) :
  0 ≤ v ≤ 100 → in_unit_range (JS.of_Z v / 100)%float = true.
Proof.
  intros Hv.
  assert (Hall : forallb (λ n, in_unit_range (JS.of_Z (Z.of_nat n) / 100)%float)
                   (seq 0 101) = true) by (vm_compute; reflexivity).
  rewrite forallb_forall in Hall.
  specialize (Hall (Z.to_nat v)).
  rewrite Z2Nat.id in Hall by lia.
  apply Hall, in_seq. lia.
Qed.

Section Levels.

(** A number that is at most another is not above it. *)
Lemma le_not_gt (a b : JS.number) : JS.le a b = true → JS.lt b a = false.
Proof.
  unfold JS.le, JS.lt. rewrite FloatAxioms.leb_spec, FloatAxioms.ltb_spec.
  unfold SFleb, SFltb.
  destruct (Prim2SF a) as [sa|sa| |sa ma ea], (Prim2SF b) as [sb|sb| |sb mb eb];
    try destruct sa; try destruct sb; cbn; try discriminate; try reflexivity.
  - rewrite (Z.compare_antisym ea eb).
    change (Pos.compare_cont Eq mb ma) with (Pos.compare mb ma).
    change (Pos.compare_cont Eq ma mb) with (Pos.compare ma mb).
    rewrite (Pos.compare_antisym ma mb).
    destruct (ea ?= eb)%Z, (ma ?= mb)%positive; cbn;
      (discriminate || reflexivity).
  - rewrite (Z.compare_antisym ea eb).
    change (Pos.compare_cont Eq mb ma) with (Pos.compare mb ma).
    change (Pos.compare_cont Eq ma mb) with (Pos.compare ma mb).
    rewrite (Pos.compare_antisym ma mb).
    destruct (ea ?= eb)%Z, (ma ?= mb)%positive; cbn;
      (discriminate || reflexivity).
Qed.

(** Clamping a level gives the level. *)
Lemma clamp01_level (a : JS.number) : in_unit_range a = true → clamp01 a = a.
Proof.
  unfold in_unit_range, clamp01. intros [H0 H1]%andb_true_iff.
  rewrite (le_not_gt _ _ H0), (le_not_gt _ _ H1). reflexivity.
Qed.

Lemma lastVolume_showPlayPause a b c w :
  lastVolume (showPlayPause a b c w) = lastVolume w.
Proof.
  unfold showPlayPause. destruct a, b, c; try reflexivity.
  destruct (isPlaying (player w)); reflexivity.
Qed.

Lemma lastVolume_showVolumeIcon w : lastVolume (showVolumeIcon w) = lastVolume w.
Proof.
  unfold showVolumeIcon.
  destruct (JS.strict_eq _ _); [reflexivity|].
  destruct (JS.lt _ _); reflexivity.
Qed.

Lemma lastVolume_showMediaIcon path w :
  lastVolume (showMediaIcon path w) = lastVolume w.
Proof.
  unfold showMediaIcon.
  destruct (JS.includes audioExtensions _); [reflexivity|].
  destruct (JS.includes videoExtensions _); [|reflexivity].
  cbn. destruct (alter _ _ _ !! "video-canvas"); reflexivity.
Qed.

Lemma lastVolume_bindSurface w : lastVolume (bindSurface w) = lastVolume w.
Proof.
  unfold bindSurface.
  destruct (_ || _); [|reflexivity]. case_lookups; reflexivity.
Qed.

Lemma lastVolume_renderVideoFrame frameData w :
  lastVolume (fst (renderVideoFrame frameData w)) = lastVolume w.
Proof.
  unfold renderVideoFrame.
  destruct (videoCanvas (bindSurface w)) as [c|],
    (videoContext (bindSurface w)) as [ctx|];
    cbn [fst]; try apply lastVolume_bindSurface.
  destruct (document (bindSurface w) !! c) as [el|];
    [|apply lastVolume_bindSurface].
  destruct (new_ImageData _ _ _); destruct (_ || _); cbn [fst];
    apply lastVolume_bindSurface.
Qed.

Lemma lastVolume_openFileDialog (env : Env) w :
  lastVolume (run env (openFileDialog w)) = lastVolume w.
Proof.
  cbn [openFileDialog run].
  destruct (env _ DialogOpen) as [[[|c s]|]|err]; cbn [run]; try reflexivity.
  destruct (env _ ToggleMaximize) as [[]|err]; cbn [run].
  - rewrite lastVolume_showMediaIcon.
    destruct (env _ (Invoke_load_file _)); case_lookups; reflexivity.
  - case_lookups; reflexivity.
Qed.

(** Only the volume button assigns the remembered volume. *)
Lemma lastVolume_perform (w : World) (op : Op) :
  match op with OpMute _ => False | _ => True end →
  lastVolume (perform w op) = lastVolume w.
Proof.
  destruct op as [|r|v r|r|e r|picked window loaded|frameData];
    try contradiction; intros _; cbn [perform].
  - unfold tick. destruct (isPlaying (player w) && JS.lt _ _); reflexivity.
  - cbn [togglePlayPause run env_of]. destruct r as [b|err]; cbn [run].
    + destruct (getRef "play-pause-btn" w), (getRef "play-icon" w),
        (getRef "pause-icon" w); cbn [showPlayPause]; try reflexivity.
      destruct b; reflexivity.
    + unfold updatePlayPauseUI. rewrite lastVolume_showPlayPause. reflexivity.
  - cbn [volumeSlider_input run env_of]. rewrite lastVolume_showVolumeIcon.
    destruct r; reflexivity.
  - cbn [progressBar_click run env_of]. destruct r; reflexivity.
  - apply lastVolume_openFileDialog.
  - apply lastVolume_renderVideoFrame.
Qed.

(** The volume after an operation that is not a volume operation. *)
Lemma volume_perform (w : World) (op : Op) :
  match op with OpSetVolume _ _ | OpMute _ => False | _ => True end →
  volume (player (perform w op)) = volume (player w).
Proof.
  destruct op as [|r|v r|r|e r|picked window loaded|frameData];
    try contradiction; intros _; cbn [perform].
  - unfold tick. destruct (isPlaying (player w) && JS.lt _ _); reflexivity.
  - apply (settles_with_run _ _ _ _
      (env_of (Rejected "unused") (Rejected "unused") (Rejected "unused")
         r nobody nobody) (togglePlayPause_settles w)).
  - apply (settles_with_run _ _ _ _
      (env_of (Rejected "unused") (Rejected "unused") (Rejected "unused")
         (Rejected "unused") r nobody) (progressBar_click_settles e w)).
  - rewrite openFileDialog_player. reflexivity.
  - rewrite player_renderVideoFrame. reflexivity.
Qed.

(** One operation within the contract keeps the levels in range. *)
Lemma volume_ok_perform (w : World) (op : Op) :
  in_contract op → volume_ok w = true → volume_ok (perform w op) = true.
Proof.
  intros Hop Hw.
  assert (Hother : match op with OpSetVolume _ _ | OpMute _ => False
                              | _ => True end →
                   volume_ok (perform w op) = true).
  { intros Hno. unfold volume_ok.
    rewrite (volume_perform w op Hno), lastVolume_perform; [exact Hw|].
    destruct op; (contradiction || exact I). }
  apply andb_true_iff in Hw as [Hv Hl].
  destruct op as [|r|v r|r|e r|picked window loaded|frameData];
    try (apply Hother; exact I).
  - destruct Hop as [Hrange Hr]. unfold volume_ok.
    rewrite lastVolume_perform by exact I. cbn [perform].
    pose proof (settles_with_run _ _ _ _
      (env_of (Rejected "unused") (Rejected "unused") (Rejected "unused")
         (Rejected "unused") nobody r) (volumeSlider_input_settles v w))
      as (-> & _).
    cbn [env_of]. apply andb_true_iff. split; [|exact Hl].
    destruct r as [a|err]; [exact Hr | apply slider_levels_in_range, Hrange].
  - cbn [in_contract] in Hop. cbn [perform]. unfold volumeBtn_click, volume_ok.
    destruct (JS.gt (volume (player w)) 0%float); cbn [run env_of];
      rewrite lastVolume_showVolumeIcon, player_showVolumeIcon;
      destruct r as [a|err]; cbn in Hop |- *; rewrite ?Hop, ?Hv; cbn;
      try reflexivity; try exact Hl.
    all: destruct (lastVolume w) as [l|]; [|reflexivity];
      destruct (JS.truthy l); rewrite ?Hl; reflexivity.
Qed.

End Levels.

Lemma shown_showVolumeIcon (id : string) (w : World) :
  id ∈ volume_icons →
  shown id (showVolumeIcon w)
  = (λ _, block_iff (volume_icon (volume (player w))) id) <$> document w !! id.
Proof.
  intros Hid. unfold shown, showVolumeIcon, volume_icon, block_iff.
  unfold volume_icons in Hid.
  repeat (apply elem_of_cons in Hid as [->|Hid]);
    [| | |apply elem_of_nil in Hid; destruct Hid];
    destruct (JS.strict_eq _ _); try destruct (JS.lt _ _);
    cbn [document update with_document]; lookup_alters;
    case_document w; reflexivity.
Qed.

Lemma volumeSlider_input_icons (v : Z) (w : World) :
  settles_with (volumeSlider_input v w) w
    (Invoke_set_volume (JS.of_Z v / 100)%float)
    (λ r w' w'',
       volume (player w'') =
         match r with
         | Resolved actualVolume => actualVolume
         | Rejected _ => (JS.of_Z v / 100)%float
         end ∧
       ∀ id, id ∈ volume_icons →
             shown id w''
             = (λ _, block_iff (volume_icon (volume (player w''))) id)
                 <$> document w' !! id).
Proof.
  eexists. split; [reflexivity|].
  intros [a|err] w'; eexists; (split; [reflexivity|]);
    (split; [autorewrite with frame; reflexivity|]);
    intros id Hid; rewrite (shown_showVolumeIcon id _ Hid);
    autorewrite with frame; reflexivity.
Qed.

(** C2.  For a slider value [v] in [0, 100] the handler asks the engine
    for [v / 100].  The stored volume is then the engine's answer, or
    [v / 100] when the call fails, and the icon shown is the one of the
    stored volume.  When the engine answers with a level, as its interface
    says it does, the stored volume is also the answer clamped into
    [0.0, 1.0], and with a level or a failure it is within [0.0, 1.0].  The
    range is an invariant: it holds at start-up, for the volume and for the
    volume that the mute button remembers, and every operation keeps it,
    as long as the slider stays within 0..100 and the engine answers
    [set_volume] with levels. *)
Theorem volumeSlider_input_level_in_range (v : Z) (w : World) :
  0 ≤ v ≤ 100 →
  settles_with (volumeSlider_input v w) w
    (Invoke_set_volume (JS.of_Z v / 100)%float)
    (λ r w' w'',
       volume (player w'') =
         match r with
         | Resolved actualVolume => actualVolume
         | Rejected _ => (JS.of_Z v / 100)%float
         end ∧
       (∀ id, id ∈ volume_icons →
              shown id w''
              = (λ _, block_iff (volume_icon (volume (player w''))) id)
                  <$> document w' !! id) ∧
       (level_reply r = true →
        volume (player w'') =
          match r with
          | Resolved actualVolume => clamp01 actualVolume
          | Rejected _ => (JS.of_Z v / 100)%float
          end ∧
        in_unit_range (volume (player w'')) = true)) ∧
  (∀ doc : gmap string Element, volume_ok (initial doc) = true) ∧
  (∀ (ops : list Op) (w0 : World),
      Forall in_contract ops → volume_ok w0 = true →
      volume_ok (foldl perform w0 ops) = true).
Proof.
  intros Hv. split; [|split].
  - destruct (volumeSlider_input_icons v w) as (k & Hk & Hpost).
    exists k. split; [exact Hk|].
    intros r w'. destruct (Hpost r w') as (w'' & Hdone & Hvol & Hicons).
    exists w''. split; [exact Hdone|]. split; [exact Hvol|].
    split; [exact Hicons|]. intros Hr.
    rewrite Hvol. destruct r as [a|err]; cbn [level_reply] in Hr.
    + rewrite (clamp01_level a Hr). auto.
    + split; [reflexivity | apply slider_levels_in_range, Hv].
  - intros doc. reflexivity.
  - intros ops. induction ops as [|op ops IH]; intros w0 Hops Hw0;
      [exact Hw0|].
    apply Forall_cons in Hops as [Hop Hops]. cbn [foldl].
    apply IH; [exact Hops|]. apply volume_ok_perform; assumption.
Qed.

(** The slider at 50 on the start-up page; then a session in which the
    volume is muted, restored and set, the engine answering twice. *)
Lemma volumeSlider_input_level_in_range_witness :
  volume_ok
    (foldl perform (initial ∅)
       [OpMute (Resolved 0%float); OpTick; OpMute (Rejected "down");
        OpSetVolume 30 (Resolved 0.3%float); OpSetVolume 100 (Rejected "down")])
  = true.
Proof.
  assert (Hv : 0 ≤ 50 ≤ 100) by lia.
  destruct (volumeSlider_input_level_in_range 50 (initial ∅) Hv)
    as (_ & Hinit & Hinv).
  apply Hinv; [|apply Hinit].
  repeat (apply Forall_cons; split; [cbn; auto; try (split; [lia|reflexivity])|]).
  apply Forall_nil_2.
Defined.

(** ** Seeking *)



(** ** The position bound *)

(** A property of the whole seconds 0, 1, ..., 180 is checked case by
    case. *)
Lemma whole_second_cases (P : Z → Prop) :
  Forall P (Z.of_nat <$> seq 0 181) → ∀ n : Z, 0 ≤ n ≤ 180 → P n.
Proof.
  intros Hall n Hn. rewrite Forall_forall in Hall. apply Hall.
  apply list_elem_of_fmap. exists (Z.to_nat n). split; [lia|].
  apply elem_of_seq. lia.
Qed.

(** On whole seconds of a track of 180 seconds the clock steps to the next
    whole second and stops at 180. *)
Lemma tick_whole_second (n : Z) :
  0 ≤ n ≤ 180 →
  (if JS.lt (JS.of_Z n) 180%float then (JS.of_Z n + 1)%float else JS.of_Z n)
    = JS.of_Z (Z.min (n + 1) 180)
  ∧ JS.le (JS.of_Z n) 180%float = true.
Proof.
  revert n. apply whole_second_cases.
  vm_compute fmap.
  repeat (apply Forall_cons; split; [split; reflexivity|]).
  apply Forall_nil_2.
Qed.

Lemma whole_seconds_position_ok (p : PlaybackState) :
  whole_seconds p → position_ok p = true.
Proof.
  intros (Hd & n & Hn & Hc). unfold position_ok. rewrite Hd, Hc.
  destruct (tick_whole_second n Hn) as [_ ->]. reflexivity.
Qed.

Lemma whole_seconds_tick (w : World) :
  whole_seconds (player w) → whole_seconds (player (tick w)).
Proof.
  intros (Hd & n & Hn & Hc). unfold tick. rewrite Hd, Hc.
  destruct (isPlaying (player w)); cbn [andb];
    [|split; [exact Hd | exists n; split; [exact Hn | exact Hc]]].
  destruct (tick_whole_second n Hn) as [Hstep _].
  destruct (JS.lt (JS.of_Z n) 180%float).
  - autorewrite with frame. split; [exact Hd|].
    exists (Z.min (n + 1) 180). split; [lia|]. cbn. exact Hstep.
  - split; [exact Hd | exists n; split; [exact Hn | exact Hc]].
Qed.

Lemma whole_seconds_perform (w : World) (op : Op) :
  on_whole_seconds op →
  whole_seconds (player w) → whole_seconds (player (perform w op)).
Proof.
  intros Hop Hw.
  assert (Hkept : match op with OpTick | OpSeek _ _ => False | _ => True end →
                  whole_seconds (player (perform w op))).
  { intros Hother. destruct (perform_keeps_position w op Hother) as [Hc Hd].
    unfold whole_seconds. rewrite Hc, Hd. exact Hw. }
  destruct op as [|r|v r|r|e r|picked window loaded|frameData];
    try (apply Hkept; exact I).
  - apply whole_seconds_tick, Hw.
  - destruct (perform_seek w e r) as [Hc Hd].
    destruct r as [a|err]; [|contradiction].
    destruct Hop as (n & Hn & ->). destruct Hw as (Hdur & _).
    split; [rewrite Hd; exact Hdur|].
    exists n. split; [exact Hn | exact Hc].
Qed.

Lemma whole_seconds_foldl (ops : list Op) (w : World) :
  Forall on_whole_seconds ops →
  whole_seconds (player w) → whole_seconds (player (foldl perform w ops)).
Proof.
  intros Hops. revert w.
  induction Hops as [|op ops Hop _ IH]; intros w Hw; [exact Hw|].
  cbn [foldl]. apply IH, whole_seconds_perform; assumption.
Qed.

(** C6, as the code has it.  [togglePlayPause] and the two volume handlers
    leave the position and the duration alone, so they preserve the bound
    for every engine reply.  A seek stores the value it adopts (the engine's
    answer, or the requested time when the call fails) without comparing it
    with the duration, so the bound holds afterwards exactly when that value
    is within the duration.  A tick that advances stores the position plus
    one, so the bound holds afterwards exactly when the position plus one is
    within the duration.  From the state after [initPlayerControls], every
    sequence of operations in which each seek is answered with a whole
    second of the track keeps the bound. *)
Theorem position_bound_preserved :
  (∀ (w : World) (op : Op),
      match op with OpTick | OpSeek _ _ => False | _ => True end →
      position_ok (player (perform w op)) = position_ok (player w)) ∧
  (∀ (w : World) (e : ProgressClick) (r : Reply JS.number),
      position_ok (player (perform w (OpSeek e r))) =
        implb (JS.gt (duration (player w)) 0%float)
          (JS.le (match r with
                  | Resolved seekedTime => seekedTime
                  | Rejected _ => clickTime e w
                  end)
                 (duration (player w)))) ∧
  (∀ w : World,
      position_ok (player (perform w OpTick)) =
        if isPlaying (player w)
           && JS.lt (currentTime (player w)) (duration (player w))
        then implb (JS.gt (duration (player w)) 0%float)
               (JS.le (currentTime (player w) + 1)%float (duration (player w)))
        else position_ok (player w)) ∧
  (∀ (doc : gmap string Element) (ops : list Op),
      Forall on_whole_seconds ops →
      position_ok (player (foldl perform (initPlayerControls (initial doc)) ops))
        = true).
Proof.
  split; [|split; [|split]].
  - intros w op Hop. destruct (perform_keeps_position w op Hop) as [Hc Hd].
    unfold position_ok. rewrite Hc, Hd. reflexivity.
  - intros w e r. destruct (perform_seek w e r) as [Hc Hd].
    unfold position_ok. rewrite Hc, Hd. reflexivity.
  - intros w. cbn [perform]. unfold tick.
    destruct (isPlaying (player w) && JS.lt _ _); reflexivity.
  - intros doc ops Hops. apply whole_seconds_position_ok.
    apply whole_seconds_foldl; [exact Hops|].
    split; [reflexivity|]. exists 0. split; [lia | reflexivity].
Qed.

(** The last part on a session that plays, ticks twice, is sought to
    second 179 and ticks twice more. *)
Lemma position_bound_preserved_witness :
  position_ok
    (player (foldl perform (initPlayerControls (initial ∅))
               [OpTogglePlayPause (Resolved true); OpTick; OpTick;
                OpSeek click_middle (Resolved (JS.of_Z 179));
                OpTick; OpTick])) = true.
Proof.
  destruct position_bound_preserved as (_ & _ & _ & Hseq).
  apply Hseq.
  repeat (apply Forall_cons; split; [try exact I|]); [|apply Forall_nil_2].
  exists 179. split; [lia | reflexivity].
Defined.

(** C6 does not hold as stated.  While playing at position 179.5 of 180
    the bound holds, and one tick later the position is 180.5.  At
    position 0 of 180 the bound holds, and after a seek that the engine
    answers with 200 the position is 200. *)
Lemma position_bound_counterexample :
  let w := playing_at 179.5%float 180%float (initial ∅) in
  let w' := initPlayerControls (initial ∅) in
  position_ok (player w) = true ∧
  currentTime (player (perform w OpTick)) = 180.5%float ∧
  position_ok (player (perform w OpTick)) = false ∧
  position_ok (player w') = true ∧
  currentTime (player (perform w' (OpSeek click_middle (Resolved 200%float))))
    = 200%float ∧
  position_ok (player (perform w' (OpSeek click_middle (Resolved 200%float))))
    = false.
Proof. vm_compute. repeat split; reflexivity. Qed.

(** ** Frame presentation *)

Section Surface.

Implicit Types (w : World) (f g : VideoFrameData.t).

(** Binding looks at the two module variables and the document only. *)
Lemma bindSurface_document w : document (bindSurface w) = document w.
Proof.
  unfold bindSurface. destruct (_ || _); [|reflexivity].
  case_lookups; reflexivity.
Qed.

Lemma bindSurface_canvasCalls w : canvasCalls (bindSurface w) = canvasCalls w.
Proof.
  unfold bindSurface. destruct (_ || _); [|reflexivity].
  case_lookups; reflexivity.
Qed.

Lemma bindSurface_console w : console (bindSurface w) = console w.
Proof.
  unfold bindSurface. destruct (_ || _); [|reflexivity].
  case_lookups; reflexivity.
Qed.

(** A surface that is bound stays as it is. *)
Lemma bindSurface_bound w c ctx :
  videoCanvas w = Some c → videoContext w = Some ctx → bindSurface w = w.
Proof. intros Hc Hx. unfold bindSurface. rewrite Hc, Hx. reflexivity. Qed.

(** Binding again changes nothing. *)
Lemma bindSurface_idemp w : bindSurface (bindSurface w) = bindSurface w.
Proof.
  unfold bindSurface, getElementById.
  destruct (videoCanvas w) as [c|] eqn:Hc,
    (videoContext w) as [x|] eqn:Hx; cbn [bool_decide orb]; cbn;
    rewrite ?Hc, ?Hx; cbn; try reflexivity;
    destruct (document w !! "video-canvas") as [el|] eqn:Hel; cbn;
    rewrite ?Hel; cbn; try reflexivity;
    destruct (context2d el); cbn; rewrite ?Hel; reflexivity.
Qed.

(** Binding depends on the variables and the document alone. *)
Lemma bindSurface_agree w w' :
  videoCanvas w' = videoCanvas w → videoContext w' = videoContext w →
  document w' = document w →
  videoCanvas (bindSurface w') = videoCanvas (bindSurface w) ∧
  videoContext (bindSurface w') = videoContext (bindSurface w).
Proof.
  intros Hc Hx Hd. unfold bindSurface, getElementById.
  rewrite Hc, Hx, Hd.
  destruct (_ || _); [|split; assumption].
  destruct (document w !! "video-canvas"); split; cbn; congruence.
Qed.

End Surface.

Section Present.

Implicit Types (w : World) (f g : VideoFrameData.t).

(** The three ways a call can go: no surface, a bound id without an
    element (which no run of the code produces), and a bound surface. *)
Lemma renderVideoFrame_unresolved f w :
  unresolved w = true →
  renderVideoFrame f w
    = (console_error "视频画布未找到" (bindSurface w), Returned).
Proof.
  unfold unresolved, renderVideoFrame.
  destruct (videoCanvas (bindSurface w)), (videoContext (bindSurface w));
    (discriminate || reflexivity).
Qed.

Lemma renderVideoFrame_dangling f w :
  unresolved w = false → surface (bindSurface w) = None →
  renderVideoFrame f w = (bindSurface w, Returned).
Proof.
  unfold unresolved, surface, renderVideoFrame.
  destruct (videoCanvas (bindSurface w)) as [c|],
    (videoContext (bindSurface w)); try discriminate.
  intros _. destruct (document (bindSurface w) !! c); [discriminate|].
  reflexivity.
Qed.

Lemma renderVideoFrame_resolved f w c el :
  surface (bindSurface w) = Some (c, el) →
  ∃ ctx,
    videoCanvas (bindSurface w) = Some c ∧
    videoContext (bindSurface w) = Some ctx ∧
    document w !! c = Some el ∧
    renderVideoFrame f w =
      let w1 :=
        if negb (width el =? VideoFrameData.width f)%N
           || negb (height el =? VideoFrameData.height f)%N
        then canvas_set_height c (VideoFrameData.height f)
               (canvas_set_width c (VideoFrameData.width f) (bindSurface w))
        else bindSurface w in
      match new_ImageData (Uint8ClampedArray (VideoFrameData.data f))
              (VideoFrameData.width f) (VideoFrameData.height f) with
      | inl exn => (w1, Thrown exn)
      | inr imageData => (putImageData ctx imageData w1, Returned)
      end.
Proof.
  unfold surface, renderVideoFrame.
  destruct (videoCanvas (bindSurface w)) as [c'|],
    (videoContext (bindSurface w)) as [ctx|]; try discriminate.
  destruct (document (bindSurface w) !! c') as [el'|] eqn:Hel;
    [|discriminate].
  intros [= -> ->]. exists ctx.
  rewrite bindSurface_document in Hel. repeat split; assumption.
Qed.

(** The cases are exhaustive. *)
Lemma surface_cases w :
  unresolved w = true ∧ surface (bindSurface w) = None
  ∨ unresolved w = false ∧ surface (bindSurface w) = None
  ∨ unresolved w = false ∧ ∃ c el, surface (bindSurface w) = Some (c, el).
Proof.
  unfold unresolved, surface.
  destruct (videoCanvas (bindSurface w)) as [c|],
    (videoContext (bindSurface w)); auto.
  destruct (document (bindSurface w) !! c) as [el|]; cbn; eauto 6.
Qed.

End Present.

Section Resizes.

Implicit Types (w : World) (f g : VideoFrameData.t).

Lemma resizes_console_error msg w : resizes (console_error msg w) = resizes w.
Proof. reflexivity. Qed.

Lemma resizes_bindSurface w : resizes (bindSurface w) = resizes w.
Proof. unfold resizes. rewrite bindSurface_canvasCalls. reflexivity. Qed.

Lemma resizes_putImageData id img w :
  resizes (putImageData id img w) = resizes w.
Proof.
  unfold resizes. cbn [putImageData canvasCalls with_canvasCalls].
  rewrite List.filter_app. cbn. apply app_nil_r.
Qed.

Lemma resizes_set_size c a b w :
  resizes (canvas_set_height c b (canvas_set_width c a w))
    = resizes w ++ [SetWidth c a; SetHeight c b].
Proof.
  unfold resizes.
  cbn [canvas_set_height canvas_set_width canvasCalls with_canvasCalls update
       with_document].
  rewrite !List.filter_app. cbn. rewrite <- app_assoc. reflexivity.
Qed.

(** What one call adds to the assignments of dimensions. *)
Lemma resizes_present f w :
  resizes (present w f) =
    resizes w ++
    match surface (bindSurface w) with
    | Some (c, _) =>
        if dimensions_differ f w
        then [SetWidth c (VideoFrameData.width f);
              SetHeight c (VideoFrameData.height f)]
        else []
    | None => []
    end.
Proof.
  unfold present, dimensions_differ.
  destruct (surface_cases w) as [[Hu Hs]|[[Hu Hs]|[Hu (c & el & Hs)]]].
  - rewrite (renderVideoFrame_unresolved f w Hu), Hs. cbn [fst].
    rewrite resizes_console_error, resizes_bindSurface, app_nil_r.
    reflexivity.
  - rewrite (renderVideoFrame_dangling f w Hu Hs), Hs. cbn [fst].
    rewrite resizes_bindSurface, app_nil_r. reflexivity.
  - destruct (renderVideoFrame_resolved f w c el Hs)
      as (ctx & _ & _ & _ & ->).
    rewrite Hs. cbn zeta.
    destruct (new_ImageData _ _ _); destruct (_ || _); cbn [fst];
      rewrite ?resizes_putImageData, ?resizes_set_size, resizes_bindSurface,
        ?app_nil_r; reflexivity.
Qed.

(** Updating an element in a way that keeps its dimensions keeps the
    dimensions found under every id. *)
Lemma dimensions_alter (h : Element → Element) i (m : gmap string Element) j :
  (∀ e, dimensions (h e) = dimensions e) →
  dimensions <$> alter h i m !! j = dimensions <$> m !! j.
Proof.
  intros Hh. destruct (decide (i = j)) as [->|Hne].
  - rewrite lookup_alter_eq. destruct (m !! j); cbn; [|reflexivity].
    rewrite Hh. reflexivity.
  - rewrite lookup_alter_ne by done. reflexivity.
Qed.

Lemma dimensions_putImageData id img w j :
  dimensions <$> document (putImageData id img w) !! j
    = dimensions <$> document w !! j.
Proof. apply dimensions_alter. reflexivity. Qed.

Lemma dimensions_set_size c a b w j :
  dimensions <$> document (canvas_set_height c b (canvas_set_width c a w)) !! j
    = if decide (c = j)
      then (λ _, (reflected 300 a, reflected 150 b)) <$> document w !! j
      else dimensions <$> document w !! j.
Proof.
  cbn [canvas_set_height canvas_set_width document with_canvasCalls update
       with_document].
  destruct (decide (c = j)) as [->|Hne].
  - rewrite !lookup_alter_eq. destruct (document w !! j); reflexivity.
  - rewrite !lookup_alter_ne by done. reflexivity.
Qed.

(** A dimension that fits a canvas is stored as it is. *)
Lemma reflected_fits (default v : N) :
  (v ≤ 2147483647)%N → reflected default v = v.
Proof.
  intros Hv. unfold reflected, unsigned_long.
  rewrite N.mod_small by lia.
  destruct (N.leb_spec v 2147483647); [reflexivity | lia].
Qed.

Lemma fits_canvas_reflected f :
  fits_canvas f = true →
  reflected 300 (VideoFrameData.width f) = VideoFrameData.width f ∧
  reflected 150 (VideoFrameData.height f) = VideoFrameData.height f.
Proof.
  intros [Hw Hh]%andb_true_iff. apply N.leb_le in Hw, Hh.
  split; apply reflected_fits; assumption.
Qed.

Lemma fits_canvas_same f g :
  same_dimensions f g → fits_canvas f = fits_canvas g.
Proof. intros [Hw Hh]. unfold fits_canvas. rewrite Hw, Hh. reflexivity. Qed.

End Resizes.

Section Stable.

Implicit Types (w : World) (f g : VideoFrameData.t).

Lemma unresolved_surface w :
  unresolved w = true → surface (bindSurface w) = None.
Proof.
  unfold unresolved, surface.
  destruct (videoCanvas (bindSurface w)), (videoContext (bindSurface w));
    (discriminate || reflexivity).
Qed.

(** A call without a surface leaves the next call without a surface. *)
Lemma unresolved_present f w :
  unresolved w = true → unresolved (present w f) = true.
Proof.
  intros Hu. unfold present.
  rewrite (renderVideoFrame_unresolved f w Hu). cbn [fst].
  unfold unresolved in *.
  destruct (bindSurface_agree (bindSurface w)
              (console_error "视频画布未找到" (bindSurface w)))
    as [-> ->]; try reflexivity.
  rewrite bindSurface_idemp. exact Hu.
Qed.

Lemma surface_bound w c ctx :
  videoCanvas w = Some c → videoContext w = Some ctx →
  surface (bindSurface w) = (λ el, (c, el)) <$> document w !! c.
Proof.
  intros Hc Hx. rewrite (bindSurface_bound w c ctx Hc Hx).
  unfold surface. rewrite Hc, Hx. destruct (document w !! c); reflexivity.
Qed.

Lemma dimensions_differ_false el f :
  negb (width el =? VideoFrameData.width f)%N
  || negb (height el =? VideoFrameData.height f)%N = false →
  dimensions el = (VideoFrameData.width f, VideoFrameData.height f).
Proof.
  intros [Hw Hh]%orb_false_elim.
  apply negb_false_iff, N.eqb_eq in Hw, Hh.
  unfold dimensions. rewrite Hw, Hh. reflexivity.
Qed.

(** After a call on a bound surface the surface is still bound, to the
    same canvas, whether or not the call has raised.  Its dimensions are
    those of the frame when they were so before, and otherwise what the
    two assignments leave. *)
Lemma present_resolved_any f w c el :
  surface (bindSurface w) = Some (c, el) →
  ∃ el',
    surface (bindSurface (present w f)) = Some (c, el') ∧
    dimensions el' =
      if dimensions_differ f w
      then (reflected 300 (VideoFrameData.width f),
            reflected 150 (VideoFrameData.height f))
      else (VideoFrameData.width f, VideoFrameData.height f).
Proof.
  intros Hs.
  destruct (renderVideoFrame_resolved f w c el Hs)
    as (ctx & Hc & Hx & Hel & Heq).
  rewrite <- bindSurface_document in Hel.
  unfold dimensions_differ. rewrite Hs.
  assert (Hafter : videoCanvas (present w f) = Some c ∧
                   videoContext (present w f) = Some ctx ∧
                   dimensions <$> document (present w f) !! c
                     = Some (if negb (width el =? VideoFrameData.width f)%N
                                || negb (height el =? VideoFrameData.height f)%N
                             then (reflected 300 (VideoFrameData.width f),
                                   reflected 150 (VideoFrameData.height f))
                             else (VideoFrameData.width f,
                                   VideoFrameData.height f))).
  { unfold present. rewrite Heq. cbn zeta.
    destruct (new_ImageData _ _ _);
      destruct (negb (width el =? _)%N || _) eqn:Hdiff; cbn [fst];
      (split; [exact Hc|]); (split; [exact Hx|]);
      rewrite ?dimensions_putImageData, ?dimensions_set_size,
        ?decide_True by reflexivity;
      rewrite Hel; cbn [fmap option_fmap option_map];
      rewrite ?(dimensions_differ_false el f Hdiff); reflexivity. }
  destruct Hafter as (Hc' & Hx' & Hdim).
  rewrite (surface_bound _ c ctx Hc' Hx').
  destruct (document (present w f) !! c) as [el'|]; [|discriminate].
  exists el'. split; [reflexivity|]. cbn in Hdim. congruence.
Qed.

(** With dimensions that fit a canvas, they are those of the frame. *)
Lemma present_resolved f w c el :
  fits_canvas f = true →
  surface (bindSurface w) = Some (c, el) →
  ∃ el',
    surface (bindSurface (present w f)) = Some (c, el') ∧
    dimensions el' = (VideoFrameData.width f, VideoFrameData.height f).
Proof.
  intros Hfits Hs.
  destruct (present_resolved_any f w c el Hs) as (el' & Hs' & Hdim).
  exists el'. split; [exact Hs'|]. rewrite Hdim.
  destruct (fits_canvas_reflected f Hfits) as [-> ->].
  destruct (dimensions_differ f w); reflexivity.
Qed.

(** After a call, a frame of the same dimensions finds nothing to
    resize. *)
Lemma dimensions_settled f g w :
  fits_canvas f = true →
  same_dimensions f g → dimensions_differ g (present w f) = false.
Proof.
  intros Hfits [Hw Hh]. unfold dimensions_differ.
  destruct (surface_cases w) as [[Hu Hs]|[[Hu Hs]|[Hu (c & el & Hs)]]].
  - rewrite (unresolved_surface _ (unresolved_present f w Hu)). reflexivity.
  - unfold present. rewrite (renderVideoFrame_dangling f w Hu Hs).
    cbn [fst]. rewrite bindSurface_idemp, Hs. reflexivity.
  - destruct (present_resolved f w c el Hfits Hs) as (el' & -> & Hdim).
    injection Hdim as Hw' Hh'.
    rewrite Hw', Hh', Hw, Hh, !N.eqb_refl. reflexivity.
Qed.

Lemma dimensions_differ_same f g w :
  same_dimensions f g → dimensions_differ f w = dimensions_differ g w.
Proof.
  intros [Hw Hh]. unfold dimensions_differ. rewrite Hw, Hh. reflexivity.
Qed.

(** Once nothing is to be resized, frames of the same dimensions never
    assign the dimensions. *)
Lemma resizes_present_all_settled f frames :
  fits_canvas f = true →
  Forall (same_dimensions f) frames →
  ∀ w, dimensions_differ f w = false →
       resizes (present_all frames w) = resizes w.
Proof.
  intros Hfits.
  induction 1 as [|g frames Hg _ IH]; intros w Hsettled; [reflexivity|].
  cbn [present_all foldl]. fold (present_all frames (present w g)).
  rewrite IH.
  - rewrite resizes_present.
    rewrite <- (dimensions_differ_same f g w Hg), Hsettled.
    destruct (surface (bindSurface w)) as [[c el]|]; apply app_nil_r.
  - apply dimensions_settled.
    + rewrite <- (fits_canvas_same f g Hg). exact Hfits.
    + destruct Hg. split; congruence.
Qed.

Lemma settled_present_all f frames :
  fits_canvas f = true →
  Forall (same_dimensions f) frames →
  ∀ w, dimensions_differ f w = false →
       dimensions_differ f (present_all frames w) = false.
Proof.
  intros Hfits.
  induction 1 as [|g frames Hg _ IH]; intros w Hsettled; [exact Hsettled|].
  cbn [present_all foldl]. fold (present_all frames (present w g)).
  apply IH, dimensions_settled.
  - rewrite <- (fits_canvas_same f g Hg). exact Hfits.
  - destruct Hg. split; congruence.
Qed.

End Stable.

Section Unresolved.

Implicit Types (w : World) (f g : VideoFrameData.t).

Lemma outside_bindSurface w : outside (bindSurface w) = outside w.
Proof.
  unfold bindSurface. destruct (_ || _); [|reflexivity].
  case_lookups; reflexivity.
Qed.

(** Calls without a surface: each returns, each adds one report, and
    nothing else changes. *)
Lemma present_all_unresolved frames :
  ∀ w, unresolved w = true →
       outcomes frames w = replicate (length frames) Returned ∧
       console (present_all frames w)
         = console w ++ replicate (length frames) canvas_not_found ∧
       outside (present_all frames w) = outside w ∧
       unresolved (present_all frames w) = true.
Proof.
  induction frames as [|f frames IH]; intros w Hu.
  - cbn. rewrite app_nil_r. auto.
  - destruct (IH (present w f) (unresolved_present f w Hu))
      as (Hout & Hcon & Hrest & Hun).
    cbn [outcomes present_all foldl length replicate].
    fold (present_all frames (present w f)).
    rewrite Hout, Hcon, Hrest, Hun.
    unfold present. rewrite (renderVideoFrame_unresolved f w Hu).
    cbn [fst snd]. repeat split.
    + cbn [console console_error with_console].
      rewrite bindSurface_console, <- app_assoc. reflexivity.
    + apply outside_bindSurface.
Qed.

End Unresolved.

Section Pixels.

Local Open Scope N_scope.

(** The constructor accepts the bytes exactly when they are as many as
    the dimensions, read as [unsigned long] values, ask for, and at least
    one pixel. *)
Lemma new_ImageData_accepts (data : list N) (sw sh : N) :
  (∃ img, new_ImageData data sw sh = inr img) ↔
  N.of_nat (length data) = unsigned_long sw * unsigned_long sh * 4 ∧
  0 < unsigned_long sw * unsigned_long sh.
Proof.
  unfold new_ImageData. cbv zeta.
  generalize (unsigned_long sw) (unsigned_long sh). clear sw sh. intros sw sh.
  set (len := N.of_nat (length data)). split.
  - intros [img Himg].
    destruct (len =? 0) eqn:H0; [discriminate|].
    destruct (len mod 4 =? 0) eqn:H4; [|discriminate].
    cbn [negb orb] in Himg.
    destruct (sw =? 0) eqn:Hsw; [discriminate|].
    destruct (len / 4 mod sw =? 0) eqn:Hm; [|discriminate].
    cbn [negb orb] in Himg.
    destruct (len / 4 / sw =? sh) eqn:Hd; [|discriminate].
    apply N.eqb_neq in H0, Hsw. apply N.eqb_eq in H4, Hm, Hd.
    pose proof (N.div_mod len 4 ltac:(lia)) as E1. rewrite H4 in E1.
    pose proof (N.div_mod (len / 4) sw Hsw) as E2. rewrite Hm, Hd in E2.
    split; nia.
  - intros [Hlen Hpos]. rewrite Hlen.
    assert (Hsw : sw ≠ 0) by nia.
    assert (H4 : sw * sh * 4 ≠ 0) by nia.
    apply N.eqb_neq in H4. rewrite H4.
    rewrite N.Div0.mod_mul, N.div_mul by lia.
    apply N.eqb_neq in Hsw. rewrite Hsw.
    apply N.eqb_neq in Hsw.
    rewrite (N.mul_comm sw sh), N.Div0.mod_mul, N.div_mul by assumption.
    rewrite !N.eqb_refl. cbn. eauto.
Qed.

Lemma new_ImageData_rejects (data : list N) (sw sh : N) :
  N.of_nat (length data) ≠ unsigned_long sw * unsigned_long sh * 4 →
  ∃ exn, new_ImageData data sw sh = inl exn.
Proof.
  intros Hne. destruct (new_ImageData data sw sh) as [exn|img] eqn:Hnew;
    [eauto|].
  destruct (proj1 (new_ImageData_accepts data sw sh) (ex_intro _ img Hnew)).
  contradiction.
Qed.

Lemma length_Uint8ClampedArray (arr : list N) :
  length (Uint8ClampedArray arr) = length arr.
Proof. apply length_fmap. Qed.

(** Below 2^32 the conversion changes nothing. *)
Lemma unsigned_long_small (v : N) : v < 4294967296 → unsigned_long v = v.
Proof. intros Hv. unfold unsigned_long. apply N.mod_small, Hv. Qed.

(** A frame whose bytes a JavaScript array holds, as many as its
    dimensions ask for and at least one pixel, has dimensions below 2^30. *)
Lemma well_formed_small (f : VideoFrameData.t) :
  well_formed f = true → js_array (VideoFrameData.data f) = true →
  0 < VideoFrameData.width f * VideoFrameData.height f →
  VideoFrameData.width f < 1073741824 ∧ VideoFrameData.height f < 1073741824.
Proof.
  unfold well_formed, js_array.
  intros Hwf%N.eqb_eq Harr%N.ltb_lt Hpos. rewrite Hwf in Harr.
  set (a := VideoFrameData.width f) in *.
  set (b := VideoFrameData.height f) in *.
  assert (Ha : a ≠ 0) by (intros E; rewrite E, N.mul_0_l in Hpos; lia).
  assert (Hb : b ≠ 0) by (intros E; rewrite E, N.mul_0_r in Hpos; lia).
  assert (Hab : a * 1 ≤ a * b) by (apply N.mul_le_mono_l; lia).
  assert (Hba : 1 * b ≤ a * b) by (apply N.mul_le_mono_r; lia).
  lia.
Qed.

Lemma well_formed_fits (f : VideoFrameData.t) :
  well_formed f = true → js_array (VideoFrameData.data f) = true →
  0 < VideoFrameData.width f * VideoFrameData.height f →
  fits_canvas f = true.
Proof.
  intros Hwf Harr Hpos.
  destruct (well_formed_small f Hwf Harr Hpos) as [Hw Hh].
  unfold fits_canvas. apply andb_true_iff. split; apply N.leb_le; lia.
Qed.

End Pixels.

Section Unchanged.

Implicit Types (w : World) (f g : VideoFrameData.t).

(** A call that finds nothing to resize leaves the dimensions of every
    canvas as they are. *)
Lemma dimensions_present_same f w id :
  dimensions_differ f w = false →
  dimensions <$> document (present w f) !! id = dimensions <$> document w !! id.
Proof.
  unfold dimensions_differ, present.
  destruct (surface_cases w) as [[Hu Hs]|[[Hu Hs]|[Hu (c & el & Hs)]]].
  - intros _. rewrite (renderVideoFrame_unresolved f w Hu). cbn [fst].
    cbn [document console_error with_console].
    rewrite bindSurface_document. reflexivity.
  - intros _. rewrite (renderVideoFrame_dangling f w Hu Hs). cbn [fst].
    rewrite bindSurface_document. reflexivity.
  - rewrite Hs. intros Hsame.
    destruct (renderVideoFrame_resolved f w c el Hs)
      as (ctx & _ & _ & _ & ->).
    cbn zeta. rewrite Hsame.
    destruct (new_ImageData _ _ _); cbn [fst];
      rewrite ?dimensions_putImageData, bindSurface_document; reflexivity.
Qed.

End Unchanged.

(** C8, as the code has it.  While the surface cannot be resolved, a call
    returns without raising, appends one report to the console and, apart
    from the attempt to bind the two surface variables, changes nothing
    else: the playback state, the document, the canvas and the alerts are
    as before.  Every such call reports: [n] calls in a row leave [n]
    reports. *)
Theorem renderVideoFrame_unresolved_reports_every_call
    (frames : list VideoFrameData.t) (w : World) :
  unresolved w = true →
  (∀ f, renderVideoFrame f w
        = (console_error "视频画布未找到" (bindSurface w), Returned)) ∧
  outside (bindSurface w) = outside w ∧
  outcomes frames w = replicate (length frames) Returned ∧
  console (present_all frames w)
    = console w ++ replicate (length frames) canvas_not_found ∧
  outside (present_all frames w) = outside w ∧
  unresolved (present_all frames w) = true.
Proof.
  intros Hu.
  split; [intros f; apply renderVideoFrame_unresolved, Hu|].
  split; [apply outside_bindSurface|].
  apply present_all_unresolved, Hu.
Qed.

Lemma renderVideoFrame_unresolved_reports_every_call_witness :
  console (present_all [red_pixel; red_pixel; red_pixel] (initial ∅))
  = [canvas_not_found; canvas_not_found; canvas_not_found].
Proof.
  destruct (renderVideoFrame_unresolved_reports_every_call
              [red_pixel; red_pixel; red_pixel] (initial ∅))
    as (_ & _ & _ & Hconsole & _).
  - reflexivity.
  - exact Hconsole.
Defined.

(** C8 does not hold as stated: on a page without the canvas two calls
    leave two reports, not one. *)
Lemma renderVideoFrame_report_once_counterexample :
  let w := initial ∅ in
  unresolved w = true ∧
  unresolved (present w red_pixel) = true ∧
  console (present w red_pixel) = [canvas_not_found] ∧
  console (present (present w red_pixel) red_pixel)
    = [canvas_not_found; canvas_not_found].
Proof. vm_compute. repeat split; reflexivity. Qed.

(** On a bound surface a call returns exactly when the bytes are as many
    as the dimensions, read as [unsigned long] values, ask for, and at
    least one pixel; otherwise it raises, after any resize has been done. *)
Lemma renderVideoFrame_returns_iff (f : VideoFrameData.t) (w : World) :
  is_Some (surface (bindSurface w)) →
  (snd (renderVideoFrame f w) = Returned ↔
   (N.of_nat (length (VideoFrameData.data f))
    = unsigned_long (VideoFrameData.width f)
      * unsigned_long (VideoFrameData.height f) * 4 ∧
    0 < unsigned_long (VideoFrameData.width f)
        * unsigned_long (VideoFrameData.height f))%N) ∧
  (snd (renderVideoFrame f w) ≠ Returned →
   ∃ exn, snd (renderVideoFrame f w) = Thrown exn).
Proof.
  intros [[c el] Hs].
  destruct (renderVideoFrame_resolved f w c el Hs) as (ctx & _ & _ & _ & ->).
  cbn zeta.
  pose proof (new_ImageData_accepts
                (Uint8ClampedArray (VideoFrameData.data f))
                (VideoFrameData.width f) (VideoFrameData.height f)) as Hacc.
  rewrite length_Uint8ClampedArray in Hacc.
  destruct (new_ImageData _ _ _) as [exn|img]; cbn [snd].
  - split; [split; [discriminate|]|eauto].
    intros Hc. apply Hacc in Hc as [img Himg]. discriminate.
  - split; [split; [intros _; apply Hacc; eauto | reflexivity]|].
    intros Hne. destruct Hne. reflexivity.
Qed.

(** C10, as the code has it.  On a bound surface a call returns exactly
    when the bytes are as many as the dimensions, read as [unsigned long]
    values, ask for, and at least one pixel; otherwise it raises, after any
    resize has been done.  So for every frame whose width and height are
    below 2^32 the call raises whenever the bytes are not exactly
    width * height * 4 many, a call that returns had a well-formed frame,
    and a well-formed frame of at least one pixel is painted. *)
Theorem renderVideoFrame_raises_unless_well_formed
    (f : VideoFrameData.t) (w : World) :
  is_Some (surface (bindSurface w)) →
  (snd (renderVideoFrame f w) = Returned ↔
   (N.of_nat (length (VideoFrameData.data f))
    = unsigned_long (VideoFrameData.width f)
      * unsigned_long (VideoFrameData.height f) * 4 ∧
    0 < unsigned_long (VideoFrameData.width f)
        * unsigned_long (VideoFrameData.height f))%N) ∧
  (snd (renderVideoFrame f w) ≠ Returned →
   ∃ exn, snd (renderVideoFrame f w) = Thrown exn) ∧
  ((VideoFrameData.width f < 4294967296)%N →
   (VideoFrameData.height f < 4294967296)%N →
   (well_formed f = false → ∃ exn, snd (renderVideoFrame f w) = Thrown exn) ∧
   (snd (renderVideoFrame f w) = Returned → well_formed f = true) ∧
   (well_formed f = true →
    (0 < VideoFrameData.width f * VideoFrameData.height f)%N →
    snd (renderVideoFrame f w) = Returned)).
Proof.
  intros Hs.
  destruct (renderVideoFrame_returns_iff f w Hs) as [Hiff Hthrown].
  split; [exact Hiff|]. split; [exact Hthrown|]. intros Hw Hh.
  rewrite (unsigned_long_small _ Hw), (unsigned_long_small _ Hh) in Hiff.
  unfold well_formed. split; [|split].
  - intros Hne%N.eqb_neq. apply Hthrown.
    intros Hret. apply Hne, (proj1 Hiff), Hret.
  - intros Hret. apply N.eqb_eq, (proj1 Hiff), Hret.
  - intros Hlen%N.eqb_eq Hpos. apply (proj2 Hiff). split; assumption.
Qed.

(** The frame with a byte missing on the canvas of the page. *)
Lemma renderVideoFrame_raises_unless_well_formed_witness :
  ∃ exn,
    snd (renderVideoFrame short_pixel
           (initial {[ "video-canvas" := blank_canvas ]})) = Thrown exn.
Proof.
  assert (Hbound : is_Some (surface (bindSurface
                      (initial {[ "video-canvas" := blank_canvas ]}))))
    by (eexists; reflexivity).
  assert (H1 : (VideoFrameData.width short_pixel < 4294967296)%N)
    by reflexivity.
  assert (H2 : (VideoFrameData.height short_pixel < 4294967296)%N)
    by reflexivity.
  exact (proj1 (proj2 (proj2 (renderVideoFrame_raises_unless_well_formed
                                short_pixel
                                (initial {[ "video-canvas" := blank_canvas ]})
                                Hbound)) H1 H2) eq_refl).
Defined.

(** C10 does not hold as stated: a frame declared 2^32 + 1 pixels wide and
    one pixel high with the four bytes of a single pixel does not have
    width * height * 4 bytes, and the call on the canvas of the page
    returns and paints that pixel: the constructor reads the width as 1. *)
Lemma renderVideoFrame_wrapped_width_counterexample :
  let w := initial {[ "video-canvas" := blank_canvas ]} in
  well_formed wrapped_pixel = false ∧
  is_Some (surface (bindSurface w)) ∧
  snd (renderVideoFrame wrapped_pixel w) = Returned ∧
  painted <$> document (present w wrapped_pixel) !! "video-canvas"
    = Some (Some {| idata := [255; 0; 0; 255]%N; iwidth := 1; iheight := 1 |}).
Proof.
  cbv zeta. split; [reflexivity|]. split; [eexists; reflexivity|].
  split; reflexivity.
Qed.

(** ** Media type routing *)

Section Extension.

Lemma split_nonempty sep s : JS.split sep s ≠ [].
Proof.
  destruct s as [|c r]; cbn; [discriminate|].
  destruct (sep c); [discriminate|].
  destruct (JS.split sep r); discriminate.
Qed.

Lemma split_dot_free e : dot_free e = true → JS.split JS.is_dot e = [e].
Proof.
  induction e as [|c r IH]; cbn; [reflexivity|].
  intros [Hc Hr]%andb_true_iff. apply negb_true_iff in Hc.
  rewrite Hc, (IH Hr). reflexivity.
Qed.

(** The last piece of a path that ends in a dot and a dot-free suffix is
    that suffix. *)
Lemma split_suffix pre e :
  dot_free e = true →
  ∃ h t, JS.split JS.is_dot (pre +:+ String "." e) = h :: t ++ [e].
Proof.
  intros He. induction pre as [|c r (h & t & IH)].
  - exists EmptyString, []. change (EmptyString +:+ String "." e)
      with (String "." e).
    change (JS.split JS.is_dot (String "." e))
      with (EmptyString :: JS.split JS.is_dot e).
    rewrite (split_dot_free e He). reflexivity.
  - change (String c r +:+ String "." e)
      with (String c (r +:+ String "." e)).
    cbn [JS.split]. rewrite IH. destruct (JS.is_dot c).
    + exists EmptyString, (h :: t). reflexivity.
    + exists (String c h), t. reflexivity.
Qed.

Lemma or_else_empty s : JS.or_else s EmptyString = s.
Proof. unfold JS.or_else. case_bool_decide; congruence. Qed.

Lemma extension_suffix pre e :
  dot_free e = true → extension (pre +:+ String "." e) = JS.toLowerCase e.
Proof.
  intros He. destruct (split_suffix pre e He) as (h & t & Hsplit).
  unfold extension, JS.pop. rewrite Hsplit, or_else_empty.
  change (h :: t ++ [e]) with ((h :: t) ++ [e]). rewrite last_snoc.
  reflexivity.
Qed.

(** The extension is the lowercased last piece of the path. *)
Lemma extension_last_piece path :
  ∃ pieces piece,
    JS.split JS.is_dot path = pieces ++ [piece] ∧
    extension path = JS.toLowerCase piece.
Proof.
  destruct (JS.split JS.is_dot path) as [|h t] eqn:Hsplit using rev_ind;
    [destruct (split_nonempty _ _ Hsplit)|].
  exists t, h. split; [reflexivity|].
  unfold extension, JS.pop. rewrite Hsplit, last_snoc, or_else_empty.
  reflexivity.
Qed.

End Extension.

Section Routing.

Lemma document_showMediaIcon_display path w :
  display <$> document (showMediaIcon path w) !! "audio-icon"
    = (λ _, audio_icon_display (classify path)) <$> document w !! "audio-icon"
  ∧ display <$> document (showMediaIcon path w) !! "video-icon"
    = (λ _, video_display (classify path)) <$> document w !! "video-icon"
  ∧ display <$> document (showMediaIcon path w) !! "video-canvas"
    = (λ _, video_display (classify path)) <$> document w !! "video-canvas"
  ∧ display <$> document (showMediaIcon path w) !! "player-controls"
    = (λ _, "flex") <$> document w !! "player-controls".
Proof.
  unfold classify, kind_of, showMediaIcon.
  destruct (JS.includes audioExtensions (extension path));
    [|destruct (JS.includes videoExtensions (extension path))];
    unfold getElementById;
    cbn [document update with_document with_bodyClassList console_log
         with_console canvas_set_width canvas_set_height with_canvasCalls];
    lookup_alters.
  all: try (destruct (document w !! "video-canvas") as [el|] eqn:Hel;
            cbn [fmap option_fmap option_map document update with_document
                 canvas_set_width canvas_set_height with_canvasCalls]).
  all: repeat split;
    cbn [document update with_document with_bodyClassList console_log
         with_console canvas_set_width canvas_set_height with_canvasCalls];
    lookup_alters; rewrite ?Hel;
    try case_document w; reflexivity.
Qed.

End Routing.

Section Kinds.

Lemma extensions_disjoint e :
  e ∈ audioExtensions → e ∉ videoExtensions.
Proof.
  assert (Hall : Forall (λ a, a ∉ videoExtensions) audioExtensions).
  { unfold audioExtensions.
    repeat (apply Forall_cons; split;
            [apply (bool_decide_eq_false_1 (_ ∈ _)); reflexivity|]).
    apply Forall_nil_2. }
  rewrite Forall_forall in Hall. apply Hall.
Qed.

Lemma kind_of_video e :
  kind_of e = if bool_decide (e ∈ videoExtensions) then Video else Audio.
Proof.
  unfold kind_of, JS.includes.
  destruct (bool_decide (e ∈ audioExtensions)) eqn:Ha; [|reflexivity].
  apply bool_decide_eq_true in Ha. apply extensions_disjoint in Ha.
  rewrite bool_decide_eq_false_2 by exact Ha. reflexivity.
Qed.

Lemma is_slash_lower_char c : JS.is_slash (JS.lower_char c) = JS.is_slash c.
Proof. destruct c as [[] [] [] [] [] [] [] []]; reflexivity. Qed.

Lemma is_byte_eq n c : JS.is_byte n c = true → c = ascii_of_N n.
Proof.
  unfold JS.is_byte. intros <-%N.eqb_eq. symmetry. apply ascii_N_embedding.
Qed.

(** One step of [toLowerCase]. *)
Lemma toLowerCase_cons c r :
  JS.toLowerCase (String c r) =
    match r with
    | String c2 r2 =>
        if JS.is_byte 196 c && JS.is_byte 176 c2 then
          String "i" (String "204" (String "135" (JS.toLowerCase r2)))
        else
          match r2 with
          | String c3 r3 =>
              if JS.is_byte 226 c && JS.is_byte 132 c2 && JS.is_byte 170 c3
              then String "k" (JS.toLowerCase r3)
              else String (JS.lower_char c) (JS.toLowerCase r)
          | EmptyString => String (JS.lower_char c) (JS.toLowerCase r)
          end
    | EmptyString => String (JS.lower_char c) (JS.toLowerCase r)
    end.
Proof. destruct r as [|c2 [|c3 r3]]; reflexivity. Qed.

(** Lowering keeps the separators and adds none. *)
Lemma has_separator_toLowerCase s :
  has_separator (JS.toLowerCase s) = has_separator s.
Proof.
  assert (Hlen : ∀ n s, (String.length s ≤ n)%nat →
                        has_separator (JS.toLowerCase s) = has_separator s).
  { clear s. induction n as [|n IH]; intros s Hs.
    - destruct s; [reflexivity | cbn in Hs; lia].
    - destruct s as [|c r]; [reflexivity|]. cbn [String.length] in Hs.
      assert (Hkept :
                has_separator (String (JS.lower_char c) (JS.toLowerCase r))
                = has_separator (String c r)).
      { cbn [has_separator].
        rewrite is_slash_lower_char, (IH r) by lia. reflexivity. }
      rewrite toLowerCase_cons.
      destruct r as [|c2 r2]; [exact Hkept|]. cbn [String.length] in Hs.
      destruct (JS.is_byte 196 c && JS.is_byte 176 c2) eqn:Hi.
      + apply andb_true_iff in Hi as [->%is_byte_eq ->%is_byte_eq].
        cbn [has_separator]. rewrite (IH r2) by lia. reflexivity.
      + destruct r2 as [|c3 r3]; [exact Hkept|]. cbn [String.length] in Hs.
        destruct (JS.is_byte 226 c && JS.is_byte 132 c2 && JS.is_byte 170 c3)
          eqn:Hk; [|exact Hkept].
        apply andb_true_iff in Hk as [Hk ->%is_byte_eq].
        apply andb_true_iff in Hk as [->%is_byte_eq ->%is_byte_eq].
        cbn [has_separator]. rewrite (IH r3) by lia. reflexivity. }
  apply (Hlen (String.length s)). lia.
Qed.

Lemma extension_dot_free path :
  dot_free path = true → extension path = JS.toLowerCase path.
Proof.
  intros Hfree. unfold extension, JS.pop.
  rewrite (split_dot_free path Hfree), or_else_empty. reflexivity.
Qed.

(** No table entry has a separator, so no path with one lowers to an
    entry. *)
Lemma separator_not_video e :
  has_separator e = true → e ∉ videoExtensions.
Proof.
  intros Hsep Hin.
  assert (Hall : Forall (λ v, has_separator v = false) videoExtensions).
  { unfold videoExtensions.
    repeat (apply Forall_cons; split; [reflexivity|]). apply Forall_nil_2. }
  rewrite Forall_forall in Hall. rewrite (Hall e Hin) in Hsep. discriminate.
Qed.

End Kinds.

Section Case.

(** A capital or small spelling of a small letter or digit is an ASCII
    character that lowers to it. *)
Lemma same_letter_lower c d :
  same_letter c d = true → small_char d = true →
  (N_of_ascii c < 128)%N ∧ JS.lower_char c = d ∧ JS.is_dot c = false.
Proof.
  unfold same_letter, small_char, JS.lower_char, JS.is_dot. intros Hsame Hd.
  assert (Hdot : ∀ x, N_of_ascii x ≠ 46%N → bool_decide (x = "."%char) = false).
  { intros x Hx. apply bool_decide_eq_false_2. intros ->. apply Hx.
    reflexivity. }
  apply orb_true_iff in Hsame as [Heq|Hup].
  - apply bool_decide_eq_true in Heq. subst c.
    apply orb_true_iff in Hd as [Hd|Hd];
      apply andb_true_iff in Hd as [Hlo Hhi];
      apply N.leb_le in Hlo, Hhi;
      (split; [lia|]); (split; [|apply Hdot; lia]);
      destruct (N.leb_spec 65 (N_of_ascii d)),
        (N.leb_spec (N_of_ascii d) 90); cbn [andb]; (reflexivity || lia).
  - apply andb_true_iff in Hup as [Hrange Hcode].
    apply andb_true_iff in Hrange as [Hlo Hhi].
    apply N.leb_le in Hlo, Hhi. apply N.eqb_eq in Hcode.
    split; [lia|]. split; [|apply Hdot; lia].
    destruct (N.leb_spec 65 (N_of_ascii c)), (N.leb_spec (N_of_ascii c) 90);
      cbn [andb]; try lia.
    replace (N_of_ascii c + 32)%N with (N_of_ascii d) by lia.
    apply ascii_N_embedding.
Qed.

(** An ASCII character is lowered on its own. *)
Lemma toLowerCase_ascii c r :
  (N_of_ascii c < 128)%N →
  JS.toLowerCase (String c r) = String (JS.lower_char c) (JS.toLowerCase r).
Proof.
  intros Hc. rewrite toLowerCase_cons.
  assert (H196 : JS.is_byte 196 c = false)
    by (unfold JS.is_byte; apply N.eqb_neq; lia).
  assert (H226 : JS.is_byte 226 c = false)
    by (unfold JS.is_byte; apply N.eqb_neq; lia).
  rewrite H196, H226. cbn [andb].
  destruct r as [|c2 [|c3 r3]]; reflexivity.
Qed.

(** Every spelling of a text of small letters and digits lowers to it and
    has no dot. *)
Lemma same_letters_lower e' :
  ∀ e, same_letters e' e = true → small e = true →
       JS.toLowerCase e' = e ∧ dot_free e' = true.
Proof.
  induction e' as [|c r IH]; intros [|d t]; cbn [same_letters small];
    try discriminate; [auto|].
  intros [Hc Hr]%andb_true_iff [Hd Ht]%andb_true_iff.
  destruct (same_letter_lower c d Hc Hd) as (Hascii & Hlow & Hdot).
  destruct (IH t Hr Ht) as [Hlower Hfree].
  rewrite (toLowerCase_ascii c r Hascii), Hlow, Hlower.
  cbn [dot_free]. rewrite Hdot, Hfree. auto.
Qed.

Lemma extensions_small e :
  e ∈ audioExtensions ++ videoExtensions → small e = true.
Proof.
  assert (Hall : Forall (λ x, small x = true)
                   (audioExtensions ++ videoExtensions)).
  { unfold audioExtensions, videoExtensions. cbn [app].
    repeat (apply Forall_cons; split; [reflexivity|]). apply Forall_nil_2. }
  rewrite Forall_forall in Hall. apply Hall.
Qed.

(** The case of the extension does not matter. *)
Lemma classify_any_case pre e e' :
  e ∈ audioExtensions ++ videoExtensions → same_letters e' e = true →
  classify (pre +:+ String "." e') = kind_of e.
Proof.
  intros He Hsame.
  destruct (same_letters_lower e' e Hsame (extensions_small e He))
    as [Hlower Hfree].
  unfold classify. rewrite (extension_suffix pre e' Hfree), Hlower.
  reflexivity.
Qed.

End Case.

(** C9, as the code has it.  The presentation is a function of the
    lowercased last dot-separated piece of the path, defined for every
    string.  The audio and the video extensions are disjoint.  A video
    extension selects the video presentation: raster surface and video icon
    shown, audio icon hidden.  Every other extension, an audio one, an
    unknown one or an empty one, selects the audio presentation: audio icon
    shown, raster surface and video icon hidden.  The control strip is
    shown in both, so no path leaves the player hidden.  The case of the
    extension does not matter: every spelling of a video extension in
    capitals and small letters is presented as video, every spelling of an
    audio extension as audio.  A path ending in [.flac] is presented as
    audio and one ending in [.mkv] or [.MKV] as video, and a path ending in
    a dot as audio.  A path without any dot is matched as a whole: it is
    presented as video when the whole path, lowercased, is a video
    extension, and as audio otherwise, as every path with a directory
    separator is. *)
Theorem showMediaIcon_presents_by_extension :
  (∀ path, ∃ pieces piece,
      JS.split JS.is_dot path = pieces ++ [piece] ∧
      classify path = kind_of (JS.toLowerCase piece)) ∧
  (∀ e, ¬ (e ∈ audioExtensions ∧ e ∈ videoExtensions)) ∧
  (∀ e, kind_of e = if bool_decide (e ∈ videoExtensions) then Video else Audio) ∧
  (∀ path w,
      display <$> document (showMediaIcon path w) !! "audio-icon"
        = (λ _, audio_icon_display (classify path))
            <$> document w !! "audio-icon"
      ∧ display <$> document (showMediaIcon path w) !! "video-icon"
        = (λ _, video_display (classify path)) <$> document w !! "video-icon"
      ∧ display <$> document (showMediaIcon path w) !! "video-canvas"
        = (λ _, video_display (classify path))
            <$> document w !! "video-canvas"
      ∧ display <$> document (showMediaIcon path w) !! "player-controls"
        = (λ _, "flex") <$> document w !! "player-controls") ∧
  (∀ pre e e', same_letters e' e = true →
      (e ∈ videoExtensions → classify (pre +:+ String "." e') = Video) ∧
      (e ∈ audioExtensions → classify (pre +:+ String "." e') = Audio)) ∧
  (∀ pre, classify (pre +:+ ".flac") = Audio ∧
          classify (pre +:+ ".mkv") = Video ∧
          classify (pre +:+ ".MKV") = Video ∧
          classify (pre +:+ ".") = Audio) ∧
  (∀ path, dot_free path = true →
      classify path
      = (if bool_decide (JS.toLowerCase path ∈ videoExtensions)
         then Video else Audio) ∧
      (has_separator path = true → classify path = Audio)).
Proof.
  split; [|split; [|split; [|split; [|split; [|split]]]]].
  - intros path. destruct (extension_last_piece path) as (ps & p & Hs & He).
    exists ps, p. split; [exact Hs|]. unfold classify. rewrite He. reflexivity.
  - intros e [Ha Hv]. exact (extensions_disjoint e Ha Hv).
  - apply kind_of_video.
  - apply document_showMediaIcon_display.
  - intros pre e e' Hsame. split; intros He.
    + rewrite (classify_any_case pre e e') by
        (try exact Hsame; apply elem_of_app; right; exact He).
      rewrite kind_of_video, bool_decide_eq_true_2 by exact He. reflexivity.
    + rewrite (classify_any_case pre e e') by
        (try exact Hsame; apply elem_of_app; left; exact He).
      rewrite kind_of_video, bool_decide_eq_false_2; [reflexivity|].
      apply extensions_disjoint, He.
  - intros pre. unfold classify. repeat split.
    + change ".flac" with (String "." "flac").
      rewrite extension_suffix by reflexivity. reflexivity.
    + change ".mkv" with (String "." "mkv").
      rewrite extension_suffix by reflexivity. reflexivity.
    + change ".MKV" with (String "." "MKV").
      rewrite extension_suffix by reflexivity. reflexivity.
    + change "." with (String "." "").
      rewrite extension_suffix by reflexivity. reflexivity.
  - intros path Hfree. unfold classify.
    rewrite (extension_dot_free path Hfree), kind_of_video.
    split; [reflexivity|]. intros Hsep.
    rewrite bool_decide_eq_false_2; [reflexivity|].
    apply separator_not_video. rewrite has_separator_toLowerCase. exact Hsep.
Qed.

(** The case-insensitive part on a film whose extension is spelt with
    capitals. *)
Lemma showMediaIcon_presents_by_extension_witness :
  classify ("/films/holiday" +:+ String "." "WebM") = Video.
Proof.
  assert (Hsame : same_letters "WebM" "webm" = true) by reflexivity.
  assert (Hin : "webm" ∈ videoExtensions)
    by (apply (bool_decide_eq_true_1 (_ ∈ _)); reflexivity).
  exact (proj1 (proj1 (proj2 (proj2 (proj2 (proj2
           showMediaIcon_presents_by_extension))))
           "/films/holiday" "webm" "WebM" Hsame) Hin).
Defined.

(** C9 does not hold as stated: the path [mkv] has no extension, and it is
    presented as video: the raster surface is shown and the audio icon is
    hidden. *)
Lemma showMediaIcon_missing_extension_counterexample :
  dot_free "mkv" = true ∧
  JS.split JS.is_dot "mkv" = ["mkv"] ∧
  classify "mkv" = Video ∧
  shown "video-canvas" (showMediaIcon "mkv" media_page) = Some "block" ∧
  shown "audio-icon" (showMediaIcon "mkv" media_page) = Some "none".
Proof. repeat split; reflexivity. Qed.


(** * Further properties of main.ts *)

(** ** Numbers *)

(** A number above zero is truthy. *)
Lemma gt_zero_truthy (v : JS.number) :
  JS.gt v 0%float = true → JS.truthy v = true.
Proof.
  unfold JS.gt, JS.truthy.
  rewrite FloatAxioms.ltb_spec, !FloatAxioms.eqb_spec.
  change (Prim2SF 0%float) with (S754_zero false).
  unfold SFltb, SFeqb.
  destruct (Prim2SF v) as [s|s| |s m e]; try destruct s; cbn;
    try discriminate; intros _; try reflexivity.
  rewrite Z.compare_refl, Pos.compare_cont_refl. reflexivity.
Qed.

(** ** The volume button *)

(** X1.  Muting and restoring is a round trip.  With a volume above zero, a
    click on the volume button remembers the volume and asks the engine for
    0; when the engine fails or answers 0, the volume is 0.  The next click
    asks for the remembered volume; when the engine fails or answers that
    volume, the volume is what it was before the first click. *)
Theorem volumeBtn_click_mute_then_restore
    (w : World) (r1 r2 : Reply JS.number) :
  JS.gt (volume (player w)) 0%float = true →
  echoes 0%float r1 → echoes (volume (player w)) r2 →
  let w1 := perform w (OpMute r1) in
  let w2 := perform w1 (OpMute r2) in
  volume (player w1) = 0%float ∧
  lastVolume w1 = Some (volume (player w)) ∧
  (∀ env, commands env (volumeBtn_click w) = [set_volume_cmd 0%float]) ∧
  (∀ env, commands env (volumeBtn_click w1)
          = [set_volume_cmd (volume (player w))]) ∧
  volume (player w2) = volume (player w).
Proof.
  intros Hgt H1 H2 w1 w2.
  assert (Hw1 : volume (player w1) = 0%float ∧
                lastVolume w1 = Some (volume (player w))).
  { subst w1. cbn [perform]. unfold volumeBtn_click. rewrite Hgt.
    cbn [run env_of]. destruct r1 as [a|err]; cbn in H1; subst;
      autorewrite with frame; split; try reflexivity;
      unfold showVolumeIcon;
      destruct (JS.strict_eq _ _); try destruct (JS.lt _ _); reflexivity. }
  destruct Hw1 as [Hv1 Hl1].
  assert (Hreq : ∀ env, commands env (volumeBtn_click w1)
                        = [set_volume_cmd (volume (player w))]).
  { intros env. unfold volumeBtn_click. rewrite Hv1, Hl1.
    change (JS.gt 0%float 0%float) with false. cbn iota.
    rewrite (gt_zero_truthy _ Hgt). cbn [commands command_of option_list app].
    try case_reply env; reflexivity. }
  split; [exact Hv1|]. split; [exact Hl1|]. split; [|split; [exact Hreq|]].
  - intros env. unfold volumeBtn_click. rewrite Hgt.
    cbn [commands command_of option_list app].
    try case_reply env; reflexivity.
  - subst w2. cbn [perform]. unfold volumeBtn_click. rewrite Hv1, Hl1.
    change (JS.gt 0%float 0%float) with false. cbn iota.
    rewrite (gt_zero_truthy _ Hgt). cbn [run env_of].
    destruct r2 as [a|err]; cbn in H2; subst; autorewrite with frame;
      reflexivity.
Qed.

(** At the start-up volume 0.8 with the engine unreachable. *)
Lemma volumeBtn_click_mute_then_restore_witness :
  volume (player (perform (perform (initial ∅) (OpMute (Rejected "down")))
                    (OpMute (Rejected "down")))) = 0.8%float.
Proof.
  apply (volumeBtn_click_mute_then_restore (initial ∅)
           (Rejected "down") (Rejected "down")); [reflexivity|exact I|exact I].
Defined.

(** ** Play and pause without the engine *)

(** One operation per error: the toggles that the engine rejects. *)
Lemma isPlaying_rejected_toggles (errors : list string) (w : World) :
  let offline := foldl perform w (OpTogglePlayPause ∘ Rejected <$> errors) in
  isPlaying (player offline)
    = (if Nat.even (length errors) then isPlaying (player w)
       else negb (isPlaying (player w))) ∧
  currentTime (player offline) = currentTime (player w) ∧
  duration (player offline) = duration (player w) ∧
  volume (player offline) = volume (player w).
Proof.
  revert w. induction errors as [|e errors IH]; intros w.
  - cbn. auto.
  - cbn [fmap list_fmap foldl length]. cbn zeta in IH.
    destruct (IH (perform w ((OpTogglePlayPause ∘ Rejected) e)))
      as (Hp' & Hc' & Hd' & Hv').
    cbn zeta. rewrite Hp', Hc', Hd', Hv'. clear IH Hp' Hc' Hd' Hv'.
    pose proof (settles_with_run _ _ _ _
      (env_of (Rejected "unused") (Rejected "unused") (Rejected "unused")
         (Rejected e) nobody nobody) (togglePlayPause_settles w))
      as (Hp & Hc & Hd & Hv).
    cbn [perform compose]. cbn [env_of] in Hp. rewrite Hp, Hc, Hd, Hv.
    rewrite Nat.even_succ, <- Nat.negb_even.
    destruct (Nat.even (length errors)), (isPlaying (player w)); auto.
Qed.

(** X2.  While the engine rejects [toggle_playback], the button still
    toggles locally: after [n] rejected toggles [isPlaying] is the initial
    value when [n] is even and its negation when [n] is odd, and nothing
    else of the playback state has moved.  The first toggle that the engine
    answers ends the divergence: [isPlaying] is then the engine's value,
    whatever happened before. *)
Theorem togglePlayPause_rejected_then_answered
    (errors : list string) (b : bool) (w : World) :
  let offline := foldl perform w (OpTogglePlayPause ∘ Rejected <$> errors) in
  isPlaying (player offline)
    = (if Nat.even (length errors) then isPlaying (player w)
       else negb (isPlaying (player w))) ∧
  currentTime (player offline) = currentTime (player w) ∧
  duration (player offline) = duration (player w) ∧
  volume (player offline) = volume (player w) ∧
  isPlaying (player (perform offline (OpTogglePlayPause (Resolved b)))) = b.
Proof.
  intros offline.
  destruct (isPlaying_rejected_toggles errors w) as (Hp & Hc & Hd & Hv).
  repeat split; try assumption.
  exact (proj1 (settles_with_run _ _ _ _
    (env_of (Rejected "unused") (Rejected "unused") (Rejected "unused")
       (Resolved b) nobody nobody) (togglePlayPause_settles _))).
Qed.

(** ** The clock over time *)

(** X3.  The local clock saturates at the duration.  Playing from the whole
    second [k] of the 180-second track, [n] ticks leave the position at
    [min (k + n) 180]; while paused, no number of ticks changes anything. *)
Theorem tick_saturates_at_duration (n : nat) (k : Z) (w : World) :
  0 ≤ k ≤ 180 →
  currentTime
    (player (Nat.iter n tick (playing_at (JS.of_Z k) 180%float w)))
    = JS.of_Z (Z.min (k + Z.of_nat n) 180) ∧
  (isPlaying (player w) = false → Nat.iter n tick w = w).
Proof.
  intros Hk. split.
  - assert (Hinv : isPlaying (player (Nat.iter n tick
                      (playing_at (JS.of_Z k) 180%float w))) = true ∧
                   duration (player (Nat.iter n tick
                      (playing_at (JS.of_Z k) 180%float w))) = 180%float ∧
                   currentTime (player (Nat.iter n tick
                      (playing_at (JS.of_Z k) 180%float w)))
                   = JS.of_Z (Z.min (k + Z.of_nat n) 180)).
    { induction n as [|n (Hp & Hd & Hc)].
      - cbn [Nat.iter]. repeat split.
        rewrite Z.add_0_r, Z.min_l by lia. reflexivity.
      - rewrite !Nat.iter_succ.
        set (w' := Nat.iter n tick (playing_at (JS.of_Z k) 180%float w)) in *.
        assert (Hm : 0 ≤ Z.min (k + Z.of_nat n) 180 ≤ 180) by lia.
        destruct (tick_whole_second _ Hm) as [Hstep _].
        unfold tick. rewrite Hp, Hd, Hc. cbn [andb]. revert Hstep.
        destruct (JS.lt (JS.of_Z (Z.min (k + Z.of_nat n) 180)) 180%float);
          intros Hstep.
        + autorewrite with frame. cbn. rewrite Hp, Hd, Hstep. repeat split.
          f_equal. lia.
        + rewrite Hp, Hd, Hc, Hstep. repeat split. f_equal. lia. }
    apply Hinv.
  - intros Hpaused. induction n as [|n IH]; [reflexivity|].
    rewrite Nat.iter_succ, IH. unfold tick. rewrite Hpaused. reflexivity.
Qed.

(** Three minutes and ten seconds of ticks from the start of the track. *)
Lemma tick_saturates_at_duration_witness :
  currentTime
    (player (Nat.iter 190 tick (playing_at (JS.of_Z 0) 180%float (initial ∅))))
  = 180%float.
Proof.
  apply (tick_saturates_at_duration 190 0 (initial ∅)). lia.
Defined.

(** ** The volume icons *)

(** X4.  After either volume handler has settled, with any reply, exactly
    the icon of the stored volume is displayed: the mute icon when the
    volume is 0, the low icon when it is below 0.5, the high icon otherwise
    (also for a volume that is not a number).  The click on the volume
    button moreover puts the stored volume times 100 into the slider. *)
Theorem volume_handlers_show_stored_level (v : Z) (w : World) :
  settles_with (volumeSlider_input v w) w
    (Invoke_set_volume (JS.of_Z v / 100)%float)
    (λ r w' w'',
       ∀ id, id ∈ volume_icons →
             shown id w''
             = (λ _, block_iff (volume_icon (volume (player w''))) id)
                 <$> document w' !! id) ∧
  ∃ w0 newVolume,
    settles_with (volumeBtn_click w) w0 (Invoke_set_volume newVolume)
      (λ r w' w'',
         (∀ id, id ∈ volume_icons →
                shown id w''
                = (λ _, block_iff (volume_icon (volume (player w''))) id)
                    <$> document w' !! id) ∧
         value <$> document w'' !! "volume-slider"
         = (λ _, Some (volume (player w'') * 100)%float)
             <$> document w' !! "volume-slider").
Proof.
  split.
  - destruct (volumeSlider_input_icons v w) as (k & Hk & Hpost).
    exists k. split; [exact Hk|]. intros r w'.
    destruct (Hpost r w') as (w'' & Hdone & _ & Hicons). eauto.
  - unfold volumeBtn_click.
    destruct (JS.gt (volume (player w)) 0%float);
      (do 2 eexists; eexists; split; [reflexivity|]);
      intros [a|err] w'; eexists; (split; [reflexivity|]); split;
      try (intros id Hid; rewrite (shown_showVolumeIcon id _ Hid);
           autorewrite with frame;
           cbn [document update with_document console_log console_error
                with_console set_volume with_player];
           rewrite lookup_alter_ne;
           [reflexivity|
            unfold volume_icons in Hid;
            repeat (apply elem_of_cons in Hid as [->|Hid]); try done;
            apply elem_of_nil in Hid; destruct Hid]);
      unfold showVolumeIcon;
      destruct (JS.strict_eq _ _); try destruct (JS.lt _ _);
      cbn [document update with_document console_log console_error
           with_console set_volume with_player player volume];
      lookup_alters;
      match goal with |- context [document w' !! ?i] =>
        destruct (document w' !! i) end; reflexivity.
Qed.

Lemma slider_icon_of_level (v : Z) :
  0 ≤ v ≤ 100 → volume_icon (JS.of_Z v / 100)%float = slider_icon v.
Proof.
  intros Hv.
  apply (whole_second_cases
           (λ n, n ≤ 100 → volume_icon (JS.of_Z n / 100)%float = slider_icon n));
    [|lia|lia].
  vm_compute fmap.
  repeat (apply Forall_cons; split; [intros Hle; first [reflexivity|lia]|]).
  apply Forall_nil_2.
Qed.

(** X5.  With the engine unreachable the slider alone decides the icon:
    position 0 shows the mute icon, positions 1 to 49 the low icon and
    positions 50 to 100 the high icon. *)
Theorem volumeSlider_input_offline_icon
    (v : Z) (error : string) (w : World) (id : string) :
  0 ≤ v ≤ 100 → id ∈ volume_icons →
  shown id (perform w (OpSetVolume v (Rejected error)))
  = (λ _, block_iff (slider_icon v) id) <$> document w !! id.
Proof.
  intros Hv Hid. cbn [perform].
  pose proof (settles_with_run _ _ _ _
    (env_of (Rejected "unused") (Rejected "unused") (Rejected "unused")
       (Rejected "unused") nobody (Rejected error))
    (volumeSlider_input_icons v w)) as [Hvol Hicons].
  cbn [env_of] in Hvol. rewrite (Hicons id Hid), Hvol.
  rewrite (slider_icon_of_level v Hv). reflexivity.
Qed.

Lemma volumeSlider_input_offline_icon_witness :
  shown "volume-low-icon"
    (perform (initial {[ "volume-low-icon" := blank_canvas ]})
       (OpSetVolume 30 (Rejected "down")))
  = Some "block".
Proof.
  rewrite (volumeSlider_input_offline_icon 30 "down"
             (initial {[ "volume-low-icon" := blank_canvas ]})
             "volume-low-icon");
    [reflexivity|lia|].
  apply list_elem_of_further, list_elem_of_here.
Defined.

(** ** The play and pause icons *)

(** X6.  After [togglePlayPause] has settled, with any reply, the button
    shows the state stored: the pause icon and the label for pausing while
    playing, the play icon and the label for playing while paused.  This
    holds when the button and its two icons are on the page at the click
    and when the reply arrives. *)
Theorem togglePlayPause_icons_agree (w : World) :
  is_Some (document w !! "play-pause-btn") →
  is_Some (document w !! "play-icon") →
  is_Some (document w !! "pause-icon") →
  settles_with (togglePlayPause w) w Invoke_toggle_playback
    (λ r w' w'',
       is_Some (document w' !! "play-pause-btn") →
       is_Some (document w' !! "play-icon") →
       is_Some (document w' !! "pause-icon") →
       shown "play-icon" w''
         = Some (if isPlaying (player w'') then "none" else "block") ∧
       shown "pause-icon" w''
         = Some (if isPlaying (player w'') then "block" else "none") ∧
       ariaLabel <$> document w'' !! "play-pause-btn"
         = Some (Some (if isPlaying (player w'') then "暂停" else "播放"))).
Proof.
  intros [b Hb] [p Hp] [q Hq]. unfold togglePlayPause, getRef, getElementById.
  rewrite Hb, Hp, Hq. eexists. split; [reflexivity|].
  intros [playing|err] w'; eexists; (split; [reflexivity|]);
    intros [b' Hb'] [p' Hp'] [q' Hq'].
  - unfold shown. cbn [player]. autorewrite with frame.
    unfold showPlayPause. cbn [player set_isPlaying with_player isPlaying].
    destruct playing; repeat split;
      cbn [document update with_document set_isPlaying with_player
           console_log with_console];
      lookup_alters; rewrite ?Hb', ?Hp', ?Hq'; reflexivity.
  - unfold shown. autorewrite with frame.
    unfold updatePlayPauseUI, showPlayPause, getRef, getElementById.
    cbn [document set_isPlaying with_player console_error with_console
         player isPlaying].
    rewrite Hb', Hp', Hq'.
    destruct (negb (isPlaying (player w'))); repeat split;
      cbn [document update with_document set_isPlaying with_player
           console_error with_console];
      lookup_alters; rewrite ?Hb', ?Hp', ?Hq'; reflexivity.
Qed.

Lemma togglePlayPause_icons_agree_witness :
  shown "pause-icon" (perform button_page (OpTogglePlayPause (Resolved true)))
  = Some "block".
Proof.
  assert (Hb : is_Some (document button_page !! "play-pause-btn"))
    by (eexists; reflexivity).
  assert (Hp : is_Some (document button_page !! "play-icon"))
    by (eexists; reflexivity).
  assert (Hq : is_Some (document button_page !! "pause-icon"))
    by (eexists; reflexivity).
  destruct (settles_with_run _ _ _ _
    (env_of (Rejected "unused") (Rejected "unused") (Rejected "unused")
       (Resolved true) nobody nobody)
    (togglePlayPause_icons_agree button_page Hb Hp Hq) Hb Hp Hq)
    as (_ & Hpause & _).
  exact Hpause.
Defined.

(** ** Playback and frames are separate *)

Section SurfaceSide.

Implicit Types (w : World) (env : Env).

(** Reduce the surface side of a state built by updates of other
    elements. *)
Ltac surface_side_simpl :=
  unfold surface_side;
  cbn [videoCanvas videoContext canvasCalls document update with_document
       console_log console_error with_console set_isPlaying set_currentTime
       set_volume set_duration with_player with_lastVolume];
  lookup_alters; try reflexivity.

Lemma surface_side_showPlayPause a b c w :
  a ∈ [None; Some "play-pause-btn"] → b ∈ [None; Some "play-icon"] →
  c ∈ [None; Some "pause-icon"] →
  surface_side (showPlayPause a b c w) = surface_side w.
Proof.
  intros Ha Hb Hc. unfold showPlayPause.
  repeat (apply elem_of_cons in Ha as [->|Ha]); try (apply elem_of_nil in Ha;
    destruct Ha); try reflexivity;
  repeat (apply elem_of_cons in Hb as [->|Hb]); try (apply elem_of_nil in Hb;
    destruct Hb); try reflexivity;
  repeat (apply elem_of_cons in Hc as [->|Hc]); try (apply elem_of_nil in Hc;
    destruct Hc); try reflexivity.
  destruct (isPlaying (player w)); surface_side_simpl.
Qed.

Lemma getRef_cases id w : getRef id w ∈ [None; Some id].
Proof.
  unfold getRef. destruct (getElementById id w).
  - apply list_elem_of_further, list_elem_of_here.
  - apply list_elem_of_here.
Qed.

Lemma surface_side_togglePlayPause env w :
  surface_side (run env (togglePlayPause w)) = surface_side w.
Proof.
  cbn [togglePlayPause run]. case_reply env; cbn [run].
  - pose proof (getRef_cases "play-pause-btn" w) as Ha.
    pose proof (getRef_cases "play-icon" w) as Hb.
    pose proof (getRef_cases "pause-icon" w) as Hc.
    transitivity (surface_side
      (showPlayPause (getRef "play-pause-btn" w) (getRef "play-icon" w)
         (getRef "pause-icon" w) (set_isPlaying a w))).
    + destruct (getRef "play-pause-btn" w), (getRef "play-icon" w),
        (getRef "pause-icon" w); reflexivity.
    + rewrite surface_side_showPlayPause by assumption. reflexivity.
  - unfold updatePlayPauseUI.
    rewrite surface_side_showPlayPause by apply getRef_cases. reflexivity.
Qed.

Lemma surface_side_showVolumeIcon w :
  surface_side (showVolumeIcon w) = surface_side w.
Proof.
  unfold showVolumeIcon.
  destruct (JS.strict_eq _ _); try destruct (JS.lt _ _); surface_side_simpl.
Qed.

Lemma surface_side_volumeSlider_input env v w :
  surface_side (run env (volumeSlider_input v w)) = surface_side w.
Proof.
  cbn [volumeSlider_input run]. rewrite surface_side_showVolumeIcon.
  case_reply env; reflexivity.
Qed.

Lemma surface_side_volumeBtn_click env w :
  surface_side (run env (volumeBtn_click w)) = surface_side w.
Proof.
  unfold volumeBtn_click.
  destruct (JS.gt (volume (player w)) 0%float); cbn [run];
    rewrite surface_side_showVolumeIcon; case_reply env; surface_side_simpl.
Qed.

Lemma surface_side_progressBar_click env e w :
  surface_side (run env (progressBar_click e w)) = surface_side w.
Proof.
  cbn [progressBar_click run]. case_reply env;
    unfold updateTimeDisplay, updateProgress; surface_side_simpl.
Qed.

Lemma surface_side_tick w : surface_side (tick w) = surface_side w.
Proof.
  unfold tick. destruct (_ && _); [|reflexivity].
  unfold updateTimeDisplay, updateProgress. surface_side_simpl.
Qed.

Lemma surface_side_playback_op op w :
  is_playback_op op = true → surface_side (perform w op) = surface_side w.
Proof.
  destruct op; try discriminate; intros _; cbn [perform].
  - apply surface_side_tick.
  - apply surface_side_togglePlayPause.
  - apply surface_side_volumeSlider_input.
  - apply surface_side_volumeBtn_click.
  - apply surface_side_progressBar_click.
Qed.

End SurfaceSide.

Section SurfaceVars.

Implicit Types (w : World) (env : Env).

Lemma surface_vars_showMediaIcon path w :
  surface_vars (showMediaIcon path w) = surface_vars w.
Proof.
  unfold showMediaIcon.
  destruct (JS.includes audioExtensions _); [reflexivity|].
  destruct (JS.includes videoExtensions _); [|reflexivity].
  cbn. destruct (alter _ _ _ !! "video-canvas"); reflexivity.
Qed.

Lemma surface_vars_openFileDialog env w :
  surface_vars (run env (openFileDialog w)) = surface_vars w.
Proof.
  cbn [openFileDialog run].
  destruct (env _ DialogOpen) as [[[|c s]|]|err]; cbn [run]; try reflexivity.
  destruct (env _ ToggleMaximize) as [[]|err]; cbn [run].
  - rewrite surface_vars_showMediaIcon.
    destruct (env _ (Invoke_load_file _)); case_lookups; reflexivity.
  - case_lookups; reflexivity.
Qed.

Lemma surface_vars_present f w :
  surface_vars (present w f) = surface_vars (bindSurface w).
Proof.
  unfold present.
  destruct (surface_cases w) as [[Hu Hs]|[[Hu Hs]|[Hu (c & el & Hs)]]].
  - rewrite (renderVideoFrame_unresolved f w Hu). reflexivity.
  - rewrite (renderVideoFrame_dangling f w Hu Hs). reflexivity.
  - destruct (renderVideoFrame_resolved f w c el Hs)
      as (ctx & _ & _ & _ & ->).
    cbn zeta. destruct (new_ImageData _ _ _); destruct (_ || _); reflexivity.
Qed.

Lemma surface_vars_perform op w :
  surface_vars (perform w op) =
    match op with
    | OpPresent _ => surface_vars (bindSurface w)
    | _ => surface_vars w
    end.
Proof.
  assert (Hside : is_playback_op op = true →
                  surface_vars (perform w op) = surface_vars w).
  { intros Hop. pose proof (surface_side_playback_op op w Hop) as Heq.
    unfold surface_side in Heq. unfold surface_vars. congruence. }
  destruct op; try (apply Hside; reflexivity).
  - apply surface_vars_openFileDialog.
  - apply surface_vars_present.
Qed.

(** Binding only ever binds the canvas of the page. *)
Lemma bindSurface_page w :
  videoCanvas w ∈ [None; Some "video-canvas"] →
  videoContext w ∈ [None; Some "video-canvas"] →
  videoCanvas (bindSurface w) ∈ [None; Some "video-canvas"] ∧
  videoContext (bindSurface w) ∈ [None; Some "video-canvas"].
Proof.
  intros Hc Hx. unfold bindSurface.
  destruct (_ || _); [|split; assumption].
  destruct (getElementById "video-canvas" w) as [el|]; cbn.
  - split; [apply list_elem_of_further, list_elem_of_here|].
    destruct (context2d el);
      [apply list_elem_of_further, list_elem_of_here|apply list_elem_of_here].
  - split; [apply list_elem_of_here | exact Hx].
Qed.

End SurfaceVars.

(** X7.  The surface is bound lazily and once.  No operation but a frame
    presentation assigns the two surface variables, and a presentation
    assigns them only by its binding step, which leaves a bound surface as
    it is: once both variables are set, no operation changes them.  Over
    any sequence of operations from start-up they hold nothing but the
    canvas of the page. *)
Theorem surface_bound_lazily_and_once :
  (∀ (op : Op) (w : World),
      surface_vars (perform w op) =
        match op with
        | OpPresent _ => surface_vars (bindSurface w)
        | _ => surface_vars w
        end) ∧
  (∀ (op : Op) (w : World) (c ctx : string),
      surface_vars w = (Some c, Some ctx) →
      surface_vars (perform w op) = (Some c, Some ctx)) ∧
  (∀ (doc : gmap string Element) (ops : list Op),
      videoCanvas (foldl perform (initial doc) ops)
        ∈ [None; Some "video-canvas"] ∧
      videoContext (foldl perform (initial doc) ops)
        ∈ [None; Some "video-canvas"]).
Proof.
  split; [apply surface_vars_perform|]. split.
  - intros op w c ctx Hbound. rewrite surface_vars_perform.
    injection Hbound as Hc Hx.
    destruct op; try (unfold surface_vars; congruence).
    rewrite (bindSurface_bound w c ctx Hc Hx). unfold surface_vars. congruence.
  - intros doc ops.
    assert (Hinv : ∀ w,
              videoCanvas w ∈ [None; Some "video-canvas"] ∧
              videoContext w ∈ [None; Some "video-canvas"] →
              videoCanvas (foldl perform w ops) ∈ [None; Some "video-canvas"] ∧
              videoContext (foldl perform w ops)
                ∈ [None; Some "video-canvas"]).
    { induction ops as [|op ops IH]; intros w Hw; [exact Hw|].
      cbn [foldl]. apply IH.
      pose proof (surface_vars_perform op w) as Heq. unfold surface_vars in Heq.
      remember (perform w op) as w' eqn:Hw'. clear Hw'.
      destruct op; try (injection Heq as -> ->; exact Hw).
      injection Heq as -> ->. destruct Hw. apply bindSurface_page; assumption. }
    apply Hinv. split; apply list_elem_of_here.
Qed.

Lemma surface_bound_lazily_and_once_witness :
  surface_vars
    (perform (present (initial {[ "video-canvas" := blank_canvas ]}) red_pixel)
       (OpPresent short_pixel))
  = (Some "video-canvas", Some "video-canvas").
Proof.
  destruct surface_bound_lazily_and_once as (_ & Hkept & _).
  apply Hkept. reflexivity.
Defined.

(** X8.  Playback and frame presentation do not touch each other's state.
    A tick, a toggle, a volume change, a click on the volume button and a
    seek leave the surface variables, the canvas element and the record of
    canvas calls as they are, for every reply; a frame presentation leaves
    the playback state as it is, whether it paints, raises or finds no
    surface. *)
Theorem playback_and_frames_are_separate (op : Op) (w : World) :
  (is_playback_op op = true → surface_side (perform w op) = surface_side w) ∧
  (∀ f, player (perform w (OpPresent f)) = player w).
Proof.
  split.
  - apply surface_side_playback_op.
  - intros f. apply player_renderVideoFrame.
Qed.

Lemma playback_and_frames_are_separate_witness :
  surface_side
    (perform (initial {[ "video-canvas" := blank_canvas ]})
       (OpSeek click_middle (Resolved 12%float)))
  = surface_side (initial {[ "video-canvas" := blank_canvas ]}).
Proof.
  apply (playback_and_frames_are_separate
           (OpSeek click_middle (Resolved 12%float))
           (initial {[ "video-canvas" := blank_canvas ]})).
  reflexivity.
Defined.

(** ** What a presentation leaves on the canvas *)

Section Painted.

Implicit Types (w : World) (f : VideoFrameData.t).

Lemma new_ImageData_value data sw sh img :
  new_ImageData data sw sh = inr img →
  img = {| idata := data; iwidth := unsigned_long sw;
           iheight := unsigned_long sh |}.
Proof.
  unfold new_ImageData. cbv zeta.
  destruct (_ || _); [discriminate|]. destruct (_ || _); [discriminate|].
  destruct (negb _); [discriminate|]. congruence.
Qed.

(** The canvas after a call on a bound surface, case by case. *)
Lemma present_canvas f w c el :
  surface (bindSurface w) = Some (c, el) →
  ∃ ctx,
    surface_vars (present w f) = (Some c, Some ctx) ∧
    match new_ImageData (Uint8ClampedArray (VideoFrameData.data f))
            (VideoFrameData.width f) (VideoFrameData.height f) with
    | inl _ =>
        document (present w f) !! c =
          Some (if dimensions_differ f w
                then set_height (reflected 150 (VideoFrameData.height f))
                       (clear_painted
                          (set_width (reflected 300 (VideoFrameData.width f))
                             (clear_painted el)))
                else el)
    | inr img =>
        ctx = c →
        document (present w f) !! c =
          Some (set_painted img
                  (if dimensions_differ f w
                   then set_height (reflected 150 (VideoFrameData.height f))
                          (clear_painted
                             (set_width
                                (reflected 300 (VideoFrameData.width f))
                                (clear_painted el)))
                   else el))
    end.
Proof.
  intros Hs.
  destruct (renderVideoFrame_resolved f w c el Hs)
    as (ctx & Hc & Hx & Hel & Heq).
  exists ctx. rewrite <- bindSurface_document in Hel.
  unfold present, dimensions_differ. rewrite Heq, Hs. cbn zeta.
  destruct (new_ImageData _ _ _) as [exn|img];
    destruct (negb (width el =? _)%N || _); cbn [fst];
    (split; [unfold surface_vars; cbn; congruence|]);
    try intros ->;
    cbn [document putImageData canvas_set_height canvas_set_width
         with_canvasCalls update with_document];
    lookup_alters; rewrite Hel; reflexivity.
Qed.

End Painted.

(** X9.  After a call on a bound surface the surface is still bound to
    the same canvas, whether the call has painted or raised, and the
    backing store has the dimensions of the frame whenever those fit a
    canvas (at most 2^31 - 1 each); in general a call that resizes leaves
    each dimension as the canvas attribute stores it.  A frame of other
    dimensions that fit and whose bytes are rejected has thus already
    blanked the canvas when the call raises. *)
Theorem present_leaves_frame_dimensions
    (f : VideoFrameData.t) (w : World) (c : string) (el : Element) :
  surface (bindSurface w) = Some (c, el) →
  ∃ el',
    surface (bindSurface (present w f)) = Some (c, el') ∧
    dimensions el' =
      (if dimensions_differ f w
       then (reflected 300 (VideoFrameData.width f),
             reflected 150 (VideoFrameData.height f))
       else (VideoFrameData.width f, VideoFrameData.height f)) ∧
    (fits_canvas f = true →
     dimensions el' = (VideoFrameData.width f, VideoFrameData.height f) ∧
     (dimensions_differ f w = true → well_formed f = false →
      painted el' = None ∧ ∃ exn, snd (renderVideoFrame f w) = Thrown exn)).
Proof.
  intros Hs.
  destruct (present_resolved_any f w c el Hs) as (el' & Hs' & Hdim).
  exists el'. split; [exact Hs'|]. split; [exact Hdim|].
  intros Hfits. split.
  { rewrite Hdim. destruct (fits_canvas_reflected f Hfits) as [-> ->].
    destruct (dimensions_differ f w); reflexivity. }
  intros Hdiff Hbad.
  destruct (present_canvas f w c el Hs) as (ctx & Hvars & Hdoc).
  injection Hvars as Hc Hx.
  rewrite (surface_bound _ c ctx Hc Hx) in Hs'.
  apply andb_true_iff in Hfits as [Hw Hh]. apply N.leb_le in Hw, Hh.
  apply N.eqb_neq in Hbad.
  destruct (new_ImageData_rejects
              (Uint8ClampedArray (VideoFrameData.data f))
              (VideoFrameData.width f) (VideoFrameData.height f))
    as [exn Hexn].
  { rewrite length_Uint8ClampedArray, !unsigned_long_small by lia.
    exact Hbad. }
  rewrite Hexn, Hdiff in Hdoc. rewrite Hdoc in Hs'. injection Hs' as <-.
  split; [reflexivity|].
  destruct (renderVideoFrame_resolved f w c el Hs) as (? & _ & _ & _ & ->).
  cbn zeta. rewrite Hexn. eauto.
Qed.

(** The frame with a byte missing on the canvas of the page, which starts
    at 300 by 150. *)
Lemma present_leaves_frame_dimensions_witness :
  ∃ el',
    surface (bindSurface
               (present (initial {[ "video-canvas" := blank_canvas ]})
                  short_pixel))
      = Some ("video-canvas", el') ∧
    dimensions el' = (1%N, 1%N) ∧ painted el' = None.
Proof.
  assert (Hbound : surface (bindSurface
                              (initial {[ "video-canvas" := blank_canvas ]}))
                   = Some ("video-canvas", blank_canvas)) by reflexivity.
  destruct (present_leaves_frame_dimensions short_pixel
              (initial {[ "video-canvas" := blank_canvas ]})
              "video-canvas" blank_canvas Hbound) as (el' & Hs & _ & Hfits).
  destruct (Hfits eq_refl) as (Hd & Hblank).
  destruct (Hblank eq_refl eq_refl) as (Hp & _).
  exists el'. repeat split; assumption.
Defined.

(** X10.  A well-formed frame of at least one pixel, its bytes in a
    JavaScript array, presented on a bound surface through the canvas's own
    context, is painted: the call returns and the canvas holds the frame's
    dimensions and its bytes, each clamped to 255 (a byte within range is
    kept).  Presenting the same frame again changes nothing on the page. *)
Theorem present_paints_clamped_pixels
    (f : VideoFrameData.t) (w : World) (c : string) (el : Element) :
  surface (bindSurface w) = Some (c, el) →
  videoContext (bindSurface w) = Some c →
  well_formed f = true →
  js_array (VideoFrameData.data f) = true →
  (0 < VideoFrameData.width f * VideoFrameData.height f)%N →
  snd (renderVideoFrame f w) = Returned ∧
  painted <$> document (present w f) !! c
    = Some (Some {| idata := Uint8ClampedArray (VideoFrameData.data f);
                    iwidth := VideoFrameData.width f;
                    iheight := VideoFrameData.height f |}) ∧
  Forall (λ b, (b ≤ 255)%N) (Uint8ClampedArray (VideoFrameData.data f)) ∧
  (∀ i b, VideoFrameData.data f !! i = Some b → (b ≤ 255)%N →
          Uint8ClampedArray (VideoFrameData.data f) !! i = Some b) ∧
  document (present (present w f) f) = document (present w f).
Proof.
  intros Hs Hctx Hwf Harr Hpos.
  pose proof (well_formed_fits f Hwf Harr Hpos) as Hfits.
  destruct (well_formed_small f Hwf Harr Hpos) as [Hws Hhs].
  assert (Hw32 : unsigned_long (VideoFrameData.width f)
                 = VideoFrameData.width f)
    by (apply unsigned_long_small; lia).
  assert (Hh32 : unsigned_long (VideoFrameData.height f)
                 = VideoFrameData.height f)
    by (apply unsigned_long_small; lia).
  destruct (proj2 (new_ImageData_accepts
                     (Uint8ClampedArray (VideoFrameData.data f))
                     (VideoFrameData.width f) (VideoFrameData.height f)))
    as [img Himg].
  { rewrite length_Uint8ClampedArray, Hw32, Hh32. split; [|exact Hpos].
    apply N.eqb_eq, Hwf. }
  pose proof (new_ImageData_value _ _ _ _ Himg) as Hval.
  rewrite Hw32, Hh32 in Hval.
  destruct (present_canvas f w c el Hs) as (ctx & Hvars & Hdoc).
  rewrite surface_vars_present in Hvars. unfold surface_vars in Hvars.
  rewrite Hctx in Hvars. injection Hvars as Hc <-.
  rewrite Himg in Hdoc. specialize (Hdoc eq_refl).
  split; [|split; [|split; [|split]]].
  - destruct (renderVideoFrame_resolved f w c el Hs) as (? & _ & _ & _ & ->).
    cbn zeta. rewrite Himg. reflexivity.
  - rewrite Hdoc, Hval. reflexivity.
  - unfold Uint8ClampedArray. apply Forall_fmap, Forall_true.
    intros b. cbn. lia.
  - intros i b Hi Hb. unfold Uint8ClampedArray.
    rewrite list_lookup_fmap, Hi. cbn. f_equal. lia.
  - assert (Hvars2 : surface_vars (present w f) = (Some c, Some c)).
    { rewrite surface_vars_present. unfold surface_vars. congruence. }
    injection Hvars2 as Hc2 Hx2.
    pose proof (surface_bound _ c c Hc2 Hx2) as Hs2. rewrite Hdoc in Hs2.
    cbn [fmap option_fmap option_map] in Hs2.
    destruct (renderVideoFrame_resolved f (present w f) c _ Hs2)
      as (ctx2 & _ & Hx2' & _ & Heq).
    rewrite (bindSurface_bound _ c c Hc2 Hx2) in Hx2', Heq.
    assert (ctx2 = c) by congruence. subst ctx2.
    destruct (present_resolved f w c el Hfits Hs) as (el' & Hs' & Hdim).
    rewrite (surface_bound _ c c Hc2 Hx2), Hdoc in Hs'.
    injection Hs' as <-.
    unfold present at 1. rewrite Heq. cbn zeta. rewrite Himg.
    injection Hdim as Hw Hh. cbn [width height set_painted].
    rewrite Hw, Hh, !N.eqb_refl. cbn [negb orb fst].
    cbn [document putImageData with_canvasCalls update with_document].
    apply alter_id. intros x Hx. rewrite Hdoc in Hx. injection Hx as <-.
    reflexivity.
Qed.

Lemma present_paints_clamped_pixels_witness :
  painted <$> document (present (initial {[ "video-canvas" := blank_canvas ]})
                          red_pixel) !! "video-canvas"
  = Some (Some {| idata := [255; 0; 0; 255]%N; iwidth := 1; iheight := 1 |}).
Proof.
  assert (Hbound : surface (bindSurface
                              (initial {[ "video-canvas" := blank_canvas ]}))
                   = Some ("video-canvas", blank_canvas)) by reflexivity.
  exact (proj1 (proj2 (present_paints_clamped_pixels red_pixel
                         (initial {[ "video-canvas" := blank_canvas ]})
                         "video-canvas" blank_canvas Hbound
                         eq_refl eq_refl eq_refl eq_refl))).
Defined.

(** ** Frames that arrive before the canvas *)

Lemma console_present_resolved (f : VideoFrameData.t) (w : World) c el :
  surface (bindSurface w) = Some (c, el) → console (present w f) = console w.
Proof.
  intros Hs. unfold present.
  destruct (renderVideoFrame_resolved f w c el Hs) as (ctx & _ & _ & _ & ->).
  cbn zeta. destruct (new_ImageData _ _ _); destruct (_ || _); cbn [fst];
    cbn [console putImageData canvas_set_height canvas_set_width
         with_canvasCalls update with_document];
    apply bindSurface_console.
Qed.

(** The first frame on a page that has the canvas. *)
Lemma present_binds_canvas (f : VideoFrameData.t) (el : Element) (w : World) :
  fits_canvas f = true →
  videoCanvas w = None → document w !! "video-canvas" = Some el →
  if context2d el then
    console (present w f) = console w ∧
    surface_vars (present w f) = (Some "video-canvas", Some "video-canvas") ∧
    dimensions <$> document (present w f) !! "video-canvas"
      = Some (VideoFrameData.width f, VideoFrameData.height f)
  else
    console (present w f) = console w ++ [canvas_not_found] ∧
    surface_vars (present w f) = (Some "video-canvas", None) ∧
    document (present w f) !! "video-canvas" = Some el.
Proof.
  intros Hfits Hc Hel.
  assert (Hb : bindSurface w
               = with_videoContext
                   (if context2d el then Some "video-canvas" else None)
                   (with_videoCanvas (Some "video-canvas") w)).
  { unfold bindSurface, getElementById. rewrite Hc, Hel. reflexivity. }
  destruct (context2d el) eqn:Hctx.
  - assert (Hs : surface (bindSurface w) = Some ("video-canvas", el)).
    { rewrite Hb. unfold surface.
      cbn [videoCanvas videoContext document with_videoContext
           with_videoCanvas].
      rewrite Hel. reflexivity. }
    split; [apply (console_present_resolved f w _ _ Hs)|].
    destruct (present_resolved f w _ _ Hfits Hs) as (el' & Hs' & Hdim).
    assert (Hvars : surface_vars (present w f)
                    = (Some "video-canvas", Some "video-canvas")).
    { rewrite surface_vars_present, Hb. reflexivity. }
    split; [exact Hvars|].
    injection Hvars as Hc2 Hx2.
    rewrite (surface_bound _ _ _ Hc2 Hx2) in Hs'.
    destruct (document (present w f) !! "video-canvas"); [|discriminate].
    injection Hs' as ->. cbn. rewrite Hdim. reflexivity.
  - assert (Hu : unresolved w = true).
    { unfold unresolved. rewrite Hb. reflexivity. }
    unfold present. rewrite (renderVideoFrame_unresolved f w Hu), Hb.
    cbn [fst]. repeat split. exact Hel.
Qed.

(** X11.  A frame that arrives while the page has no canvas is dropped with
    one report and changes neither the page nor the surface variables.
    When the canvas is on the page by the next frame, that frame binds it:
    with a 2D context the surface is bound, sized to the frame (whose
    dimensions fit a canvas), and nothing more is reported; without one
    only the canvas variable is set and the frame is reported as well. *)
Theorem frames_before_and_after_canvas
    (f f' : VideoFrameData.t) (el : Element) (w : World) :
  fits_canvas f' = true →
  videoCanvas w = None → document w !! "video-canvas" = None →
  let w1 := present w f in
  let w2 := present (attach "video-canvas" el w1) f' in
  console w1 = console w ++ [canvas_not_found] ∧
  surface_vars w1 = surface_vars w ∧
  document w1 = document w ∧
  if context2d el then
    console w2 = console w1 ∧
    surface_vars w2 = (Some "video-canvas", Some "video-canvas") ∧
    dimensions <$> document w2 !! "video-canvas"
      = Some (VideoFrameData.width f', VideoFrameData.height f')
  else
    console w2 = console w1 ++ [canvas_not_found] ∧
    surface_vars w2 = (Some "video-canvas", None) ∧
    document w2 !! "video-canvas" = Some el.
Proof.
  intros Hfits Hc Hdoc w1 w2.
  assert (Hbind : bindSurface w = w).
  { unfold bindSurface, getElementById. rewrite Hc, Hdoc.
    destruct w; cbn in *; subst; reflexivity. }
  assert (Hu : unresolved w = true).
  { unfold unresolved. rewrite Hbind, Hc. reflexivity. }
  assert (Hw1 : w1 = console_error "视频画布未找到" w).
  { subst w1. unfold present.
    rewrite (renderVideoFrame_unresolved f w Hu), Hbind. reflexivity. }
  split; [rewrite Hw1; reflexivity|].
  split; [rewrite Hw1; reflexivity|].
  split; [rewrite Hw1; reflexivity|].
  subst w2.
  apply (present_binds_canvas f' el (attach "video-canvas" el w1) Hfits).
  - rewrite Hw1. exact Hc.
  - cbn [attach document with_document]. apply lookup_insert_eq.
Qed.

Lemma frames_before_and_after_canvas_witness :
  let w1 := present (initial ∅) red_pixel in
  let w2 := present (attach "video-canvas" blank_canvas w1) red_pixel in
  console w2 = [canvas_not_found] ∧
  dimensions <$> document w2 !! "video-canvas" = Some (1%N, 1%N).
Proof.
  assert (Hnone : document (initial ∅) !! "video-canvas" = None)
    by reflexivity.
  destruct (frames_before_and_after_canvas red_pixel red_pixel blank_canvas
              (initial ∅) eq_refl eq_refl Hnone)
    as (Hfirst & _ & _ & Hsecond & _ & Hdim).
  split; [rewrite Hsecond; exact Hfirst | exact Hdim].
Defined.

(** ** Opening a file: label, failures, cancellation *)

Section Opening.

Implicit Types (w : World) (env : Env).

Lemma split_separator_free name :
  separator_free name = true → JS.split JS.is_slash name = [name].
Proof.
  unfold separator_free. induction name as [|c r IH]; cbn; [reflexivity|].
  intros [Hc Hr]%negb_true_iff%orb_false_elim.
  rewrite Hc, IH by (rewrite Hr; reflexivity). reflexivity.
Qed.

(** The last piece of a path after its last separator. *)
Lemma split_base_name dir c name :
  JS.is_slash c = true → separator_free name = true →
  ∃ h t, JS.split JS.is_slash (dir +:+ String c name) = h :: t ++ [name].
Proof.
  intros Hc Hname. induction dir as [|d r (h & t & IH)].
  - exists EmptyString, [].
    change (EmptyString +:+ String c name) with (String c name).
    cbn [JS.split]. rewrite Hc, (split_separator_free name Hname). reflexivity.
  - change (String d r +:+ String c name)
      with (String d (r +:+ String c name)).
    cbn [JS.split]. rewrite IH. destruct (JS.is_slash d).
    + exists EmptyString, (h :: t). reflexivity.
    + exists (String d h), t. reflexivity.
Qed.

Lemma base_name dir c name :
  JS.is_slash c = true → separator_free name = true →
  JS.or_else
    (default EmptyString
       (JS.pop (JS.split JS.is_slash (dir +:+ String c name))))
    (dir +:+ String c name)
  = if bool_decide (name = EmptyString) then dir +:+ String c name else name.
Proof.
  intros Hc Hname. destruct (split_base_name dir c name Hc Hname)
    as (h & t & ->).
  unfold JS.pop. change (h :: t ++ [name]) with ((h :: t) ++ [name]).
  rewrite last_snoc. reflexivity.
Qed.

Lemma lookup_update_ne id0 h w id :
  id0 ≠ id → document (update id0 h w) !! id = document w !! id.
Proof. intros Hne. apply lookup_alter_ne, Hne. Qed.

Lemma lookup_canvas_set_width_ne id0 v w id :
  id0 ≠ id → document (canvas_set_width id0 v w) !! id = document w !! id.
Proof. intros Hne. apply lookup_alter_ne, Hne. Qed.

Lemma lookup_canvas_set_height_ne id0 v w id :
  id0 ≠ id → document (canvas_set_height id0 v w) !! id = document w !! id.
Proof. intros Hne. apply lookup_alter_ne, Hne. Qed.

Lemma document_console_log msg w : document (console_log msg w) = document w.
Proof. reflexivity. Qed.

Lemma document_with_bodyClassList l w :
  document (with_bodyClassList l w) = document w.
Proof. reflexivity. Qed.

Lemma document_showMediaIcon_other path w id :
  id ∉ media_elements →
  document (showMediaIcon path w) !! id = document w !! id.
Proof.
  intros Hid. unfold media_elements in Hid.
  apply not_elem_of_cons in Hid as [H1 Hid].
  apply not_elem_of_cons in Hid as [H2 Hid].
  apply not_elem_of_cons in Hid as [H3 Hid].
  apply not_elem_of_cons in Hid as [H4 Hid].
  apply not_elem_of_cons in Hid as [H5 _].
  apply not_eq_sym in H1, H2, H3, H4, H5.
  unfold showMediaIcon. rewrite document_with_bodyClassList.
  destruct (JS.includes audioExtensions _);
    [|destruct (JS.includes videoExtensions _)];
    try destruct (getElementById "video-canvas" _);
    repeat first
      [ rewrite lookup_update_ne by assumption
      | rewrite lookup_canvas_set_width_ne by assumption
      | rewrite lookup_canvas_set_height_ne by assumption
      | rewrite document_console_log ];
    reflexivity.
Qed.

Lemma alerts_showMediaIcon path w : alerts (showMediaIcon path w) = alerts w.
Proof.
  unfold showMediaIcon.
  destruct (JS.includes audioExtensions _); [reflexivity|].
  destruct (JS.includes videoExtensions _); [|reflexivity].
  cbn. destruct (alter _ _ _ !! "video-canvas"); reflexivity.
Qed.

(** The steps of [showMediaIcon] read nothing of the console. *)
Lemma beyond_console_fields w w' :
  beyond_console w = beyond_console w' ↔
  videoCanvas w = videoCanvas w' ∧ videoContext w = videoContext w' ∧
  player w = player w' ∧ lastVolume w = lastVolume w' ∧
  document w = document w' ∧ bodyClassList w = bodyClassList w' ∧
  alerts w = alerts w' ∧ canvasCalls w = canvasCalls w'.
Proof.
  unfold beyond_console, surface_vars, outside. split.
  - intros Heq. injection Heq as -> -> -> -> -> -> -> ->. repeat split.
  - intros (-> & -> & -> & -> & -> & -> & -> & ->). reflexivity.
Qed.

Lemma beyond_console_update id h w w' :
  beyond_console w = beyond_console w' →
  beyond_console (update id h w) = beyond_console (update id h w').
Proof.
  rewrite !beyond_console_fields. cbn.
  intros (-> & -> & -> & -> & -> & -> & -> & ->). repeat split.
Qed.

Lemma beyond_console_console_log msg w w' :
  beyond_console w = beyond_console w' →
  beyond_console (console_log msg w) = beyond_console w'.
Proof. rewrite !beyond_console_fields. cbn. tauto. Qed.

Lemma beyond_console_console_error msg w w' :
  beyond_console w = beyond_console w' →
  beyond_console (console_error msg w) = beyond_console w'.
Proof. rewrite !beyond_console_fields. cbn. tauto. Qed.

Lemma beyond_console_canvas_set_width id v w w' :
  beyond_console w = beyond_console w' →
  beyond_console (canvas_set_width id v w)
  = beyond_console (canvas_set_width id v w').
Proof.
  rewrite !beyond_console_fields. cbn.
  intros (-> & -> & -> & -> & -> & -> & -> & ->). repeat split.
Qed.

Lemma beyond_console_canvas_set_height id v w w' :
  beyond_console w = beyond_console w' →
  beyond_console (canvas_set_height id v w)
  = beyond_console (canvas_set_height id v w').
Proof.
  rewrite !beyond_console_fields. cbn.
  intros (-> & -> & -> & -> & -> & -> & -> & ->). repeat split.
Qed.

Lemma beyond_console_showMediaIcon path w w' :
  beyond_console w = beyond_console w' →
  beyond_console (showMediaIcon path w)
  = beyond_console (showMediaIcon path w').
Proof.
  intros Heq.
  assert (Hstep : ∀ x x', beyond_console x = beyond_console x' →
            beyond_console
              (with_bodyClassList
                 (if bool_decide ("player-mode" ∈ bodyClassList x)
                  then bodyClassList x
                  else bodyClassList x ++ ["player-mode"]) x)
            = beyond_console
                (with_bodyClassList
                   (if bool_decide ("player-mode" ∈ bodyClassList x')
                    then bodyClassList x'
                    else bodyClassList x' ++ ["player-mode"]) x')).
  { intros x x'. rewrite !beyond_console_fields. cbn.
    intros (-> & -> & -> & -> & -> & -> & -> & ->). repeat split. }
  assert (Hhide : beyond_console
            (update "player-controls" (set_display "none")
               (update "video-canvas" (set_display "none")
                  (update "video-icon" (set_display "none")
                     (update "audio-icon" (set_display "none") w))))
          = beyond_console
              (update "player-controls" (set_display "none")
                 (update "video-canvas" (set_display "none")
                    (update "video-icon" (set_display "none")
                       (update "audio-icon" (set_display "none") w')))))
    by (do 4 apply beyond_console_update; exact Heq).
  unfold showMediaIcon. cbn zeta. apply Hstep.
  apply beyond_console_update.
  destruct (JS.includes audioExtensions _);
    [|destruct (JS.includes videoExtensions _)];
    apply beyond_console_update.
  - apply beyond_console_console_log. symmetry.
    apply beyond_console_console_log. symmetry.
    apply beyond_console_update, Hhide.
  - assert (Hicon : beyond_console
              (console_log "显示视频图标"
                 (update "video-icon" (set_display "block")
                    (update "player-controls" (set_display "none")
                       (update "video-canvas" (set_display "none")
                          (update "video-icon" (set_display "none")
                             (update "audio-icon" (set_display "none") w))))))
            = beyond_console
                (console_log "显示视频图标"
                   (update "video-icon" (set_display "block")
                      (update "player-controls" (set_display "none")
                         (update "video-canvas" (set_display "none")
                            (update "video-icon" (set_display "none")
                               (update "audio-icon" (set_display "none")
                                  w'))))))).
    { apply beyond_console_console_log. symmetry.
      apply beyond_console_console_log. symmetry.
      apply beyond_console_update, Hhide. }
    unfold getElementById.
    replace (document
               (console_log "显示视频图标"
                  (update "video-icon" (set_display "block")
                     (update "player-controls" (set_display "none")
                        (update "video-canvas" (set_display "none")
                           (update "video-icon" (set_display "none")
                              (update "audio-icon" (set_display "none")
                                 w')))))))
      with (document
              (console_log "显示视频图标"
                 (update "video-icon" (set_display "block")
                    (update "player-controls" (set_display "none")
                       (update "video-canvas" (set_display "none")
                          (update "video-icon" (set_display "none")
                             (update "audio-icon" (set_display "none")
                                w)))))))
      by (apply beyond_console_fields in Hicon; apply Hicon).
    destruct (document _ !! "video-canvas"); [|exact Hicon].
    apply beyond_console_canvas_set_height, beyond_console_canvas_set_width,
      beyond_console_update, Hicon.
  - apply beyond_console_console_log. symmetry.
    apply beyond_console_console_log. symmetry.
    apply beyond_console_update, Hhide.
Qed.

End Opening.

Section OpenRun.

Implicit Types (w : World) (env : Env).

(** The run of [openFileDialog] once a path is picked. *)
Lemma openFileDialog_selected env w c0 s0 :
  env _ DialogOpen = Resolved (Some (String c0 s0)) →
  run env (openFileDialog w) =
    let wl := file_labelled (String c0 s0)
                (console_log "打开文件对话框被调用..." w) in
    match env _ ToggleMaximize with
    | Rejected error =>
        alert (open_failed error) (console_error "打开文件时出错:" wl)
    | Resolved _ =>
        showMediaIcon (String c0 s0)
          (match env _ (Invoke_load_file (String c0 s0)) with
           | Resolved _ => console_log "文件加载到播放器成功" wl
           | Rejected _ => console_error "加载文件到播放器失败:" wl
           end)
    end.
Proof.
  intros Hpick. cbn [openFileDialog run]. rewrite Hpick. cbn [run].
  destruct (env _ ToggleMaximize); reflexivity.
Qed.

(** The run when nothing is picked. *)
Lemma openFileDialog_cancelled env w :
  env _ DialogOpen = Resolved None
  ∨ env _ DialogOpen = Resolved (Some EmptyString) →
  run env (openFileDialog w) =
    console_log "用户取消了文件选择或返回了无效值"
      (console_log "文件对话框返回:"
         (console_log "打开文件对话框被调用..." w)).
Proof.
  intros [Hpick|Hpick]; cbn [openFileDialog run]; rewrite Hpick; reflexivity.
Qed.

Lemma file_labelled_beyond path w :
  surface_vars (file_labelled path w) = surface_vars w ∧
  player (file_labelled path w) = player w ∧
  lastVolume (file_labelled path w) = lastVolume w ∧
  bodyClassList (file_labelled path w) = bodyClassList w ∧
  alerts (file_labelled path w) = alerts w ∧
  canvasCalls (file_labelled path w) = canvasCalls w.
Proof. unfold file_labelled. case_lookups; repeat split. Qed.

Lemma document_file_labelled path w id :
  document (file_labelled path w) !! id =
    match document w !! "file-info", document w !! "file-name" with
    | Some _, Some _ =>
        if decide (id = "file-info") then
          classList_remove "hidden" <$> document w !! id
        else if decide (id = "file-name") then
          set_textContent
            (TStr ("已打开: " +:+
                   JS.or_else
                     (default EmptyString
                        (JS.pop (JS.split JS.is_slash path))) path))
            <$> document w !! id
        else document w !! id
    | _, _ => document w !! id
    end.
Proof.
  unfold file_labelled, getElementById.
  cbn [document console_log with_console].
  destruct (document w !! "file-info"), (document w !! "file-name");
    try reflexivity.
  cbn [document update with_document].
  destruct (decide (id = "file-info")) as [->|Hinfo].
  - rewrite lookup_alter_eq, lookup_alter_ne by done. reflexivity.
  - rewrite lookup_alter_ne by done.
    destruct (decide (id = "file-name")) as [->|Hname].
    + rewrite lookup_alter_eq. reflexivity.
    + rewrite lookup_alter_ne by done. reflexivity.
Qed.

End OpenRun.

(** X12.  The label shows the name of the file, not its path: for a path
    that ends in a separator ([/] or [\]) followed by a name without
    separators, the label reads the fixed prefix and that name; when the
    name is empty (the path ends in a separator) it reads the whole path.
    The label is set and unhidden as soon as the path is picked, so it is
    there whatever the window and the engine answer afterwards. *)
Theorem openFileDialog_labels_base_name
    (env : Env) (w : World) (dir : string) (c : ascii) (name : string) :
  JS.is_slash c = true → separator_free name = true →
  env _ DialogOpen = Resolved (Some (dir +:+ String c name)) →
  is_Some (document w !! "file-info") →
  is_Some (document w !! "file-name") →
  textContent <$> document (run env (openFileDialog w)) !! "file-name"
    = Some (Some (TStr ("已打开: " +:+
                       (if bool_decide (name = EmptyString)
                        then dir +:+ String c name else name)))) ∧
  has_class "hidden" "file-info" (run env (openFileDialog w)) = false.
Proof.
  intros Hc Hname Hpick [info Hinfo] [label Hlabel].
  assert (Hpath : ∃ c0 s0, dir +:+ String c name = String c0 s0)
    by (destruct dir; cbn; eauto).
  destruct Hpath as (c0 & s0 & Hpath).
  rewrite Hpath in Hpick.
  assert (Hdoc : ∀ id, id ∉ media_elements →
            document (run env (openFileDialog w)) !! id
            = document (file_labelled (String c0 s0)
                          (console_log "打开文件对话框被调用..." w)) !! id).
  { intros id Hid. rewrite (openFileDialog_selected env w c0 s0 Hpick).
    cbn zeta. destruct (env _ ToggleMaximize); [|reflexivity].
    rewrite (document_showMediaIcon_other _ _ id Hid).
    destruct (env _ (Invoke_load_file _)); reflexivity. }
  assert (Hother : ∀ id, id ∈ ["file-info"; "file-name"] →
                         id ∉ media_elements).
  { intros id Hid. unfold media_elements.
    repeat (apply elem_of_cons in Hid as [->|Hid]);
      [| |apply elem_of_nil in Hid; destruct Hid];
      apply (bool_decide_eq_false_1 (_ ∈ _)); reflexivity. }
  split.
  - rewrite Hdoc by (apply Hother, list_elem_of_further, list_elem_of_here).
    rewrite document_file_labelled.
    cbn [document console_log with_console]. rewrite Hinfo, Hlabel.
    cbn [decide]. rewrite decide_False, decide_True by done.
    rewrite <- Hpath, (base_name dir c name Hc Hname). reflexivity.
  - unfold has_class.
    rewrite Hdoc by (apply Hother, list_elem_of_here).
    rewrite document_file_labelled.
    cbn [document console_log with_console]. rewrite Hinfo, Hlabel.
    rewrite decide_True by done. cbn [fmap option_fmap option_map].
    apply bool_decide_eq_false_2. cbn [classList classList_remove set_classList].
    intros [Hne _]%list_elem_of_filter. apply Hne. reflexivity.
Qed.

(** A Windows path on a page with the two label elements; the engine is
    unreachable. *)
Lemma openFileDialog_labels_base_name_witness :
  textContent
    <$> document
          (run (env_down "C:\media\song.mp3")
             (openFileDialog
                (initial (<["file-info" := blank_canvas]>
                            {[ "file-name" := blank_canvas ]}))))
        !! "file-name"
  = Some (Some (TStr "已打开: song.mp3")).
Proof.
  assert (Hinfo : is_Some
            (document (initial (<["file-info" := blank_canvas]>
                                  {[ "file-name" := blank_canvas ]}))
             !! "file-info")) by (eexists; reflexivity).
  assert (Hname : is_Some
            (document (initial (<["file-info" := blank_canvas]>
                                  {[ "file-name" := blank_canvas ]}))
             !! "file-name")) by (eexists; reflexivity).
  exact (proj1 (openFileDialog_labels_base_name
                  (env_down "C:\media\song.mp3") _ "C:\media" "\"%char
                  "song.mp3" eq_refl eq_refl eq_refl Hinfo Hname)).
Defined.

(** X13.  An alert is raised exactly when the picker or the window call
    fails, with the error in its text: never for a cancelled dialog and
    never for an engine that rejects [load_file].  A cancelled dialog (no
    path, or an empty one) changes nothing but the console and sends
    nothing.  When the window call fails after a path was picked, the
    media presentation is not touched: only the label has changed. *)
Theorem openFileDialog_alerts_and_cancellation (env : Env) (w : World) :
  alerts (run env (openFileDialog w)) =
    alerts w ++
    match env _ DialogOpen, env _ ToggleMaximize with
    | Rejected error, _ => [open_failed error]
    | Resolved (Some (String _ _)), Rejected error => [open_failed error]
    | _, _ => []
    end ∧
  (env _ DialogOpen = Resolved None
   ∨ env _ DialogOpen = Resolved (Some EmptyString) →
   beyond_console (run env (openFileDialog w)) = beyond_console w ∧
   commands env (openFileDialog w) = []) ∧
  (∀ error id, env _ ToggleMaximize = Rejected error →
               id ∈ media_elements →
               document (run env (openFileDialog w)) !! id = document w !! id).
Proof.
  split; [|split].
  - destruct (env _ DialogOpen) as [[[|c0 s0]|]|err] eqn:Hpick.
    + rewrite (openFileDialog_cancelled env w (or_intror Hpick)).
      destruct (env _ ToggleMaximize); cbn; rewrite app_nil_r; reflexivity.
    + rewrite (openFileDialog_selected env w c0 s0 Hpick). cbn zeta.
      destruct (file_labelled_beyond (String c0 s0)
                  (console_log "打开文件对话框被调用..." w))
        as (_ & _ & _ & _ & Ha & _).
      destruct (env _ ToggleMaximize).
      * rewrite alerts_showMediaIcon.
        destruct (env _ (Invoke_load_file _)); cbn [alerts console_log
          console_error with_console]; rewrite Ha, app_nil_r; reflexivity.
      * cbn [alerts alert with_alerts console_error with_console].
        rewrite Ha. reflexivity.
    + rewrite (openFileDialog_cancelled env w (or_introl Hpick)).
      destruct (env _ ToggleMaximize); cbn; rewrite app_nil_r; reflexivity.
    + cbn [openFileDialog run]. rewrite Hpick.
      destruct (env _ ToggleMaximize); reflexivity.
  - intros Hcancel. split.
    + rewrite (openFileDialog_cancelled env w Hcancel). reflexivity.
    + rewrite openFileDialog_commands.
      destruct Hcancel as [-> | ->]; reflexivity.
  - intros error id Hwin Hid.
    destruct (env _ DialogOpen) as [[[|c0 s0]|]|err] eqn:Hpick.
    + rewrite (openFileDialog_cancelled env w (or_intror Hpick)). reflexivity.
    + rewrite (openFileDialog_selected env w c0 s0 Hpick), Hwin. cbn zeta.
      cbn [document alert with_alerts console_error with_console].
      rewrite document_file_labelled.
      cbn [document console_log with_console].
      destruct (document w !! "file-info"), (document w !! "file-name");
        try reflexivity.
      unfold media_elements in Hid.
      repeat (apply elem_of_cons in Hid as [->|Hid]);
        [| | | | |apply elem_of_nil in Hid; destruct Hid];
        rewrite !decide_False by done; reflexivity.
    + rewrite (openFileDialog_cancelled env w (or_introl Hpick)). reflexivity.
    + cbn [openFileDialog run]. rewrite Hpick. reflexivity.
Qed.

(** A cancelled dialog at start-up. *)
Lemma openFileDialog_alerts_and_cancellation_witness :
  commands (env_of (Resolved None) (Resolved ()) (Resolved ())
              (Resolved true) nobody nobody)
    (openFileDialog (initial ∅)) = [].
Proof.
  destruct (openFileDialog_alerts_and_cancellation
              (env_of (Resolved None) (Resolved ()) (Resolved ())
                 (Resolved true) nobody nobody) (initial ∅))
    as (_ & Hcancel & _).
  apply Hcancel. left. reflexivity.
Defined.

(** X14.  What the engine answers to [load_file] is logged and has no other
    effect: two runs of [openFileDialog] in which the picker and the window
    answer alike end with the same page, the same playback state and the
    same alerts, whether [load_file] succeeds or fails in either. *)
Theorem openFileDialog_load_reply_only_logged (env env' : Env) (w : World) :
  env _ DialogOpen = env' _ DialogOpen →
  env _ ToggleMaximize = env' _ ToggleMaximize →
  beyond_console (run env (openFileDialog w))
  = beyond_console (run env' (openFileDialog w)).
Proof.
  intros Hpick Hwin.
  destruct (env' _ DialogOpen) as [[[|c0 s0]|]|err] eqn:Hpick'.
  - rewrite (openFileDialog_cancelled env w (or_intror Hpick)),
      (openFileDialog_cancelled env' w (or_intror Hpick')). reflexivity.
  - rewrite (openFileDialog_selected env w c0 s0 Hpick),
      (openFileDialog_selected env' w c0 s0 Hpick'), Hwin. cbn zeta.
    destruct (env' _ ToggleMaximize); [|reflexivity].
    apply beyond_console_showMediaIcon.
    destruct (env _ (Invoke_load_file _)), (env' _ (Invoke_load_file _));
      reflexivity.
  - rewrite (openFileDialog_cancelled env w (or_introl Hpick)),
      (openFileDialog_cancelled env' w (or_introl Hpick')). reflexivity.
  - cbn [openFileDialog run]. rewrite Hpick, Hpick'. reflexivity.
Qed.

Lemma openFileDialog_load_reply_only_logged_witness :
  beyond_console (run (env_ok "/a/b.mkv" true 0%float)
                    (openFileDialog (initial ∅)))
  = beyond_console (run (env_down "/a/b.mkv") (openFileDialog (initial ∅))).
Proof.
  apply (openFileDialog_load_reply_only_logged
           (env_ok "/a/b.mkv" true 0%float) (env_down "/a/b.mkv") (initial ∅));
    reflexivity.
Defined.

(** ** Opening a folder *)

(** X15.  Opening a folder only labels it.  The handler sends no engine
    command, for any picker behaviour; it leaves the playback state, the
    surface, the player mode and every element but the two label elements
    as they are; it raises an alert exactly when the picker fails.  For a
    path that ends in a separator followed by a name without separators,
    the label reads the folder prefix and that name. *)
Theorem openFolderDialog_only_labels (env : Env) (w : World) :
  commands env (openFolderDialog w) = [] ∧
  player (run env (openFolderDialog w)) = player w ∧
  surface_vars (run env (openFolderDialog w)) = surface_vars w ∧
  canvasCalls (run env (openFolderDialog w)) = canvasCalls w ∧
  bodyClassList (run env (openFolderDialog w)) = bodyClassList w ∧
  (∀ id, id ∉ ["file-info"; "file-name"] →
         document (run env (openFolderDialog w)) !! id = document w !! id) ∧
  alerts (run env (openFolderDialog w)) =
    alerts w ++
    match env _ DialogOpen with
    | Rejected error => ["打开文件夹失败: " +:+ error]
    | Resolved _ => []
    end ∧
  (∀ dir c name,
      JS.is_slash c = true → separator_free name = true →
      name ≠ EmptyString →
      env _ DialogOpen = Resolved (Some (dir +:+ String c name)) →
      is_Some (document w !! "file-info") →
      is_Some (document w !! "file-name") →
      textContent <$> document (run env (openFolderDialog w)) !! "file-name"
        = Some (Some (TStr ("已打开文件夹: " +:+ name)))).
Proof.
  assert (Hrun : ∀ P : World → Prop,
            (∀ m, P (console_log m (console_log "文件夹对话框返回:"
                       (console_log "打开文件夹对话框被调用..." w)))) →
            (∀ error, P (alert ("打开文件夹失败: " +:+ error)
                           (console_error "打开文件夹时出错:"
                              (console_log "打开文件夹对话框被调用..." w)))) →
            (∀ name, P (console_log "打开文件夹:"
                          (update "file-info" (classList_remove "hidden")
                             (update "file-name"
                                (set_textContent
                                   (TStr ("已打开文件夹: " +:+ name)))
                                (console_log "文件夹对话框返回:"
                                   (console_log "打开文件夹对话框被调用..." w)))))) →
            P (run env (openFolderDialog w))).
  { intros P Hplain Herr Hlabel. cbn [openFolderDialog run].
    destruct (env _ DialogOpen) as [[[|c0 s0]|]|err]; cbn [run];
      try apply Hplain; try apply Herr.
    case_lookups; first [apply Hlabel | apply Hplain]. }
  split; [|split; [|split; [|split; [|split; [|split; [|split]]]]]].
  - cbn [openFolderDialog commands command_of option_list app].
    destruct (env _ DialogOpen) as [[[|c0 s0]|]|err]; reflexivity.
  - apply Hrun; reflexivity.
  - apply Hrun; reflexivity.
  - apply Hrun; reflexivity.
  - apply Hrun; reflexivity.
  - intros id Hid.
    apply not_elem_of_cons in Hid as [Hinfo Hid].
    apply not_elem_of_cons in Hid as [Hname _].
    apply Hrun; try reflexivity.
    intros name. cbn [document console_log with_console update with_document].
    rewrite !lookup_alter_ne by done. reflexivity.
  - cbn [openFolderDialog run].
    destruct (env _ DialogOpen) as [[[|c0 s0]|]|err]; cbn [run];
      try (cbn; rewrite app_nil_r; reflexivity); [|reflexivity].
    case_lookups; cbn; rewrite app_nil_r; reflexivity.
  - intros dir c name Hc Hfree Hne Hpick [info Hinfo] [label Hlabel].
    assert (Hpath : ∃ c0 s0, dir +:+ String c name = String c0 s0)
      by (destruct dir; cbn; eauto).
    destruct Hpath as (c0 & s0 & Hpath).
    cbn [openFolderDialog run]. rewrite Hpick, Hpath. cbn [run].
    unfold getElementById. cbn [document console_log with_console].
    rewrite Hinfo, Hlabel.
    cbn [document console_log with_console update with_document].
    rewrite lookup_alter_ne, lookup_alter_eq, Hlabel by done.
    rewrite <- Hpath, (base_name dir c name Hc Hfree).
    rewrite bool_decide_eq_false_2 by exact Hne. reflexivity.
Qed.

Lemma openFolderDialog_only_labels_witness :
  textContent
    <$> document
          (run (env_ok "/home/user/Music" true 0%float)
             (openFolderDialog
                (initial (<["file-info" := blank_canvas]>
                            {[ "file-name" := blank_canvas ]}))))
        !! "file-name"
  = Some (Some (TStr "已打开文件夹: Music")).
Proof.
  assert (Hinfo : is_Some
            (document (initial (<["file-info" := blank_canvas]>
                                  {[ "file-name" := blank_canvas ]}))
             !! "file-info")) by (eexists; reflexivity).
  assert (Hname : is_Some
            (document (initial (<["file-info" := blank_canvas]>
                                  {[ "file-name" := blank_canvas ]}))
             !! "file-name")) by (eexists; reflexivity).
  destruct (openFolderDialog_only_labels
              (env_ok "/home/user/Music" true 0%float)
              (initial (<["file-info" := blank_canvas]>
                          {[ "file-name" := blank_canvas ]})))
    as (_ & _ & _ & _ & _ & _ & _ & Hlabel).
  apply (Hlabel "/home/user" "/"%char "Music");
    [reflexivity|reflexivity|discriminate|reflexivity|exact Hinfo|exact Hname].
Defined.

(** ** Media routing over several files *)

(** X16.  The presentation is that of the file opened last.  Opening a
    second file leaves every icon, the raster surface and the control strip
    as opening that file alone would, whatever the first file was; the
    player mode is entered once and not again. *)
Theorem showMediaIcon_last_file_wins (path1 path2 : string) (w : World) :
  (∀ id, id ∈ ["audio-icon"; "video-icon"; "video-canvas"; "player-controls"] →
         shown id (showMediaIcon path2 (showMediaIcon path1 w))
         = shown id (showMediaIcon path2 w)) ∧
  "player-mode" ∈ bodyClassList (showMediaIcon path1 w) ∧
  bodyClassList (showMediaIcon path2 (showMediaIcon path1 w))
  = bodyClassList (showMediaIcon path1 w).
Proof.
  assert (Hconst : ∀ (a : string) (g h : Element → string)
                     (x y : option Element),
            g <$> x = h <$> y → (λ _, a) <$> x = (λ _, a) <$> y).
  { intros a g h [x|] [y|]; cbn; congruence. }
  assert (Hbody : ∀ p x, bodyClassList (showMediaIcon p x)
                         = if bool_decide ("player-mode" ∈ bodyClassList x)
                           then bodyClassList x
                           else bodyClassList x ++ ["player-mode"]).
  { intros p x. unfold showMediaIcon.
    destruct (JS.includes audioExtensions _); [reflexivity|].
    destruct (JS.includes videoExtensions _); [|reflexivity].
    cbn. destruct (alter _ _ _ !! "video-canvas"); reflexivity. }
  assert (Hmode : "player-mode" ∈ bodyClassList (showMediaIcon path1 w)).
  { rewrite Hbody. case_bool_decide as Hin; [exact Hin|].
    apply elem_of_app. right. apply list_elem_of_here. }
  split; [|split; [exact Hmode|]].
  - intros id Hid. unfold shown.
    destruct (document_showMediaIcon_display path2 (showMediaIcon path1 w))
      as (Ha2 & Hv2 & Hc2 & Hp2).
    destruct (document_showMediaIcon_display path2 w) as (Ha & Hv & Hc & Hp).
    destruct (document_showMediaIcon_display path1 w)
      as (Ha1 & Hv1 & Hc1 & Hp1).
    repeat (apply elem_of_cons in Hid as [->|Hid]);
      [| | | |apply elem_of_nil in Hid; destruct Hid].
    + rewrite Ha2, Ha. exact (Hconst _ _ _ _ _ Ha1).
    + rewrite Hv2, Hv. exact (Hconst _ _ _ _ _ Hv1).
    + rewrite Hc2, Hc. exact (Hconst _ _ _ _ _ Hc1).
    + rewrite Hp2, Hp. exact (Hconst _ _ _ _ _ Hp1).
  - rewrite Hbody. rewrite bool_decide_eq_true_2 by exact Hmode. reflexivity.
Qed.

(** X17.  Only the part after the last dot counts, and its case does not:
    for an extension without a dot, every path that ends in a dot and that
    extension is presented by the kind of the lowercased extension, whatever
    comes before.  So [.MKV] is video and [.Mp3] audio like their lowercase
    forms, and a video name with a further unknown extension, as in
    [.mkv.txt], is presented as audio. *)
Theorem classify_by_last_extension (pre pre' extension : string) :
  dot_free extension = true →
  classify (pre +:+ String "." extension)
    = kind_of (JS.toLowerCase extension) ∧
  classify (pre +:+ String "." extension)
    = classify (pre' +:+ String "." extension) ∧
  classify (pre +:+ ".MKV") = Video ∧
  classify (pre +:+ ".Mp3") = Audio ∧
  classify (pre +:+ ".mkv.txt") = Audio.
Proof.
  intros Hfree. unfold classify.
  rewrite !(extension_suffix _ extension Hfree).
  repeat split.
  - change ".MKV" with (String "." "MKV").
    rewrite extension_suffix by reflexivity. reflexivity.
  - change ".Mp3" with (String "." "Mp3").
    rewrite extension_suffix by reflexivity. reflexivity.
  - assert (Happ : pre +:+ ".mkv.txt" = (pre +:+ ".mkv") +:+ String "." "txt").
    { clear. induction pre as [|c r IH]; [reflexivity|].
      change (String c r +:+ ".mkv.txt") with (String c (r +:+ ".mkv.txt")).
      rewrite IH. reflexivity. }
    rewrite Happ, extension_suffix by reflexivity. reflexivity.
Qed.

Lemma classify_by_last_extension_witness :
  classify ("/films/holiday.2019" +:+ String "." "WebM") = Video.
Proof.
  rewrite (proj1 (classify_by_last_extension "/films/holiday.2019" ""
                    "WebM" eq_refl)).
  reflexivity.
Defined.

(** X18.  Opening a video hides nothing of the canvas but reallocates it:
    the backing store is assigned the size of the canvas's layout box and
    holds it as a canvas does, unchanged when it is at most 2^31 - 1 each
    way, as every layout box is; the assignments clear the picture and are
    the only canvas calls.  Opening anything else hides the canvas and
    leaves its backing store, its picture and the record of canvas calls as
    they are. *)
Theorem showMediaIcon_canvas (path : string) (w : World) (el : Element) :
  document w !! "video-canvas" = Some el →
  match classify path with
  | Video =>
      document (showMediaIcon path w) !! "video-canvas"
        = Some (set_height (reflected 150 (clientHeight el))
                  (clear_painted
                     (set_width (reflected 300 (clientWidth el))
                        (clear_painted
                           (set_display "block"
                              (set_display "none" el)))))) ∧
      painted <$> document (showMediaIcon path w) !! "video-canvas"
        = Some None ∧
      dimensions <$> document (showMediaIcon path w) !! "video-canvas"
        = Some (reflected 300 (clientWidth el),
                reflected 150 (clientHeight el)) ∧
      ((clientWidth el ≤ 2147483647)%N → (clientHeight el ≤ 2147483647)%N →
       dimensions <$> document (showMediaIcon path w) !! "video-canvas"
         = Some (clientWidth el, clientHeight el)) ∧
      canvasCalls (showMediaIcon path w)
        = canvasCalls w ++ [SetWidth "video-canvas" (clientWidth el);
                            SetHeight "video-canvas" (clientHeight el)]
  | Audio =>
      document (showMediaIcon path w) !! "video-canvas"
        = Some (set_display "none" el) ∧
      canvasCalls (showMediaIcon path w) = canvasCalls w
  end.
Proof.
  intros Hel. unfold classify, kind_of, showMediaIcon, getElementById.
  destruct (JS.includes audioExtensions _);
    [|destruct (JS.includes videoExtensions _)];
    cbn [document update with_document with_bodyClassList console_log
         with_console canvasCalls];
    lookup_alters; rewrite ?Hel;
    cbn [fmap option_fmap option_map document update with_document
         canvas_set_width canvas_set_height with_canvasCalls canvasCalls
         with_bodyClassList console_log with_console];
    lookup_alters; rewrite ?Hel; repeat split.
  - intros Hw Hh. cbn. rewrite !reflected_fits by assumption. reflexivity.
  - rewrite <- app_assoc. reflexivity.
Qed.

Lemma showMediaIcon_canvas_witness :
  dimensions
    <$> document (showMediaIcon "/films/a.mkv"
                    (initial {[ "video-canvas" := blank_canvas ]}))
        !! "video-canvas"
  = Some (800%N, 450%N).
Proof.
  assert (Hel : document (initial {[ "video-canvas" := blank_canvas ]})
                !! "video-canvas" = Some blank_canvas) by reflexivity.
  exact (proj1 (proj2 (proj2 (showMediaIcon_canvas "/films/a.mkv" _ _ Hel)))).
Defined.

(** ** The file menu *)

Section Menu.

Implicit Types (w : World) (e : Element).

Lemma classList_toggle_self c e :
  bool_decide (c ∈ classList (classList_toggle c e))
  = negb (bool_decide (c ∈ classList e)).
Proof.
  unfold classList_toggle.
  destruct (bool_decide (c ∈ classList e)) eqn:Hin; cbn [negb].
  - apply bool_decide_eq_false_2. cbn.
    intros [Hne _]%list_elem_of_filter. apply Hne. reflexivity.
  - apply bool_decide_eq_true_2. cbn. apply elem_of_app. right.
    apply list_elem_of_here.
Qed.

Lemma classList_toggle_other c d e :
  d ≠ c →
  bool_decide (d ∈ classList (classList_toggle c e))
  = bool_decide (d ∈ classList e).
Proof.
  intros Hne. unfold classList_toggle. apply bool_decide_ext.
  destruct (bool_decide (c ∈ classList e)); cbn.
  - rewrite list_elem_of_filter. tauto.
  - rewrite elem_of_app, list_elem_of_singleton. tauto.
Qed.

Lemma classList_remove_self c e :
  bool_decide (c ∈ classList (classList_remove c e)) = false.
Proof.
  apply bool_decide_eq_false_2. cbn.
  intros [Hne _]%list_elem_of_filter. apply Hne. reflexivity.
Qed.

Lemma has_class_update c id h w :
  has_class c id (update id h w)
  = match document w !! id with
    | Some el => bool_decide (c ∈ classList (h el))
    | None => false
    end.
Proof.
  unfold has_class. cbn [document update with_document].
  rewrite lookup_alter_eq. destruct (document w !! id); reflexivity.
Qed.

End Menu.

(** X19.  The menu button toggles the menu and nothing else: one click
    flips whether the drop-down carries [show] and keeps its other classes,
    two clicks leave it as it was.  Closing always leaves the menu closed.
    Choosing one of the two menu items that open something closes the menu
    at once, before the picker answers.  The main open button does not
    stop its click, which goes on to the listener of the document: the
    menu is closed as well, at once, when the click landed outside the
    drop-down, and is left as it is otherwise; what the handler asks and
    sends afterwards is what [openFileDialog] asks and sends. *)
Theorem menu_toggles_and_closes (w : World) :
  has_class "show" "file-dropdown" (fileMenuBtn_click w)
    = (bool_decide (is_Some (document w !! "file-dropdown"))
       && negb (has_class "show" "file-dropdown" w)) ∧
  (∀ c, c ≠ "show" →
        has_class c "file-dropdown" (fileMenuBtn_click w)
        = has_class c "file-dropdown" w) ∧
  has_class "show" "file-dropdown" (fileMenuBtn_click (fileMenuBtn_click w))
    = has_class "show" "file-dropdown" w ∧
  has_class "show" "file-dropdown" (closeMenu w) = false ∧
  has_class "show" "file-dropdown" (visible (openFileBtn_click w)) = false ∧
  has_class "show" "file-dropdown" (visible (openFolderBtn_click w)) = false ∧
  (∀ outsideMenu : bool,
      has_class "show" "file-dropdown"
        (visible (mainOpenBtn_click outsideMenu w))
      = (negb outsideMenu && has_class "show" "file-dropdown" w) ∧
      ∀ env : Env,
        commands env (mainOpenBtn_click outsideMenu w)
        = commands env (openFileDialog w)).
Proof.
  assert (Hclose : ∀ x, has_class "show" "file-dropdown" (closeMenu x) = false).
  { intros x. unfold closeMenu. rewrite has_class_update.
    destruct (document x !! "file-dropdown"); [|reflexivity].
    apply classList_remove_self. }
  assert (Htoggle : ∀ x, has_class "show" "file-dropdown" (toggleMenu x)
                         = (bool_decide (is_Some (document x !! "file-dropdown"))
                            && negb (has_class "show" "file-dropdown" x))).
  { intros x. unfold toggleMenu. rewrite has_class_update. unfold has_class.
    destruct (document x !! "file-dropdown") as [el|]; [|reflexivity].
    rewrite classList_toggle_self.
    rewrite (bool_decide_eq_true_2 (is_Some (Some el)))
      by (eexists; reflexivity).
    reflexivity. }
  split; [apply Htoggle|]. split; [|split; [|split; [apply Hclose|]]].
  - intros c Hc. unfold fileMenuBtn_click, toggleMenu.
    rewrite has_class_update. unfold has_class.
    destruct (document w !! "file-dropdown"); [|reflexivity].
    apply classList_toggle_other, Hc.
  - unfold fileMenuBtn_click. rewrite (Htoggle (toggleMenu w)), (Htoggle w).
    assert (Hthere : bool_decide
                       (is_Some (document (toggleMenu w) !! "file-dropdown"))
                     = bool_decide (is_Some (document w !! "file-dropdown"))).
    { apply bool_decide_ext. unfold toggleMenu.
      cbn [document update with_document].
      rewrite lookup_alter_eq. apply fmap_is_Some. }
    rewrite Hthere. unfold has_class.
    destruct (document w !! "file-dropdown") as [el|]; [|reflexivity].
    rewrite (bool_decide_eq_true_2 (is_Some (Some el)))
      by (eexists; reflexivity).
    destruct (bool_decide ("show" ∈ classList el)); reflexivity.
  - split; [apply Hclose|]. split; [apply Hclose|].
    intros outsideMenu. split.
    + destruct outsideMenu; [apply Hclose | reflexivity].
    + intros env. rewrite openFileDialog_commands.
      unfold mainOpenBtn_click.
      cbn [openFileDialog and_then commands command_of option_list app].
      destruct (env _ DialogOpen) as [[[|c s]|]|err]; cbn [commands];
        try reflexivity.
      destruct (env _ ToggleMaximize) as [[]|err]; reflexivity.
Qed.

(** A click on the main open button, outside the open menu. *)
Lemma menu_toggles_and_closes_witness :
  let page := initial {[ "file-dropdown" := blank_canvas ]} in
  has_class "show" "file-dropdown" (fileMenuBtn_click page) = true ∧
  has_class "show" "file-dropdown"
    (visible (mainOpenBtn_click true (fileMenuBtn_click page))) = false.
Proof.
  intros page. split.
  - rewrite (proj1 (menu_toggles_and_closes page)). reflexivity.
  - rewrite (proj1 (proj2 (proj2 (proj2 (proj2 (proj2 (proj2
               (menu_toggles_and_closes (fileMenuBtn_click page)))))))
               true)).
    reflexivity.
Defined.

(** ** The progress bar *)



(** ** The canvas stays on the page *)

Section OnPage.

Implicit Types (w : World) (env : Env).

Lemma dom_update id h w : dom (document (update id h w)) = dom (document w).
Proof. apply dom_alter_L. Qed.

Lemma dom_showPlayPause a b c w :
  dom (document (showPlayPause a b c w)) = dom (document w).
Proof.
  unfold showPlayPause. destruct a, b, c; try reflexivity.
  destruct (isPlaying (player w)); rewrite !dom_update; reflexivity.
Qed.

Lemma dom_showVolumeIcon w :
  dom (document (showVolumeIcon w)) = dom (document w).
Proof.
  unfold showVolumeIcon.
  destruct (JS.strict_eq _ _); try destruct (JS.lt _ _);
    rewrite !dom_update; reflexivity.
Qed.

Lemma dom_canvas_set_width id v w :
  dom (document (canvas_set_width id v w)) = dom (document w).
Proof. apply dom_alter_L. Qed.

Lemma dom_canvas_set_height id v w :
  dom (document (canvas_set_height id v w)) = dom (document w).
Proof. apply dom_alter_L. Qed.

Lemma dom_putImageData id img w :
  dom (document (putImageData id img w)) = dom (document w).
Proof. apply dom_alter_L. Qed.

Lemma dom_showMediaIcon path w :
  dom (document (showMediaIcon path w)) = dom (document w).
Proof.
  unfold showMediaIcon. rewrite document_with_bodyClassList.
  destruct (JS.includes audioExtensions _);
    [|destruct (JS.includes videoExtensions _)];
    try destruct (getElementById "video-canvas" _);
    repeat first
      [ rewrite dom_update
      | rewrite dom_canvas_set_width
      | rewrite dom_canvas_set_height
      | rewrite document_console_log ];
    reflexivity.
Qed.

Lemma dom_bindSurface w : dom (document (bindSurface w)) = dom (document w).
Proof. rewrite bindSurface_document. reflexivity. Qed.

Lemma dom_present f w : dom (document (present w f)) = dom (document w).
Proof.
  unfold present.
  destruct (surface_cases w) as [[Hu Hs]|[[Hu Hs]|[Hu (c & el & Hs)]]].
  - rewrite (renderVideoFrame_unresolved f w Hu). apply dom_bindSurface.
  - rewrite (renderVideoFrame_dangling f w Hu Hs). apply dom_bindSurface.
  - destruct (renderVideoFrame_resolved f w c el Hs)
      as (ctx & _ & _ & _ & ->).
    cbn zeta. destruct (new_ImageData _ _ _); destruct (_ || _); cbn [fst];
      rewrite ?dom_putImageData, ?dom_canvas_set_height,
        ?dom_canvas_set_width;
      apply dom_bindSurface.
Qed.

Lemma dom_openFileDialog env w :
  dom (document (run env (openFileDialog w))) = dom (document w).
Proof.
  cbn [openFileDialog run].
  destruct (env _ DialogOpen) as [[[|c s]|]|err]; cbn [run]; try reflexivity.
  destruct (env _ ToggleMaximize) as [[]|err]; cbn [run].
  - rewrite dom_showMediaIcon.
    destruct (env _ (Invoke_load_file _)); case_lookups;
      cbn [document console_log console_error with_console];
      rewrite ?dom_update; reflexivity.
  - case_lookups; cbn [document console_log console_error with_console alert
                       with_alerts];
      rewrite ?dom_update; reflexivity.
Qed.

(** No operation adds an element to the page or removes one. *)
Lemma dom_perform op w : dom (document (perform w op)) = dom (document w).
Proof.
  destruct op as [|r|v r|r|e r|picked window loaded|frameData]; cbn [perform].
  - unfold tick. destruct (_ && _); [|reflexivity].
    unfold updateTimeDisplay, updateProgress. rewrite !dom_update. reflexivity.
  - cbn [togglePlayPause run env_of]. destruct r as [b|err]; cbn [run].
    + destruct (getRef "play-pause-btn" w), (getRef "play-icon" w),
        (getRef "pause-icon" w); cbn [document console_log with_console];
        rewrite dom_showPlayPause; reflexivity.
    + unfold updatePlayPauseUI. rewrite dom_showPlayPause. reflexivity.
  - cbn [volumeSlider_input run env_of]. rewrite dom_showVolumeIcon.
    destruct r; reflexivity.
  - unfold volumeBtn_click.
    destruct (JS.gt (volume (player w)) 0%float); cbn [run env_of];
      rewrite dom_showVolumeIcon, dom_update; destruct r; reflexivity.
  - cbn [progressBar_click run env_of]. unfold updateTimeDisplay.
    rewrite !dom_update. unfold updateProgress.
    destruct r; cbn [document console_log console_error with_console
                     set_currentTime with_player];
      rewrite dom_update; reflexivity.
  - apply dom_openFileDialog.
  - apply dom_present.
Qed.

(** The canvas variable names an element of the page at start-up, and
    every operation keeps it so. *)
Lemma canvas_on_page_initial doc : canvas_on_page (initial doc).
Proof. exact I. Qed.

Lemma canvas_on_page_bindSurface w :
  canvas_on_page w → canvas_on_page (bindSurface w).
Proof.
  unfold canvas_on_page, bindSurface, getElementById. intros Hw.
  destruct (_ || _); [|exact Hw].
  destruct (document w !! "video-canvas") as [el|] eqn:Hel; cbn; [|exact I].
  rewrite Hel. eauto.
Qed.

Lemma canvas_on_page_perform op w :
  canvas_on_page w → canvas_on_page (perform w op).
Proof.
  intros Hw.
  assert (Hdom : ∀ w', videoCanvas (perform w op) = videoCanvas w' →
                       dom (document w') = dom (document w) →
                       canvas_on_page w' → canvas_on_page (perform w op)).
  { intros w' Hc Hd. unfold canvas_on_page. rewrite Hc.
    destruct (videoCanvas w') as [c|]; [|auto].
    rewrite <- !elem_of_dom, dom_perform, Hd. auto. }
  pose proof (surface_vars_perform op w) as Hvars. unfold surface_vars in Hvars.
  destruct op; try (apply (Hdom w); [congruence|reflexivity|exact Hw]).
  apply (Hdom (bindSurface w)); [congruence|apply dom_bindSurface|].
  apply canvas_on_page_bindSurface, Hw.
Qed.

Lemma canvas_on_page_present_all frames :
  ∀ w, canvas_on_page w → canvas_on_page (present_all frames w).
Proof.
  induction frames as [|f frames IH]; intros w Hw; [exact Hw|].
  cbn [present_all foldl]. fold (present_all frames (present w f)).
  apply IH. apply (canvas_on_page_perform (OpPresent f)), Hw.
Qed.

(** With the canvas on the page, a call finds no surface only when the
    surface is unresolved. *)
Lemma canvas_on_page_surface w :
  canvas_on_page w → unresolved w = false →
  ∃ c el, surface (bindSurface w) = Some (c, el).
Proof.
  intros Hw%canvas_on_page_bindSurface Hu.
  unfold unresolved in Hu. unfold canvas_on_page in Hw. unfold surface.
  destruct (videoCanvas (bindSurface w)) as [c|]; [|discriminate].
  destruct (videoContext (bindSurface w)); [|discriminate].
  destruct Hw as [el ->]. eauto.
Qed.

End OnPage.

(** C7.  While the canvas variable names an element of the page, as it
    does from start-up on, and for frames whose dimensions a canvas can
    have (at most 2^31 - 1 each way, as those of every well-formed frame in
    a JavaScript array are): a call assigns the dimensions of the backing
    store exactly when the surface is resolved and its dimensions differ
    from the frame's; it then assigns the width and the height once each,
    and otherwise leaves the dimensions of every canvas as they are.  When
    frames of the same dimensions are presented one after the other, all
    assignments of the run are those of the first call: at most one resize,
    on the first frame, whether or not a call raises. *)
Theorem renderVideoFrame_resizes_on_change_only
    (f : VideoFrameData.t) (frames : list VideoFrameData.t) (w : World) :
  canvas_on_page w →
  fits_canvas f = true →
  Forall (same_dimensions f) frames →
  (if unresolved w then resizes (present w f) = resizes w
   else ∃ c el,
     surface (bindSurface w) = Some (c, el) ∧
     resizes (present w f) =
       resizes w ++
       if negb (width el =? VideoFrameData.width f)%N
          || negb (height el =? VideoFrameData.height f)%N
       then [SetWidth c (VideoFrameData.width f);
             SetHeight c (VideoFrameData.height f)]
       else []) ∧
  (dimensions_differ f w = false →
   ∀ id, dimensions <$> document (present w f) !! id
         = dimensions <$> document w !! id) ∧
  resizes (present_all (f :: frames) w) = resizes (present w f) ∧
  (∀ g, same_dimensions f g →
        dimensions_differ g (present_all (f :: frames) w) = false) ∧
  canvas_on_page (present_all (f :: frames) w) ∧
  (∀ (doc : gmap string Element) (ops : list Op),
      canvas_on_page (foldl perform (initial doc) ops)) ∧
  (∀ g, well_formed g = true → js_array (VideoFrameData.data g) = true →
        (0 < VideoFrameData.width g * VideoFrameData.height g)%N →
        fits_canvas g = true).
Proof.
  intros Hpage Hfits Hsame. split; [|split; [|split; [|split; [|split; [|split]]]]].
  - pose proof (resizes_present f w) as Hres. unfold dimensions_differ in Hres.
    destruct (unresolved w) eqn:Hu.
    + rewrite (unresolved_surface w Hu), app_nil_r in Hres. exact Hres.
    + destruct (canvas_on_page_surface w Hpage Hu) as (c & el & Hs).
      exists c, el. split; [exact Hs|]. rewrite Hs in Hres. exact Hres.
  - intros Hd id. apply dimensions_present_same, Hd.
  - cbn [present_all foldl]. fold (present_all frames (present w f)).
    apply (resizes_present_all_settled f frames Hfits Hsame).
    apply dimensions_settled; [exact Hfits | split; reflexivity].
  - intros g Hg. cbn [present_all foldl].
    fold (present_all frames (present w f)).
    rewrite <- (dimensions_differ_same f g _ Hg).
    apply (settled_present_all f frames Hfits Hsame).
    apply dimensions_settled; [exact Hfits | split; reflexivity].
  - apply canvas_on_page_present_all, Hpage.
  - intros doc ops.
    assert (Hinv : ∀ w0, canvas_on_page w0 →
                         canvas_on_page (foldl perform w0 ops)).
    { induction ops as [|op ops IH]; intros w0 Hw0; [exact Hw0|].
      cbn [foldl]. apply IH, canvas_on_page_perform, Hw0. }
    apply Hinv, canvas_on_page_initial.
  - apply well_formed_fits.
Qed.

(** Three frames of one pixel on the canvas of the page, which starts at
    300 by 150: the first call resizes, the other two do not. *)
Lemma renderVideoFrame_resizes_on_change_only_witness :
  resizes (present_all [red_pixel; short_pixel; red_pixel]
             (initial {[ "video-canvas" := blank_canvas ]}))
  = [SetWidth "video-canvas" 1; SetHeight "video-canvas" 1].
Proof.
  destruct (renderVideoFrame_resizes_on_change_only red_pixel
              [short_pixel; red_pixel]
              (initial {[ "video-canvas" := blank_canvas ]}))
    as (Hfirst & _ & Hrun & _).
  - exact I.
  - reflexivity.
  - repeat (apply Forall_cons; split; [split; reflexivity|]).
    apply Forall_nil_2.
  - rewrite Hrun. cbn [unresolved] in Hfirst.
    destruct Hfirst as (c & el & Hs & Hres).
    injection Hs as <- <-. exact Hres.
Defined.
